(** * MaskingCanvas: the interactive raster mask editor

    A shallow embedding of [src/MaskingCanvas.tsx]: the viewport
    transform, the brush compositing, the pointer / wheel / keyboard
    handlers and the undo / redo history over bitmap snapshots.

    Numbers.  A number is a rational ([Qc], canonical fractions, so
    that equality is Leibniz equality), and the handlers compute with
    exact rational arithmetic.  JavaScript computes with IEEE-754
    doubles; for the zoom handler, whose guard and whose offsets depend
    on the rounding, the section on number arithmetic gives the handler
    a second time with the rounding of every literal and operation a
    parameter, and [fl53], the rounding of the doubles.  Canvas
    dimensions and list lengths are [nat]; the history index is a [Z],
    because the source initialises it to [-1].

    State.  The refs and the [useState] values of the component are the
    fields of one record; a handler is a function from the record to the
    record it leaves, and it reads the values of the latest render.  The
    mouse cursor style of the container is presentation only and is left
    out. *)

From Stdlib Require Import ZArith QArith Qcanon Qround Lia Lqa Bool String.
From Stdlib Require Qcabs.
From stdpp Require Import base option list numbers.

Local Open Scope Qc_scope.

(** ** Rational helpers *)

Definition Qcltb (p q : Qc) : bool :=
  match p ?= q with Lt => true | _ => false end.

Definition Qcmin (p q : Qc) : Qc := if Qcltb q p then q else p.

Definition Qc_of_nat (n : nat) : Qc := Qc_of_Z (Z.of_nat n).

(** ** Module constants (lines 9-10) *)

Definition MIN_SCALE : Qc := Q2Qc (2 # 10).
Definition MAX_SCALE : Qc := Q2Qc 5.

(** ** Data *)

Record Transform := mkTransform {
  scale : Qc;
  offsetX : Qc;
  offsetY : Qc
}.

Record Point := mkPoint { px : Qc; py : Qc }.

(** The part of [getBoundingClientRect()] the component reads. *)
Record DOMRect := mkRect {
  rect_left : Qc;
  rect_top : Qc;
  rect_width : Qc;
  rect_height : Qc
}.

Record PointerEvent := mkPointer {
  button : Z;
  clientX : Qc;
  clientY : Qc
}.

Record WheelEvent := mkWheel {
  wheelX : Qc;
  wheelY : Qc;
  deltaY : Qc
}.

Record KeyboardEvent := mkKey {
  key : string;
  ctrlKey : bool;
  metaKey : bool
}.

(** ** The canvas element and its 2D context

    A pixel is an RGBA sample with premultiplied colour, each channel a
    rational in [0,1]; the bitmap is the row-major list of the
    [canvas_width * canvas_height] pixels.  The browser's 8-bit
    quantisation is not modelled. *)

Record Pixel := mkPixel { red : Qc; green : Qc; blue : Qc; alpha : Qc }.

Definition transparent : Pixel := mkPixel 0 0 0 0.

Record Canvas := mkCanvas {
  canvas_width : nat;
  canvas_height : nat;
  bitmap : list Pixel;
  (** whether [getContext('2d')] hands out a context *)
  context2d : bool
}.

(** What [getImageData] returns: a fresh object holding a copy of the
    pixels.  The source never writes to an [ImageData], so a value is a
    faithful model of the object. *)
Record ImageData := mkImageData {
  image_width : nat;
  image_height : nat;
  data : list Pixel
}.

(** What [toDataURL('image/png')] encodes.  PNG is lossless, so the
    encoded raster is its dimensions and pixels; a canvas without
    pixels yields the string ["data:,"]. *)
Inductive DataURL :=
  | NoData
  | Png (w h : nat) (pixels : list Pixel).

Inductive BrushShape := circle | square.
Inductive LineJoin := JoinRound | JoinBevel | JoinMiter.
Inductive LineCap := CapButt | CapRound | CapSquare.
Inductive CompositeOperation := SourceOver | DestinationOut.

Definition with_bitmap (b : list Pixel) (c : Canvas) : Canvas :=
  mkCanvas (canvas_width c) (canvas_height c) b (context2d c).

(** Assigning [canvas.width] or [canvas.height] resets the bitmap to
    transparent black at the new size. *)
Definition set_width (w : nat) (c : Canvas) : Canvas :=
  mkCanvas w (canvas_height c)
    (replicate (w * canvas_height c) transparent) (context2d c).

Definition set_height (h : nat) (c : Canvas) : Canvas :=
  mkCanvas (canvas_width c) h
    (replicate (canvas_width c * h) transparent) (context2d c).

(** [context.getImageData(0, 0, canvas.width, canvas.height)]; a zero
    width or height raises [IndexSizeError], here [None]. *)
Definition getImageData (c : Canvas) : option ImageData :=
  if (canvas_width c =? 0)%nat || (canvas_height c =? 0)%nat then None
  else Some (mkImageData (canvas_width c) (canvas_height c) (bitmap c)).

(** [context.clearRect(0, 0, canvas.width, canvas.height)]. *)
Definition clearRect (c : Canvas) : Canvas :=
  with_bitmap (map (fun _ => transparent) (bitmap c)) c.

(** [context.putImageData(img, 0, 0)]: the pixels of [img] replace the
    canvas pixels over the rectangle the two share. *)
Definition putImageData (img : ImageData) (c : Canvas) : Canvas :=
  let w := canvas_width c in
  with_bitmap
    (imap (fun i dst =>
       let x := (i `mod` w)%nat in
       let y := (i `div` w)%nat in
       if (x <? image_width img)%nat && (y <? image_height img)%nat
       then default transparent (data img !! (y * image_width img + x)%nat)
       else dst) (bitmap c)) c.

Definition toDataURL (c : Canvas) : DataURL :=
  if (canvas_width c =? 0)%nat || (canvas_height c =? 0)%nat then NoData
  else Png (canvas_width c) (canvas_height c) (bitmap c).

(** *** Stroking

    [lineJoin] and [lineCap] ignore strings that are not one of their
    values: ['square'] is a cap but not a join, so the join keeps its
    default [miter].  [lineWidth] ignores values that are not positive
    and finite and keeps its default [1]; [x / 0] is [0] in [Qc], so
    that rule also covers the division by a zero scale. *)

Definition parse_lineJoin (s : string) : LineJoin :=
  if String.eqb s "round" then JoinRound
  else if String.eqb s "bevel" then JoinBevel
  else JoinMiter.

Definition parse_lineCap (s : string) : LineCap :=
  if String.eqb s "round" then CapRound
  else if String.eqb s "square" then CapSquare
  else CapButt.

Definition set_lineWidth (v : Qc) : Qc := if Qcltb 0 v then v else 1.

(** A CSS [rgba(r, g, b, a)] colour as a premultiplied pixel; the alpha
    is clamped to [0,1]. *)
Definition rgba (r g b : Z) (a : Qc) : Pixel :=
  let a' := if Qcltb a 0 then 0 else if Qcltb 1 a then 1 else a in
  mkPixel (Qc_of_Z r / Qc_of_Z 255 * a') (Qc_of_Z g / Qc_of_Z 255 * a')
          (Qc_of_Z b / Qc_of_Z 255 * a') a'.

Definition scale_pixel (k : Qc) (p : Pixel) : Pixel :=
  mkPixel (k * red p) (k * green p) (k * blue p) (k * alpha p).

Definition add_pixel (p q : Pixel) : Pixel :=
  mkPixel (red p + red q) (green p + green q) (blue p + blue q)
          (alpha p + alpha q).

(** Porter-Duff compositing of a premultiplied source onto a
    destination pixel. *)
Definition composite (op : CompositeOperation) (src dst : Pixel) : Pixel :=
  match op with
  | SourceOver => add_pixel src (scale_pixel (1 - alpha src) dst)
  | DestinationOut => scale_pixel (1 - alpha src) dst
  end.

(** ** Component state *)

Record History := mkHistory { stack : list ImageData; index : Z }.

Record HistoryControls := mkControls { canUndo : bool; canRedo : bool }.

Record State := mkState {
  (* refs *)
  canvasRef : option Canvas;
  imageRef : option (nat * nat);       (* naturalWidth, naturalHeight *)
  containerRef : option DOMRect;
  isDrawingRef : bool;
  isPanningRef : bool;
  lastPointRef : option Point;
  historyRef : History;
  (* useState *)
  brushSize : Qc;
  isErasing : bool;
  transform : Transform;
  brushShape : BrushShape;
  brushOpacity : Qc;
  historyControls : HistoryControls;
  (* calls of the [onSave] prop, latest first *)
  saved : list DataURL
}.

Definition set_canvasRef (c : option Canvas) (s : State) : State :=
  mkState c (imageRef s) (containerRef s) (isDrawingRef s) (isPanningRef s)
    (lastPointRef s) (historyRef s) (brushSize s) (isErasing s) (transform s)
    (brushShape s) (brushOpacity s) (historyControls s) (saved s).

Definition set_imageRef (i : option (nat * nat)) (s : State) : State :=
  mkState (canvasRef s) i (containerRef s) (isDrawingRef s) (isPanningRef s)
    (lastPointRef s) (historyRef s) (brushSize s) (isErasing s) (transform s)
    (brushShape s) (brushOpacity s) (historyControls s) (saved s).

Definition set_isDrawingRef (b : bool) (s : State) : State :=
  mkState (canvasRef s) (imageRef s) (containerRef s) b (isPanningRef s)
    (lastPointRef s) (historyRef s) (brushSize s) (isErasing s) (transform s)
    (brushShape s) (brushOpacity s) (historyControls s) (saved s).

Definition set_isPanningRef (b : bool) (s : State) : State :=
  mkState (canvasRef s) (imageRef s) (containerRef s) (isDrawingRef s) b
    (lastPointRef s) (historyRef s) (brushSize s) (isErasing s) (transform s)
    (brushShape s) (brushOpacity s) (historyControls s) (saved s).

Definition set_lastPointRef (p : option Point) (s : State) : State :=
  mkState (canvasRef s) (imageRef s) (containerRef s) (isDrawingRef s)
    (isPanningRef s) p (historyRef s) (brushSize s) (isErasing s) (transform s)
    (brushShape s) (brushOpacity s) (historyControls s) (saved s).

Definition set_historyRef (h : History) (s : State) : State :=
  mkState (canvasRef s) (imageRef s) (containerRef s) (isDrawingRef s)
    (isPanningRef s) (lastPointRef s) h (brushSize s) (isErasing s)
    (transform s) (brushShape s) (brushOpacity s) (historyControls s)
    (saved s).

Definition setBrushSize (v : Qc) (s : State) : State :=
  mkState (canvasRef s) (imageRef s) (containerRef s) (isDrawingRef s)
    (isPanningRef s) (lastPointRef s) (historyRef s) v (isErasing s)
    (transform s) (brushShape s) (brushOpacity s) (historyControls s)
    (saved s).

Definition setIsErasing (b : bool) (s : State) : State :=
  mkState (canvasRef s) (imageRef s) (containerRef s) (isDrawingRef s)
    (isPanningRef s) (lastPointRef s) (historyRef s) (brushSize s) b
    (transform s) (brushShape s) (brushOpacity s) (historyControls s)
    (saved s).

Definition setTransform (t : Transform) (s : State) : State :=
  mkState (canvasRef s) (imageRef s) (containerRef s) (isDrawingRef s)
    (isPanningRef s) (lastPointRef s) (historyRef s) (brushSize s)
    (isErasing s) t (brushShape s) (brushOpacity s) (historyControls s)
    (saved s).

Definition setBrushShape (b : BrushShape) (s : State) : State :=
  mkState (canvasRef s) (imageRef s) (containerRef s) (isDrawingRef s)
    (isPanningRef s) (lastPointRef s) (historyRef s) (brushSize s)
    (isErasing s) (transform s) b (brushOpacity s) (historyControls s)
    (saved s).

Definition setBrushOpacity (v : Qc) (s : State) : State :=
  mkState (canvasRef s) (imageRef s) (containerRef s) (isDrawingRef s)
    (isPanningRef s) (lastPointRef s) (historyRef s) (brushSize s)
    (isErasing s) (transform s) (brushShape s) v (historyControls s)
    (saved s).

Definition setHistoryControls (h : HistoryControls) (s : State) : State :=
  mkState (canvasRef s) (imageRef s) (containerRef s) (isDrawingRef s)
    (isPanningRef s) (lastPointRef s) (historyRef s) (brushSize s)
    (isErasing s) (transform s) (brushShape s) (brushOpacity s) h (saved s).

Definition onSave (u : DataURL) (s : State) : State :=
  mkState (canvasRef s) (imageRef s) (containerRef s) (isDrawingRef s)
    (isPanningRef s) (lastPointRef s) (historyRef s) (brushSize s)
    (isErasing s) (transform s) (brushShape s) (brushOpacity s)
    (historyControls s) (u :: saved s).

(** A handler either returns or throws; both leave a state behind,
    because the writes made before a throw stay. *)
Inductive Completion :=
  | Normal (s : State)
  | Throw (s : State).

Definition state_of (c : Completion) : State :=
  match c with Normal s | Throw s => s end.

Definition and_then (c : Completion) (k : State -> Completion) : Completion :=
  match c with Normal s => k s | Throw s => Throw s end.

Notation "c >>= k" := (and_then c k) (at level 60, right associativity).

(** ** History (lines 35-60) *)

(** [stack.slice(0, e)] for an integer [e]: a negative end counts from
    the end of the array. *)
Definition slice0 {A} (l : list A) (e : Z) : list A :=
  if (e <? 0)%Z then take (Z.to_nat (Z.of_nat (length l) + e)) l
  else take (Z.to_nat e) l.

Definition updateHistoryControls (s : State) : State :=
  let h := historyRef s in
  setHistoryControls
    (mkControls (0 <? index h)%Z
                (index h <? Z.of_nat (length (stack h)) - 1)%Z) s.

Definition saveHistory (s : State) : Completion :=
  match canvasRef s with
  | None => Normal s
  | Some c =>
    if negb (context2d c) then Normal s
    else match getImageData c with
         | None => Throw s
         | Some imageData =>
           let h := historyRef s in
           (* If we have undone, we need to remove the future states *)
           let newStack := slice0 (stack h) (index h + 1) ++ [imageData] in
           Normal (updateHistoryControls
                     (set_historyRef
                        (mkHistory newStack
                           (Z.of_nat (length newStack) - 1)) s))
         end
  end.

(** ** Viewport (lines 62-79, 108-114, 178-194, 227-232) *)

Definition resetView (s : State) : State :=
  match containerRef s, imageRef s with
  | Some rect, Some (naturalWidth, naturalHeight) =>
    if (naturalWidth =? 0)%nat || (naturalHeight =? 0)%nat then s
    else
      let containerWidth := rect_width rect in
      let containerHeight := rect_height rect in
      let scaleX := containerWidth / Qc_of_nat naturalWidth in
      let scaleY := containerHeight / Qc_of_nat naturalHeight in
      (* Don't scale up initially *)
      let initialScale := Qcmin (Qcmin scaleX scaleY) 1 in
      setTransform
        (mkTransform initialScale
           ((containerWidth - Qc_of_nat naturalWidth * initialScale) / 2)
           ((containerHeight - Qc_of_nat naturalHeight * initialScale) / 2))
        s
  | _, _ => s
  end.

Definition getTransformedPoint (s : State) (cx cy : Qc) : option Point :=
  match containerRef s with
  | None => None
  | Some rect =>
    let t := transform s in
    Some (mkPoint ((cx - rect_left rect - offsetX t) / scale t)
                  ((cy - rect_top rect - offsetY t) / scale t))
  end.

Definition zoomFactor : Qc := Q2Qc (11 # 10).

(** The scale a wheel event asks for. *)
Definition requestedScale (t : Transform) (e : WheelEvent) : Qc :=
  if Qcltb (deltaY e) 0 then scale t * zoomFactor else scale t / zoomFactor.

Definition handleWheel (s : State) (e : WheelEvent) : Completion :=
  let t := transform s in
  let newScale := requestedScale t e in
  if Qcltb newScale MIN_SCALE || Qcltb MAX_SCALE newScale then Normal s
  else match containerRef s with
       | None => Throw s     (* [containerRef.current!] is null *)
       | Some rect =>
         let mouseX := wheelX e - rect_left rect in
         let mouseY := wheelY e - rect_top rect in
         let newOffsetX :=
           mouseX - (mouseX - offsetX t) * (newScale / scale t) in
         let newOffsetY :=
           mouseY - (mouseY - offsetY t) * (newScale / scale t) in
         Normal (setTransform (mkTransform newScale newOffsetX newOffsetY) s)
       end.

Inductive ZoomDirection := zoom_in | zoom_out.

Definition handleZoom (direction : ZoomDirection) (s : State) : Completion :=
  match containerRef s with
  | None => Normal s
  | Some rect =>
    handleWheel s
      (mkWheel (rect_width rect / 2) (rect_height rect / 2)
         (match direction with
          | zoom_in => - Qc_of_Z 100
          | zoom_out => Qc_of_Z 100
          end))
  end.

(** ** Undo, redo, clear, save (lines 234-275) *)

(** The canvas part of undo and redo: clear, then put [stack[newIndex]];
    [putImageData(undefined, ...)] raises [TypeError] after the clear. *)
Definition restoreEntry (h : History) (newIndex : Z) (s : State) : Completion :=
  match canvasRef s with
  | Some c =>
    if context2d c then
      match stack h !! Z.to_nat newIndex with
      | Some img =>
        Normal (set_canvasRef (Some (putImageData img (clearRect c))) s)
      | None => Throw (set_canvasRef (Some (clearRect c)) s)
      end
    else Normal s
  | None => Normal s
  end.

Definition handleUndo (s : State) : Completion :=
  let h := historyRef s in
  if (0 <? index h)%Z then
    let newIndex := (index h - 1)%Z in
    restoreEntry h newIndex s >>= fun s1 =>
    Normal (updateHistoryControls
              (set_historyRef (mkHistory (stack h) newIndex) s1))
  else Normal s.

Definition handleRedo (s : State) : Completion :=
  let h := historyRef s in
  if (index h <? Z.of_nat (length (stack h)) - 1)%Z then
    let newIndex := (index h + 1)%Z in
    restoreEntry h newIndex s >>= fun s1 =>
    Normal (updateHistoryControls
              (set_historyRef (mkHistory (stack h) newIndex) s1))
  else Normal s.

Definition handleClear (s : State) : Completion :=
  match canvasRef s with
  | Some c =>
    if context2d c then saveHistory (set_canvasRef (Some (clearRect c)) s)
    else Normal s
  | None => Normal s
  end.

Definition handleSave (s : State) : State :=
  match canvasRef s with
  | Some c => onSave (toDataURL c) s
  | None => s
  end.

(** ** Keyboard (lines 196-216) *)

Definition handleKeyDown (s : State) (e : KeyboardEvent) : Completion :=
  if String.eqb (key e) " " && negb (isPanningRef s) then
    Normal (set_isPanningRef true s)
  else if (ctrlKey e || metaKey e) && String.eqb (key e) "z" then
    handleUndo s
  else if (ctrlKey e || metaKey e) && String.eqb (key e) "y" then
    handleRedo s
  else Normal s.

Definition handleKeyUp (s : State) (e : KeyboardEvent) : State :=
  if String.eqb (key e) " " then
    set_lastPointRef None (set_isPanningRef false s)
  else s.

(** ** Image load (lines 81-102)

    [W] and [H] are the natural dimensions of the decoded image.  The
    [<img>] element is given the same source and reports the same
    natural dimensions. *)
Definition onload (W H : nat) (s : State) : Completion :=
  let s1 := match imageRef s with
            | Some _ => set_imageRef (Some (W, H)) s
            | None => s
            end in
  (match canvasRef s1 with
   | Some canvas =>
     let canvas' := set_height H (set_width W canvas) in
     let s2 := set_canvasRef (Some canvas') s1 in
     if context2d canvas' then
       (* Clear history and save the initial blank state *)
       match getImageData canvas' with
       | None => Throw s2
       | Some initialImageData =>
         Normal (updateHistoryControls
                   (set_historyRef (mkHistory [initialImageData] 0) s2))
       end
     else Normal s2
   | None => Normal s1
   end) >>= fun s3 => Normal (resetView s3).

(** ** Brush and pointer handlers (lines 116-176) *)

Section Rasterizer.

(** The browser's stroke rasteriser: for a line join, a line cap, a line
    width and the two end points of the path, the fraction of the pixel
    at column [x], row [y] that the stroke covers. *)
Variable stroke_coverage :
  LineJoin -> LineCap -> Qc -> Point -> Point -> nat -> nat -> Qc.

(** [beginPath(); moveTo(p1); lineTo(p2); stroke()] under the given
    context settings. *)
Definition stroke (join : LineJoin) (cap : LineCap) (lineWidth : Qc)
    (op : CompositeOperation) (strokeStyle : Pixel) (p1 p2 : Point)
    (c : Canvas) : Canvas :=
  let w := canvas_width c in
  with_bitmap
    (imap (fun i dst =>
       let cov :=
         stroke_coverage join cap lineWidth p1 p2
           (i `mod` w)%nat (i `div` w)%nat in
       composite op (scale_pixel cov strokeStyle) dst) (bitmap c)) c.

Definition drawLine (s : State) (x1 y1 x2 y2 : Qc) : State :=
  match canvasRef s with
  | Some c =>
    if context2d c then
      let lineJoin :=
        parse_lineJoin
          (match brushShape s with circle => "round" | square => "square" end) in
      let lineCap :=
        parse_lineCap
          (match brushShape s with circle => "round" | square => "square" end) in
      let lineWidth := set_lineWidth (brushSize s / scale (transform s)) in
      let globalCompositeOperation :=
        if isErasing s then DestinationOut else SourceOver in
      (* For eraser, we need full opacity to 'cut out' the mask.
         For drawing, we use the user-defined opacity. *)
      let strokeStyle :=
        if isErasing s then rgba 0 0 0 1
        else rgba 236 72 153 (brushOpacity s) in
      set_canvasRef
        (Some (stroke lineJoin lineCap lineWidth globalCompositeOperation
                 strokeStyle (mkPoint x1 y1) (mkPoint x2 y2) c)) s
    else s
  | None => s
  end.

Definition handlePointerDown (s : State) (e : PointerEvent) : State :=
  if negb (button e =? 0)%Z then s
  else if isPanningRef s then
    set_lastPointRef (Some (mkPoint (clientX e) (clientY e))) s
  else
    let s1 := set_isDrawingRef true s in
    match getTransformedPoint s1 (clientX e) (clientY e) with
    | Some point =>
      drawLine (set_lastPointRef (Some point) s1)
        (px point) (py point) (px point) (py point)
    | None => s1
    end.

Definition handlePointerMove (s : State) (e : PointerEvent) : State :=
  match isPanningRef s, lastPointRef s with
  | true, Some last =>
    let dx := clientX e - px last in
    let dy := clientY e - py last in
    let t := transform s in
    set_lastPointRef (Some (mkPoint (clientX e) (clientY e)))
      (setTransform (mkTransform (scale t) (offsetX t + dx) (offsetY t + dy)) s)
  | _, _ =>
    if isDrawingRef s then
      match lastPointRef s, getTransformedPoint s (clientX e) (clientY e) with
      | Some last, Some currentPoint =>
        set_lastPointRef (Some currentPoint)
          (drawLine s (px last) (py last) (px currentPoint) (py currentPoint))
      | _, _ => s
      end
    else s
  end.

Definition handlePointerUp (s : State) : Completion :=
  (if isDrawingRef s then saveHistory s else Normal s) >>= fun s1 =>
  Normal (set_lastPointRef None (set_isDrawingRef false s1)).

(** ** The component as an event-driven machine *)

Inductive Event :=
  | PointerDown (e : PointerEvent)
  | PointerMove (e : PointerEvent)
  | PointerUp
  | PointerLeave
  | Wheel (e : WheelEvent)
  | KeyDown (e : KeyboardEvent)
  | KeyUp (e : KeyboardEvent)
  | WindowResize
  | ImageLoad (W H : nat)
  | ClickZoom (d : ZoomDirection)
  | ClickResetView
  | ClickUndo
  | ClickRedo
  | ClickDraw
  | ClickErase
  | ClickShape (b : BrushShape)
  | ChangeSize (v : Qc)
  | ChangeOpacity (v : Qc)
  | ClickClear
  | ClickSave.

Definition dispatch (s : State) (ev : Event) : Completion :=
  match ev with
  | PointerDown e => Normal (handlePointerDown s e)
  | PointerMove e => Normal (handlePointerMove s e)
  | PointerUp | PointerLeave => handlePointerUp s
  | Wheel e => handleWheel s e
  | KeyDown e => handleKeyDown s e
  | KeyUp e => Normal (handleKeyUp s e)
  | WindowResize | ClickResetView => Normal (resetView s)
  | ImageLoad W H => onload W H s
  | ClickZoom d => handleZoom d s
  | ClickUndo => handleUndo s
  | ClickRedo => handleRedo s
  | ClickDraw => Normal (setIsErasing false s)
  | ClickErase => Normal (setIsErasing true s)
  | ClickShape b => Normal (setBrushShape b s)
  | ChangeSize v => Normal (setBrushSize v s)
  | ChangeOpacity v => Normal (setBrushOpacity v s)
  | ClickClear => handleClear s
  | ClickSave => Normal (handleSave s)
  end.

(** An exception that escapes a handler ends that handler only; the
    next event is delivered to the state it left. *)
Definition step (s : State) (ev : Event) : State := state_of (dispatch s ev).

Definition run (s : State) (evs : list Event) : State := foldl step s evs.

End Rasterizer.

(** The component as first mounted: the refs point at their elements,
    the canvas has the default size of a canvas element, 300 by 150,
    and every [useRef] and [useState] holds its initial value. *)
Definition default_canvas : Canvas :=
  mkCanvas 300 150 (replicate (300 * 150) transparent) true.

Definition mounted (container : DOMRect) : State :=
  mkState (Some default_canvas) (Some (0, 0)%nat) (Some container)
    false false None (mkHistory [] (-1))
    (Qc_of_Z 40) false (mkTransform 1 0 0) circle (Q2Qc (1 # 2))
    (mkControls false false) [].

(** ** Vocabulary of the statements *)

(** The clamp of the specification. *)
Definition clamp (v lo hi : Qc) : Qc :=
  if Qcltb v lo then lo else if Qcltb hi v then hi else v.

(** The factor a wheel event stands for: [1.1] to zoom in, [1 / 1.1] to
    zoom out. *)
Definition wheelFactor (e : WheelEvent) : Qc :=
  if Qcltb (deltaY e) 0 then zoomFactor else / zoomFactor.

(** The guard of [handleWheel] (line 184). *)
Definition zoomRejected (t : Transform) (e : WheelEvent) : bool :=
  Qcltb (requestedScale t e) MIN_SCALE || Qcltb MAX_SCALE (requestedScale t e).


(** The history controls shown to the host agree with the history. *)
Definition in_sync (s : State) : Prop :=
  canUndo (historyControls s) = (0 <? index (historyRef s))%Z /\
  canRedo (historyControls s) =
    (index (historyRef s) <? Z.of_nat (length (stack (historyRef s))) - 1)%Z.

(** The live mask bitmap. *)
Definition pixels (s : State) : list Pixel :=
  match canvasRef s with Some c => bitmap c | None => [] end.

(** The coverage of pixel [i] by the stroke that [drawLine] issues in
    state [s] on canvas [c]. *)
Definition brushCoverage
    (stroke_coverage :
       LineJoin -> LineCap -> Qc -> Point -> Point -> nat -> nat -> Qc)
    (s : State) (c : Canvas) (p1 p2 : Point) (i : nat) : Qc :=
  stroke_coverage
    (parse_lineJoin
       (match brushShape s with circle => "round" | square => "square" end))
    (parse_lineCap
       (match brushShape s with circle => "round" | square => "square" end))
    (set_lineWidth (brushSize s / scale (transform s))) p1 p2
    (i `mod` canvas_width c)%nat (i `div` canvas_width c)%nat.

(** The snapshot [getImageData] takes of a canvas. *)
Definition snapshot (c : Canvas) : ImageData :=
  mkImageData (canvas_width c) (canvas_height c) (bitmap c).

(** The blank mask of a [W] by [H] image. *)
Definition blank (W H : nat) : ImageData :=
  mkImageData W H (replicate (W * H) transparent).

(** [undo()] called [n] times in a row. *)
Fixpoint undo_times (n : nat) (s : State) : Completion :=
  match n with
  | O => Normal s
  | S n' => handleUndo s >>= undo_times n'
  end.

(** *** Gestures

    Events that neither start nor end a gesture and never touch the
    history: pointer moves, zooming, resetting the view, brush settings
    and saving. *)
Definition passive (ev : Event) : bool :=
  match ev with
  | PointerMove _ | Wheel _ | WindowResize | ClickZoom _ | ClickResetView
  | ClickDraw | ClickErase | ClickShape _ | ChangeSize _ | ChangeOpacity _
  | ClickSave => true
  | _ => false
  end.

Inductive StrokeEnd := EndUp | EndLeave.

Definition stroke_end (fin : StrokeEnd) : Event :=
  match fin with EndUp => PointerUp | EndLeave => PointerLeave end.

(** A committed draw gesture is a primary-button pointer-down, any
    passive events (the moves of the stroke, zooming while drawing), and
    the pointer-up or pointer-leave that ends it.  A committed clear
    gesture is a click on Clear.  [Between] is a passive event outside of
    any gesture. *)
Inductive Gesture :=
  | Draw (down : PointerEvent) (during : list Event) (fin : StrokeEnd)
  | Clear
  | Between (ev : Event).

Definition well_formed (g : Gesture) : bool :=
  match g with
  | Draw down during _ => (button down =? 0)%Z && forallb passive during
  | Clear => true
  | Between ev => passive ev
  end.

Definition events (g : Gesture) : list Event :=
  match g with
  | Draw down during fin =>
    PointerDown down :: during ++ [stroke_end fin]
  | Clear => [ClickClear]
  | Between ev => [ev]
  end.

Definition commits (g : Gesture) : bool :=
  match g with Between _ => false | _ => true end.

Fixpoint committed (gs : list Gesture) : nat :=
  match gs with
  | [] => 0
  | g :: gs' => ((if commits g then 1 else 0) + committed gs')%nat
  end.

(** The events of a list of gestures, in order. *)
Fixpoint script (gs : list Gesture) : list Event :=
  match gs with
  | [] => []
  | g :: gs' => events g ++ script gs'
  end.

(** *** Shapes *)

Definition shaped (W H : nat) (c : Canvas) : Prop :=
  context2d c = true /\ canvas_width c = W /\ canvas_height c = H /\
  length (bitmap c) = (W * H)%nat.

Definition entry_ok (W H : nat) (img : ImageData) : Prop :=
  image_width img = W /\ image_height img = H /\
  length (data img) = (W * H)%nat.

(** A loaded editor: the canvas has the image's size, every history
    entry is a snapshot of that size and the cursor is inside the
    stack. *)
Definition loaded (W H : nat) (s : State) : Prop :=
  (exists c, canvasRef s = Some c /\ shaped W H c) /\
  Forall (entry_ok W H) (stack (historyRef s)) /\
  (0 <= index (historyRef s) < Z.of_nat (length (stack (historyRef s))))%Z.

(** The live bitmap is the snapshot under the cursor. *)
Definition clean (s : State) : Prop :=
  exists img, stack (historyRef s) !! Z.to_nat (index (historyRef s)) = Some img
              /\ data img = pixels s.

(** No gesture is in progress and the cursor is on the last entry. *)
Definition at_rest (s : State) : Prop :=
  isDrawingRef s = false /\ isPanningRef s = false /\
  index (historyRef s) = (Z.of_nat (length (stack (historyRef s))) - 1)%Z.

(** [s'] differs from [s] at most in the view, the brush, the anchor
    point, the drawing flag and the colour of the canvas pixels. *)
Definition same_shape (c c' : Canvas) : Prop :=
  context2d c' = context2d c /\ canvas_width c' = canvas_width c /\
  canvas_height c' = canvas_height c /\
  length (bitmap c') = length (bitmap c).

Definition frame (s s' : State) : Prop :=
  historyRef s' = historyRef s /\
  historyControls s' = historyControls s /\
  isPanningRef s' = isPanningRef s /\
  match canvasRef s, canvasRef s' with
  | Some c, Some c' => same_shape c c'
  | None, None => True
  | _, _ => False
  end.

(** Between gestures. *)
Definition settled (W H : nat) (s : State) : Prop :=
  loaded W H s /\ clean s /\ at_rest s.

Definition is_load (ev : Event) : bool :=
  match ev with ImageLoad _ _ => true | _ => false end.

Definition shape_kept (s s' : State) : Prop :=
  match canvasRef s, canvasRef s' with
  | Some c, Some c' => same_shape c c'
  | None, None => True
  | _, _ => False
  end.

(** Whether a key event is the undo or the redo shortcut. *)
Definition is_undo_shortcut (e : KeyboardEvent) : bool :=
  (ctrlKey e || metaKey e) && String.eqb (key e) "z".

Definition is_redo_shortcut (e : KeyboardEvent) : bool :=
  (ctrlKey e || metaKey e) && String.eqb (key e) "y".

(** ** Concrete inputs for the examples *)

(** A rasteriser for the examples: a stroke covers exactly the pixels
    that hold one of its two end points. *)
Definition endpoint_coverage
    (_ : LineJoin) (_ : LineCap) (_ : Qc) (p1 p2 : Point) (x y : nat) : Qc :=
  let holds (p : Point) :=
    (Qfloor (px p) =? Z.of_nat x)%Z && (Qfloor (py p) =? Z.of_nat y)%Z in
  if holds p1 || holds p2 then 1 else 0.

Definition container0 : DOMRect :=
  mkRect 0 0 (Qc_of_Z 400) (Qc_of_Z 400).

Definition primary (x y : Z) : PointerEvent :=
  mkPointer 0 (Qc_of_Z x) (Qc_of_Z y).

Definition ctrl_z : KeyboardEvent := mkKey "z" true false.
Definition ctrl_y : KeyboardEvent := mkKey "y" true false.
Definition space : KeyboardEvent := mkKey " " false false.

(** A 2 by 2 image loaded into the mounted component; the view then has
    scale [1] and offset [(199, 199)]. *)
Definition editing : State :=
  run endpoint_coverage (mounted container0) [ImageLoad 2 2].

(** One committed dot, then a second stroke in progress. *)
Definition mid_stroke : State :=
  run endpoint_coverage editing
    [PointerDown (primary 199 199); PointerUp; PointerDown (primary 200 200)].

(** One committed dot, then a pan in progress. *)
Definition mid_pan : State :=
  run endpoint_coverage editing
    [PointerDown (primary 199 199); PointerUp; KeyDown space;
     PointerDown (primary 200 200)].

(** The first stroke in progress. *)
Definition first_stroke : State :=
  run endpoint_coverage editing [PointerDown (primary 199 199)].

(** A view zoomed in to 480%. *)
Definition zoomed_in : State :=
  setTransform (mkTransform (Q2Qc (24 # 5)) 0 0) (mounted container0).

Definition wheel_in : WheelEvent := mkWheel (Qc_of_Z 10) (Qc_of_Z 10) (- 1).
Definition wheel_out : WheelEvent := mkWheel (Qc_of_Z 10) (Qc_of_Z 10) 1.

(** The opacity of each pixel of the live mask, as plain fractions. *)
Definition alphas (s : State) : list Q :=
  map (fun p => this (alpha p)) (pixels s).

Definition gestures0 : list Gesture :=
  [Draw (primary 199 199) [PointerMove (primary 200 200)] EndUp;
   Between (Wheel wheel_in);
   Clear;
   Draw (primary 200 199) [] EndLeave].

(** ** More vocabulary *)


(** Events that do not reset the view. *)
Definition keeps_view (ev : Event) : bool :=
  match ev with
  | WindowResize | ClickResetView | ImageLoad _ _ => false
  | _ => true
  end.

Definition scale_in_bounds (s : State) : Prop :=
  MIN_SCALE <= scale (transform s) <= MAX_SCALE.

(** The ways a history can change in one event. *)
Inductive history_move (h : History) : History -> Prop :=
  | move_none : history_move h h
  | move_push (img : ImageData) :
      history_move h
        (mkHistory (slice0 (stack h) (index h + 1) ++ [img])
           (Z.of_nat (length (slice0 (stack h) (index h + 1) ++ [img])) - 1))
  | move_undo :
      (0 < index h)%Z ->
      history_move h (mkHistory (stack h) (index h - 1))
  | move_redo :
      (index h < Z.of_nat (length (stack h)) - 1)%Z ->
      history_move h (mkHistory (stack h) (index h + 1))
  | move_reset (img : ImageData) :
      history_move h (mkHistory [img] 0).

(** The cursor is [-1] on an empty stack and inside the stack
    otherwise. *)
Definition cursor_ok (h : History) : Prop :=
  (stack h = [] /\ index h = (-1)%Z) \/
  (0 <= index h < Z.of_nat (length (stack h)))%Z.

(** Running events one after the other, stopping at the first handler
    that throws. *)
Fixpoint run_checked
    (cov : LineJoin -> LineCap -> Qc -> Point -> Point -> nat -> nat -> Qc)
    (s : State) (evs : list Event) : Completion :=
  match evs with
  | [] => Normal s
  | ev :: evs' => dispatch cov s ev >>= fun s' => run_checked cov s' evs'
  end.

(** A load of an image with a zero width or height. *)
Definition empty_load (ev : Event) : bool :=
  match ev with
  | ImageLoad W H => (W =? 0)%nat || (H =? 0)%nat
  | _ => false
  end.

(** The editor can take a snapshot and find its container. *)
Definition operable (s : State) : Prop :=
  containerRef s <> None /\
  (exists c, canvasRef s = Some c /\
             canvas_width c <> 0%nat /\ canvas_height c <> 0%nat) /\
  cursor_ok (historyRef s).

(** ** The host: edited-image history of [src/App.tsx] (lines 166-171,
    343-367, 486-496)

    The app that mounts the mask editor keeps the results of its edits
    in a history of its own: each entry is the list of data URLs that
    one edit produced. *)

Module App.

Record EditHistory := mkEditHistory {
  past : list (list string);
  present : list string;
  future : list (list string)
}.

Definition empty : EditHistory := mkEditHistory [] [] [].

(** [current.past[current.past.length - 1]] is read only when [past]
    is not empty, so the read always finds an entry. *)
Definition handleUndo (current : EditHistory) : EditHistory :=
  if (length (past current) =? 0)%nat then current
  else
    let newPast :=
      slice0 (past current) (Z.of_nat (length (past current)) - 1) in
    match past current !! (length (past current) - 1)%nat with
    | Some previous =>
      mkEditHistory newPast previous (present current :: future current)
    | None => current
    end.

Definition handleRedo (current : EditHistory) : EditHistory :=
  if (length (future current) =? 0)%nat then current
  else
    let newFuture := drop 1 (future current) in
    match future current !! 0%nat with
    | Some next =>
      mkEditHistory (past current ++ [present current]) next newFuture
    | None => current
    end.

(** The update [handleSubmit] makes once the edits have settled. *)
Definition commitEdits (successfulEdits : list string) (h : EditHistory)
  : EditHistory :=
  if (0 <? length successfulEdits)%nat then
    let newPast :=
      if (0 <? length (present h))%nat then past h ++ [present h]
      else past h in
    mkEditHistory newPast successfulEdits []
  else h.

Definition canUndo (h : EditHistory) : bool := (0 <? length (past h))%nat.
Definition canRedo (h : EditHistory) : bool := (0 <? length (future h))%nat.

(** Every result the history holds, oldest first. *)
Definition timeline (h : EditHistory) : list (list string) :=
  past h ++ present h :: future h.

(** No entry but the initial [present] is an empty list of images. *)
Definition filled (h : EditHistory) : Prop :=
  Forall (fun imgs => imgs <> []) (past h) /\
  Forall (fun imgs => imgs <> []) (future h) /\
  (present h = [] -> past h = [] /\ future h = []).

Inductive Action :=
  | Undo
  | Redo
  | Commit (successfulEdits : list string).

Definition act (h : EditHistory) (a : Action) : EditHistory :=
  match a with
  | Undo => handleUndo h
  | Redo => handleRedo h
  | Commit edits => commitEdits edits h
  end.

End App.

(** ** More concrete inputs *)


(** A 4000 by 1 image in the 400 by 400 container: fitted at 10%. *)
Definition wide_image : State :=
  run endpoint_coverage (mounted container0) [ImageLoad 4000 1].

(** One committed dot on the 2 by 2 editor. *)
Definition one_dot : State :=
  run endpoint_coverage editing (script [Draw (primary 199 199) [] EndUp]).

(** The dot taken back: two entries, the cursor on the first. *)
Definition after_undo : State := run endpoint_coverage one_dot [ClickUndo].

Definition session0 : list Event :=
  [PointerDown (primary 10 10); PointerMove (primary 20 20); PointerUp;
   KeyDown ctrl_z; KeyDown ctrl_y; KeyDown ctrl_y; ImageLoad 2 2;
   Wheel wheel_in; ClickZoom zoom_out; KeyDown space;
   PointerDown (primary 199 199); PointerMove (primary 180 180); PointerUp;
   KeyUp space; ClickClear; ClickUndo; ClickUndo; ClickRedo; ClickSave;
   WindowResize].

(** ** Number arithmetic (IEEE-754 doubles)

    A JavaScript number is an IEEE-754 binary64 value: a literal and
    the result of each arithmetic operation are the exact value rounded
    to the nearest number with a 53-bit significand, a tie going to the
    even significand.  [fl53] is that rounding on rationals.  Its
    exponent is not bounded: [fl53 x] is the double that JavaScript
    gets whenever that double is a normal number or [x] is zero;
    subnormal results (below 2^-1022 in magnitude) and the overflow to
    an infinity (from 2^1024 on) are not modelled, nor is NaN.

    The handlers above compute with exact rationals.  The zoom handler
    and [getTransformedPoint] are given a second time here, with the
    rounding of each literal and each operation a parameter:
    [unrounded] gives back [handleWheel], [binary64] rounds as the code
    does.  A division by zero, an infinity or NaN in JavaScript and
    [0] here, does not occur behind the guard of line 184, which
    only a positive scale passes. *)

Definition precision : Z := 53.

(** [n / d], for [0 <= n] and [0 < d], to the nearest integer, a tie
    to the even one. *)
Definition nearest_even (n d : Z) : Z :=
  let m := (n / d)%Z in
  match (2 * (n mod d) ?= d)%Z with
  | Lt => m
  | Gt => (m + 1)%Z
  | Eq => if Z.even m then m else (m + 1)%Z
  end.

(** The fraction [n / (d * 2 ^ e)] as a pair of integers. *)
Definition shifted (e n d : Z) : Z * Z :=
  if (0 <=? e)%Z then (n, (d * 2 ^ e)%Z) else ((n * 2 ^ (- e))%Z, d).

(** The exponent [e] with [2 ^ 52 <= n / d / 2 ^ e < 2 ^ 53]. *)
Definition exponent (n d : Z) : Z :=
  let e := (Z.log2 n - Z.log2 d - precision)%Z in
  let '(n', d') := shifted e n d in
  if (n' / d' <? 2 ^ precision)%Z then e else (e + 1)%Z.

Definition pow2 (e : Z) : Q :=
  if (0 <=? e)%Z then inject_Z (2 ^ e) else 1 # Z.to_pos (2 ^ (- e)).

(** [n / d], for positive [n] and [d], rounded to a 53-bit
    significand. *)
Definition round_pos (n d : Z) : Q :=
  let e := exponent n d in
  let '(n', d') := shifted e n d in
  (inject_Z (nearest_even n' d') * pow2 e)%Q.

Definition fl53 (x : Qc) : Qc :=
  match Qnum x with
  | Z0 => 0
  | Zpos n => Q2Qc (round_pos (Zpos n) (Zpos (Qden x)))
  | Zneg n => - Q2Qc (round_pos (Zpos n) (Zpos (Qden x)))
  end.

(** The two roundings: none, and that of the doubles. *)
Definition unrounded (x : Qc) : Qc := x.

Definition binary64 (x : Qc) : Qc := fl53 x.

Section Numbers.

Variable rnd : Qc -> Qc.

Definition num_mul (x y : Qc) : Qc := rnd (x * y).
Definition num_div (x y : Qc) : Qc := rnd (x / y).
Definition num_sub (x y : Qc) : Qc := rnd (x - y).

(** *** handleWheel (lines 178-194) *)

(** The literal [1.1] of line 181. *)
Definition zoomFactorIn : Qc := rnd (Q2Qc (11 # 10)).

(** Line 182. *)
Definition requestedScaleIn (t : Transform) (e : WheelEvent) : Qc :=
  if Qcltb (deltaY e) 0 then num_mul (scale t) zoomFactorIn
  else num_div (scale t) zoomFactorIn.

(** The guard of line 184; [MIN_SCALE] and [MAX_SCALE] are the
    literals [0.2] and [5] of lines 9 and 10. *)
Definition zoomRejectedIn (t : Transform) (e : WheelEvent) : bool :=
  Qcltb (requestedScaleIn t e) (rnd MIN_SCALE)
  || Qcltb (rnd MAX_SCALE) (requestedScaleIn t e).

(** One coordinate of the new offset (lines 190-191):
    [mouse - (mouse - offset) * (newScale / oldScale)]. *)
Definition anchoredOffsetIn (mouse offset newScale oldScale : Qc) : Qc :=
  num_sub mouse (num_mul (num_sub mouse offset) (num_div newScale oldScale)).

Definition handleWheelIn (s : State) (e : WheelEvent) : Completion :=
  let t := transform s in
  let newScale := requestedScaleIn t e in
  if zoomRejectedIn t e then Normal s
  else match containerRef s with
       | None => Throw s     (* [containerRef.current!] is null *)
       | Some rect =>
         let mouseX := num_sub (wheelX e) (rect_left rect) in
         let mouseY := num_sub (wheelY e) (rect_top rect) in
         let newOffsetX :=
           anchoredOffsetIn mouseX (offsetX t) newScale (scale t) in
         let newOffsetY :=
           anchoredOffsetIn mouseY (offsetY t) newScale (scale t) in
         Normal (setTransform (mkTransform newScale newOffsetX newOffsetY) s)
       end.

(** *** getTransformedPoint (lines 108-114) *)

(** One coordinate: [(client - origin - offset) / scale]. *)
Definition canvasCoordIn (client origin offset scale : Qc) : Qc :=
  num_div (num_sub (num_sub client origin) offset) scale.

Definition getTransformedPointIn (s : State) (cx cy : Qc) : option Point :=
  match containerRef s with
  | None => None
  | Some rect =>
    let t := transform s in
    Some (mkPoint (canvasCoordIn cx (rect_left rect) (offsetX t) (scale t))
                  (canvasCoordIn cy (rect_top rect) (offsetY t) (scale t)))
  end.

End Numbers.

(** *** Rounding errors *)

(** Half a unit in the last place of 1, [2^-53]: the relative error of
    one rounding is at most [unit_roundoff]. *)
Definition ulp_half : Q := 1 # (2 ^ 53).

Definition unit_roundoff : Qc := Q2Qc ulp_half.

(** [y] is [x] up to [tol]. *)
Definition within (tol y x : Qc) : Prop := Qcabs.Qcabs (y - x) <= tol.

(** A rounding whose relative error is at most [unit_roundoff]. *)
Definition rounds (rnd : Qc -> Qc) : Prop :=
  forall x, within (unit_roundoff * Qcabs.Qcabs x) (rnd x) x.

(** The same on plain fractions: [y] is [x] rounded. *)
Definition rounded (y x : Q) : Prop :=
  (Qabs.Qabs (y - x) <= ulp_half * Qabs.Qabs x)%Q.

(** The tolerances of a zoom and the zoom back: [3 * 2^-53] of the
    scale, and [2^-49] of the size of the coordinates involved. *)
Definition scale_tolerance : Qc := Q2Qc (3 # 1) * unit_roundoff.

Definition offset_tolerance : Qc := Q2Qc (16 # 1) * unit_roundoff.

(** *** Concrete inputs *)

(** A view fitted at 22%: the scale is the double nearest to [0.22]. *)
Definition fitted_22 : State :=
  setTransform (mkTransform (binary64 (Q2Qc (22 # 100))) 0 0)
    (mounted container0).

(** Wheel events near the far corner of the container. *)
Definition wheel_in_corner : WheelEvent :=
  mkWheel (Qc_of_Z 399) (Qc_of_Z 399) (- 1).

Definition wheel_out_corner : WheelEvent :=
  mkWheel (Qc_of_Z 399) (Qc_of_Z 399) 1.
(** * Properties *)

(** ** Rational comparisons *)

Lemma Qcltb_lt (p q : Qc) : Qcltb p q = true <-> p < q.
Proof.
  unfold Qcltb, Qclt, Qlt, Qccompare, Qcompare.
  destruct (Z.compare_spec (Qnum p * QDen q) (Qnum q * QDen p));
    split; intros; (discriminate || lia || reflexivity).
Qed.

Lemma Qcltb_ge (p q : Qc) : Qcltb p q = false <-> q <= p.
Proof.
  rewrite Qcle_ngt, <- Qcltb_lt. destruct (Qcltb p q); split; congruence.
Qed.

Lemma zoomFactor_neq_0 : zoomFactor <> 0.
Proof. intros H. apply (f_equal this) in H. discriminate H. Qed.

(** ** Rounding *)

Lemma nearest_even_error (n d : Z) :
  (0 < d)%Z ->
  (- d <= 2 * (nearest_even n d * d - n) <= d)%Z.
Proof.
  intros Hd. unfold nearest_even.
  pose proof (Z.div_mod n d ltac:(lia)) as Hn.
  pose proof (Z.mod_pos_bound n d Hd) as Hr.
  destruct (Z.compare_spec (2 * (n mod d)) d);
    [destruct (Z.even (n / d))|..]; nia.
Qed.

Lemma shifted_pos (e n d : Z) :
  (0 < n)%Z -> (0 < d)%Z ->
  (0 < fst (shifted e n d))%Z /\ (0 < snd (shifted e n d))%Z.
Proof.
  intros Hn Hd. unfold shifted. destruct (Z.leb_spec 0 e); simpl.
  - split; [lia|]. apply Z.mul_pos_pos; [lia|]. apply Z.pow_pos_nonneg; lia.
  - split; [|lia]. apply Z.mul_pos_pos; [lia|]. apply Z.pow_pos_nonneg; lia.
Qed.

Lemma exponent_normal (n d : Z) :
  (0 < n)%Z -> (0 < d)%Z ->
  let e := exponent n d in
  (2 ^ 52 * snd (shifted e n d) <= fst (shifted e n d))%Z.
Proof.
  intros Hn Hd. unfold exponent, precision.
  set (e0 := (Z.log2 n - Z.log2 d - 53)%Z).
  pose proof (Z.log2_spec n Hn) as [Hn1 Hn2].
  pose proof (Z.log2_spec d Hd) as [Hd1 Hd2].
  pose proof (Z.log2_nonneg n) as Hln. pose proof (Z.log2_nonneg d) as Hld.
  destruct (shifted e0 n d) as [n' d'] eqn:Hs.
  destruct (Z.ltb_spec (n' / d') (2 ^ 53)) as [Hq|Hq]; cbv zeta.
  - rewrite Hs. simpl. unfold shifted in Hs.
    destruct (Z.leb_spec 0 e0) as [He|He]; inversion Hs; subst n' d'; clear Hs.
    + assert (H : (2 ^ 52 * (d * 2 ^ e0) < 2 ^ Z.log2 n)%Z); [|lia].
      replace (Z.log2 n) with (52 + (Z.succ (Z.log2 d) + e0))%Z by lia.
      rewrite !Z.pow_add_r by lia.
      assert (0 < 2 ^ e0)%Z by (apply Z.pow_pos_nonneg; lia). nia.
    + assert (H : (2 ^ 52 * d < 2 ^ Z.log2 n * 2 ^ (- e0))%Z).
      { rewrite <- Z.pow_add_r by lia.
        replace (Z.log2 n + - e0)%Z with (52 + Z.succ (Z.log2 d))%Z by lia.
        rewrite Z.pow_add_r by lia. nia. }
      assert (0 < 2 ^ (- e0))%Z by (apply Z.pow_pos_nonneg; lia). nia.
  - destruct (shifted_pos e0 n d Hn Hd) as [_ Hd']. rewrite Hs in Hd'. simpl in Hd'.
    assert (Hge : (2 ^ 53 * d' <= n')%Z).
    { pose proof (Z.mul_div_le n' d' Hd'). nia. }
    clear Hq. unfold shifted in *.
    destruct (Z.leb_spec 0 e0) as [He|He]; inversion Hs; subst n' d'; clear Hs.
    + destruct (Z.leb_spec 0 (e0 + 1)); [|lia]. simpl.
      rewrite Z.pow_add_r by lia. change (2 ^ 1)%Z with 2%Z.
      change (2 ^ 53)%Z with (2 * 2 ^ 52)%Z in Hge. lia.
    + destruct (Z.leb_spec 0 (e0 + 1)) as [He1|He1]; simpl.
      * assert (e0 = -1)%Z as -> by lia. simpl in *. lia.
      * replace (- e0)%Z with (1 + - (e0 + 1))%Z in Hge by lia.
        rewrite Z.pow_add_r in Hge by lia. change (2 ^ 1)%Z with 2%Z in Hge.
        change (2 ^ 53)%Z with (2 * 2 ^ 52)%Z in Hge. lia.
Qed.

Lemma pow2_pos (e : Z) : (0 < pow2 e)%Q.
Proof.
  unfold pow2. destruct (Z.leb_spec 0 e).
  - rewrite <- (Zlt_Qlt 0). apply Z.pow_pos_nonneg; lia.
  - reflexivity.
Qed.

Lemma pow2_shift (e : Z) :
  (if (0 <=? e)%Z then pow2 e == inject_Z (2 ^ e)
   else pow2 e * inject_Z (2 ^ (- e)) == 1)%Q.
Proof.
  unfold pow2. destruct (Z.leb_spec 0 e); [reflexivity|].
  assert (0 < 2 ^ (- e))%Z by (apply Z.pow_pos_nonneg; lia).
  unfold Qeq, Qmult, inject_Z. cbn [Qnum Qden].
  destruct (2 ^ (- e))%Z eqn:E; lia.
Qed.

Lemma shifted_value (e n d : Z) :
  (0 < n)%Z -> (0 < d)%Z ->
  (inject_Z (fst (shifted e n d)) * pow2 e * inject_Z d ==
   inject_Z n * inject_Z (snd (shifted e n d)))%Q.
Proof.
  intros Hn Hd. pose proof (pow2_shift e) as Hp. unfold shifted.
  destruct (Z.leb_spec 0 e); simpl.
  - rewrite Hp, inject_Z_mult. ring.
  - rewrite inject_Z_mult.
    transitivity (inject_Z n * inject_Z d * (pow2 e * inject_Z (2 ^ (- e))))%Q;
      [ring|]. rewrite Hp. ring.
Qed.

Lemma round_pos_error (n d : Z) :
  (0 < n)%Z -> (0 < d)%Z ->
  let x := (inject_Z n / inject_Z d)%Q in
  (- (ulp_half * x) <= round_pos n d - x <= ulp_half * x)%Q.
Proof.
  intros Hn Hd x. unfold round_pos.
  pose proof (exponent_normal n d Hn Hd) as Hnorm. cbv zeta in Hnorm.
  pose proof (shifted_value (exponent n d) n d Hn Hd) as Hv.
  pose proof (pow2_pos (exponent n d)) as HP.
  destruct (shifted_pos (exponent n d) n d Hn Hd) as [HN HD].
  destruct (shifted (exponent n d) n d) as [N D]. simpl in *.
  pose proof (nearest_even_error N D HD) as Hm.
  set (m := nearest_even N D) in *. clearbody m.
  set (P := pow2 (exponent n d)) in *. clearbody P.
  assert (Hd' : (0 < inject_Z d)%Q) by (rewrite <- (Zlt_Qlt 0); exact Hd).
  assert (HD' : (0 < inject_Z D)%Q) by (rewrite <- (Zlt_Qlt 0); exact HD).
  assert (Hn' : (0 < inject_Z n)%Q) by (rewrite <- (Zlt_Qlt 0); exact Hn).
  assert (Hb : (- inject_Z N <= inject_Z (2 ^ 53) * (inject_Z m * inject_Z D - inject_Z N)
                <= inject_Z N)%Q).
  { assert (H1 : (- N <= 2 ^ 53 * (m * D - N))%Z)
      by (change (2 ^ 53)%Z with (2 ^ 52 * 2)%Z; lia).
    assert (H2 : (2 ^ 53 * (m * D - N) <= N)%Z)
      by (change (2 ^ 53)%Z with (2 ^ 52 * 2)%Z; lia).
    rewrite Zle_Qle in H1, H2.
    unfold Z.sub in H1, H2.
    rewrite ?inject_Z_mult, ?inject_Z_plus, ?inject_Z_opp, ?inject_Z_mult in H1, H2.
    split; assumption. }
  assert (Hx : (x * inject_Z d == inject_Z n)%Q).
  { unfold x. field. lra. }
  clearbody x. unfold ulp_half.
  set (qn := inject_Z n) in *. set (qd := inject_Z d) in *.
  set (qN := inject_Z N) in *. set (qD := inject_Z D) in *.
  set (qm := inject_Z m) in *.
  clearbody qn qd qN qD qm.
  change (inject_Z (2 ^ 53)) with (9007199254740992 # 1)%Q in Hb.
  change (1 # 2 ^ 53)%Q with (1 # 9007199254740992)%Q.
  (* x = qN * P / qD *)
  assert (Hx' : (x * qD == qN * P)%Q).
  { apply (Qmult_inj_r _ _ qd); [lra|].
    transitivity (x * qd * qD)%Q; [ring|]. rewrite Hx, <- Hv. ring. }
  assert (Hg : (- (x * qD) <= 9007199254740992 * (qm * P - x) * qD <= x * qD)%Q).
  { rewrite Hx'. nra. }
  nra.
Qed.

Ltac to_Q :=
  unfold Qcle, Qclt, Qcabs.Qcabs, Qcminus, Qcdiv, Qcplus, Qcmult, Qcopp, Qcinv,
    unit_roundoff, Q2Qc;
  cbn [this]; rewrite ?Qred_correct.

Lemma fl53_error (x : Qc) :
  Qcabs.Qcabs (fl53 x - x) <= unit_roundoff * Qcabs.Qcabs x.
Proof.
  destruct x as [[n d] Hc]. unfold fl53, unit_roundoff. cbn [this Qnum Qden].
  destruct n as [|n|n].
  - to_Q. apply Qabs.Qabs_Qle_condition.
    assert (H0 : (0 # d == 0)%Q) by reflexivity.
    rewrite H0. change (Qabs.Qabs 0) with 0%Q. change (Qred 0) with 0%Q. lra.
  - to_Q. pose proof (round_pos_error (Z.pos n) (Z.pos d) eq_refl eq_refl) as H.
    cbv zeta in H. rewrite <- Qmake_Qdiv in H.
    rewrite (Qabs.Qabs_pos (Z.pos n # d)) by (unfold Qle; simpl; lia).
    apply Qabs.Qabs_Qle_condition. lra.
  - to_Q. pose proof (round_pos_error (Z.pos n) (Z.pos d) eq_refl eq_refl) as H.
    cbv zeta in H. rewrite <- Qmake_Qdiv in H.
    rewrite (Qabs.Qabs_neg (Z.neg n # d)) by (unfold Qle; simpl; lia).
    change (Z.neg n # d)%Q with (- (Z.pos n # d))%Q.
    apply Qabs.Qabs_Qle_condition. lra.
Qed.

(** ** Zooming, exact arithmetic *)


Lemma requestedScale_factor (t : Transform) (e : WheelEvent) :
  requestedScale t e = scale t * wheelFactor e.
Proof. unfold requestedScale, wheelFactor. destruct (Qcltb _ _); reflexivity. Qed.

Lemma wheelFactor_neq_0 (e : WheelEvent) : wheelFactor e <> 0.
Proof.
  unfold wheelFactor. destruct (Qcltb (deltaY e) 0); [apply zoomFactor_neq_0|].
  intros H0. apply (f_equal this) in H0. discriminate H0.
Qed.

Lemma requestedScale_0 (t : Transform) (e : WheelEvent) :
  scale t = 0 -> requestedScale t e = 0.
Proof.
  intros H. rewrite requestedScale_factor, H. apply Qcmult_0_l.
Qed.

Lemma MIN_SCALE_pos : 0 < MIN_SCALE.
Proof. reflexivity. Qed.

Lemma accepted_nonzero (t : Transform) (e : WheelEvent) :
  Qcltb (requestedScale t e) MIN_SCALE = false ->
  scale t <> 0 /\ requestedScale t e <> 0.
Proof.
  intros H. apply Qcltb_ge in H.
  assert (Hn : requestedScale t e <> 0).
  { intros H0. rewrite H0 in H. apply Qcle_not_lt in H. apply H, MIN_SCALE_pos. }
  split; [|exact Hn]. intros H0. apply Hn, requestedScale_0, H0.
Qed.


Lemma zoomRejected_true (t : Transform) (e : WheelEvent) :
  zoomRejected t e = true <->
  requestedScale t e < MIN_SCALE \/ MAX_SCALE < requestedScale t e.
Proof. unfold zoomRejected. rewrite orb_true_iff, !Qcltb_lt. reflexivity. Qed.

Lemma zoomRejected_false (t : Transform) (e : WheelEvent) :
  zoomRejected t e = false <->
  MIN_SCALE <= requestedScale t e <= MAX_SCALE.
Proof. unfold zoomRejected. rewrite orb_false_iff, !Qcltb_ge. reflexivity. Qed.

Lemma handleWheel_rejected (s : State) (e : WheelEvent) :
  zoomRejected (transform s) e = true -> handleWheel s e = Normal s.
Proof. unfold handleWheel, zoomRejected. intros ->. reflexivity. Qed.

Lemma handleWheel_accepted (s : State) (e : WheelEvent) (rect : DOMRect) :
  containerRef s = Some rect ->
  zoomRejected (transform s) e = false ->
  handleWheel s e =
    Normal (setTransform
      (mkTransform (requestedScale (transform s) e)
         (wheelX e - rect_left rect
          - (wheelX e - rect_left rect - offsetX (transform s))
            * (requestedScale (transform s) e / scale (transform s)))
         (wheelY e - rect_top rect
          - (wheelY e - rect_top rect - offsetY (transform s))
            * (requestedScale (transform s) e / scale (transform s)))) s).
Proof.
  unfold handleWheel, zoomRejected. intros -> ->. reflexivity.
Qed.

(** ** Rounding errors *)

Ltac unfold_u := change ulp_half with (1 # 9007199254740992)%Q in *.

Lemma this_sub (x y : Qc) : (this (x - y) == this x - this y)%Q.
Proof. to_Q. reflexivity. Qed.

Lemma this_mul (x y : Qc) : (this (x * y) == this x * this y)%Q.
Proof. to_Q. reflexivity. Qed.

Lemma this_add (x y : Qc) : (this (x + y) == this x + this y)%Q.
Proof. to_Q. reflexivity. Qed.

Lemma this_div (x y : Qc) : (this (x / y) == this x / this y)%Q.
Proof. to_Q. reflexivity. Qed.

Lemma within_Q (tol y x : Qc) :
  within tol y x <-> (- this tol <= this y - this x <= this tol)%Q.
Proof.
  unfold within. to_Q. rewrite Qabs.Qabs_Qle_condition. reflexivity.
Qed.

Lemma rounds_unrounded : rounds unrounded.
Proof.
  intros x. apply within_Q. unfold unrounded. to_Q.
  pose proof (Qabs.Qabs_nonneg (this x)). unfold_u. lra.
Qed.

Lemma rounds_binary64 : rounds binary64.
Proof. intros x. apply fl53_error. Qed.

(** One rounding of a value bounded by [B] is off by at most
    [ulp_half * B]. *)
Lemma rounds_bound (rnd : Qc -> Qc) (x : Qc) (B : Q) :
  rounds rnd ->
  (- B <= this x <= B)%Q ->
  (- (ulp_half * B) <= this (rnd x) - this x <= ulp_half * B)%Q.
Proof.
  intros Hr HB. specialize (Hr x). apply within_Q in Hr. revert Hr. to_Q.
  apply Qabs.Qabs_Qle_condition in HB. unfold_u. lra.
Qed.

Lemma mul_bound (x y X Y : Q) :
  (- X <= x <= X)%Q -> (- Y <= y <= Y)%Q -> (- (X * Y) <= x * y <= X * Y)%Q.
Proof. intros Hx Hy. nra. Qed.

Lemma rounded_bound (y x B : Q) :
  rounded y x -> (- B <= x <= B)%Q ->
  (- (ulp_half * B) <= y - x <= ulp_half * B)%Q.
Proof.
  unfold rounded. intros Hr HB. apply Qabs.Qabs_Qle_condition in Hr, HB.
  unfold_u. lra.
Qed.

Lemma rounds_rounded (rnd : Qc -> Qc) (x : Qc) :
  rounds rnd -> rounded (this (rnd x)) (this x).
Proof. intros Hr. specialize (Hr x). unfold within in Hr. revert Hr. to_Q. tauto. Qed.

(** The offset after a zoom and the zoom back: ten roundings. *)
Lemma offset_chain (m o r1 r2 x3 a3 x5 b1 x6 o1 x7 a7 x9 b2 x10 o2 M O : Q) :
  rounded a3 x3 -> (x3 == m - o)%Q ->
  rounded b1 x5 -> (x5 == a3 * r1)%Q ->
  rounded o1 x6 -> (x6 == m - b1)%Q ->
  rounded a7 x7 -> (x7 == m - o1)%Q ->
  rounded b2 x9 -> (x9 == a7 * r2)%Q ->
  rounded o2 x10 -> (x10 == m - b2)%Q ->
  (- M <= m <= M)%Q -> (- O <= o <= O)%Q ->
  (- (9 # 8) <= r1 <= 9 # 8)%Q -> (- (9 # 8) <= r2 <= 9 # 8)%Q ->
  (- (5 * ulp_half) <= r1 * r2 - 1 <= 5 * ulp_half)%Q ->
  (- (15 * ulp_half * (M + O)) <= o2 - o <= 15 * ulp_half * (M + O))%Q.
Proof.
  intros N3 E3 N5 E5 N6 E6 N7 E7 N9 E9 N10 E10 Hm Ho Hr1 Hr2 Hrho.
  set (A := (M + O)%Q).
  assert (HA : (0 <= A)%Q) by (unfold A; lra).
  assert (B3 : (- A <= x3 <= A)%Q) by (unfold A; lra).
  pose proof (rounded_bound _ _ _ N3 B3) as D3.
  assert (Ba3 : (- ((101 # 100) * A) <= a3 <= (101 # 100) * A)%Q)
    by (unfold_u; lra).
  pose proof (mul_bound _ _ _ _ Ba3 Hr1) as B5. rewrite <- E5 in B5.
  pose proof (rounded_bound _ _ _ N5 B5) as D5.
  assert (Bb1 : (- ((115 # 100) * A) <= b1 <= (115 # 100) * A)%Q)
    by (unfold_u; lra).
  assert (B6 : (- ((215 # 100) * A) <= x6 <= (215 # 100) * A)%Q)
    by (unfold A in *; lra).
  pose proof (rounded_bound _ _ _ N6 B6) as D6.
  assert (B7 : (- ((116 # 100) * A) <= x7 <= (116 # 100) * A)%Q)
    by (unfold_u; lra).
  pose proof (rounded_bound _ _ _ N7 B7) as D7.
  assert (Ba7 : (- ((117 # 100) * A) <= a7 <= (117 # 100) * A)%Q)
    by (unfold_u; lra).
  pose proof (mul_bound _ _ _ _ Ba7 Hr2) as B9. rewrite <- E9 in B9.
  pose proof (rounded_bound _ _ _ N9 B9) as D9.
  (* the three products that carry the earlier errors *)
  assert (P1 : (- (ulp_half * A) <= a3 - (m - o) <= ulp_half * A)%Q)
    by (unfold_u; lra).
  pose proof (mul_bound _ _ _ _ P1 Hr1) as Q1.
  assert (P2 : (- ((332 # 100) * ulp_half * A) <= a7 - b1
                <= (332 # 100) * ulp_half * A)%Q) by (unfold_u; lra).
  pose proof (mul_bound _ _ _ _ P2 Hr2) as Q2.
  assert (P3 : (- ((243 # 100) * ulp_half * A) <= b1 - (m - o) * r1
                <= (243 # 100) * ulp_half * A)%Q) by (unfold_u; lra).
  pose proof (mul_bound _ _ _ _ P3 Hr2) as Q3.
  assert (P4 : (- A <= m - o <= A)%Q) by (unfold A; lra).
  pose proof (mul_bound _ _ _ _ P4 Hrho) as Q4.
  assert (Bb2 : (- ((102 # 100) * A) <= b2 <= (102 # 100) * A)%Q)
    by (unfold_u; lra).
  assert (B10 : (- ((202 # 100) * A) <= x10 <= (202 # 100) * A)%Q)
    by (unfold A in *; lra).
  pose proof (rounded_bound _ _ _ N10 B10) as D10.
  unfold_u. lra.
Qed.

(** One rounding as a relative perturbation. *)
Lemma rounds_delta (rnd : Qc -> Qc) (x : Qc) :
  rounds rnd ->
  exists d : Qc, - unit_roundoff <= d <= unit_roundoff /\ rnd x = x * (1 + d).
Proof.
  intros Hr. pose proof (rounds_rounded rnd x Hr) as H.
  unfold rounded in H. apply Qabs.Qabs_Qle_condition in H.
  destruct (Qc_eq_dec x 0) as [->|Hx].
  - exists 0. split; [split; apply Qcltb_ge; reflexivity|].
    replace (0 * (1 + 0)) with 0 by ring. apply Qc_is_canon.
    change (this 0) with 0%Q in *. change (Qabs.Qabs 0) with 0%Q in H. lra.
  - exists ((rnd x - x) / x). split; [|field; exact Hx].
    assert (Hx' : ~ (this x == 0)%Q).
    { intros H0. apply Hx, Qc_is_canon. exact H0. }
    assert (Hd : (this ((rnd x - x) / x) * this x == this (rnd x) - this x)%Q).
    { to_Q. field. exact Hx'. }
    set (d := this ((rnd x - x) / x)) in *.
    assert (Hg : (- ulp_half <= d <= ulp_half)%Q).
    { clearbody d. revert H Hd.
      apply (Qabs.Qabs_case (this x)); intros Hs H Hd; unfold_u; nra. }
    unfold d in Hg. split; [destruct Hg as [Hg _]|destruct Hg as [_ Hg]];
      revert Hg; to_Q; intros Hg; exact Hg.
Qed.

Lemma Qc_eq_Qeq (a b : Qc) : a = b -> (this a == this b)%Q.
Proof. intros ->. reflexivity. Qed.

Lemma delta2 (d1 d2 : Q) :
  (- ulp_half <= d1 <= ulp_half)%Q -> (- ulp_half <= d2 <= ulp_half)%Q ->
  (- ((201 # 100) * ulp_half) <= (1 + d1) * (1 + d2) - 1
   <= (201 # 100) * ulp_half)%Q.
Proof. unfold_u. intros H1 H2. nra. Qed.

Lemma delta4 (x y : Q) :
  (- ((201 # 100) * ulp_half) <= x - 1 <= (201 # 100) * ulp_half)%Q ->
  (- ((201 # 100) * ulp_half) <= y - 1 <= (201 # 100) * ulp_half)%Q ->
  (- (5 * ulp_half) <= x * y - 1 <= 5 * ulp_half)%Q.
Proof. unfold_u. intros H1 H2. nra. Qed.

(** The scale and the two scale ratios of a zoom by [c1] and a zoom
    back by [c2 = 1 / c1]. *)
Lemma ratio_core (rnd : Qc -> Qc) (s c1 c2 : Qc) :
  rounds rnd ->
  c1 * c2 = 1 ->
  (9 # 10 <= this c1 <= 111 # 100)%Q ->
  (9 # 10 <= this c2 <= 111 # 100)%Q ->
  let n1 := rnd (s * c1) in
  let n2 := rnd (n1 * c2) in
  let r1 := rnd (n1 / s) in
  let r2 := rnd (n2 / n1) in
  0 < n1 ->
  (0 < this s)%Q /\
  (- (3 * ulp_half * this s) <= this n2 - this s <= 3 * ulp_half * this s)%Q /\
  (- (9 # 8) <= this r1 <= 9 # 8)%Q /\
  (- (9 # 8) <= this r2 <= 9 # 8)%Q /\
  (- (5 * ulp_half) <= this r1 * this r2 - 1 <= 5 * ulp_half)%Q.
Proof.
  intros Hr Hc Hc1 Hc2 n1 n2 r1 r2 Hpos.
  destruct (rounds_delta rnd (s * c1) Hr) as (d1 & Hd1 & E1).
  destruct (rounds_delta rnd (n1 * c2) Hr) as (d2 & Hd2 & E2).
  destruct (rounds_delta rnd (n1 / s) Hr) as (d4 & Hd4 & E4).
  destruct (rounds_delta rnd (n2 / n1) Hr) as (d8 & Hd8 & E8).
  fold n1 in E1. fold n2 in E2. fold r1 in E4. fold r2 in E8.
  clearbody n1 n2 r1 r2.
  assert (Hn1 : n1 <> 0).
  { intros H0. rewrite H0 in Hpos. discriminate Hpos. }
  assert (Hs : s <> 0).
  { intros H0. apply Hn1. rewrite E1, H0. ring. }
  assert (R1 : r1 = c1 * ((1 + d1) * (1 + d4))).
  { rewrite E4, E1. field. exact Hs. }
  assert (R2 : r2 = c2 * ((1 + d2) * (1 + d8))).
  { rewrite E8, E2. field. exact Hn1. }
  assert (N2 : n2 = s * ((1 + d1) * (1 + d2))).
  { rewrite E2, E1.
    transitivity (s * (c1 * c2) * ((1 + d1) * (1 + d2))); [ring|].
    rewrite Hc. ring. }
  assert (RR : r1 * r2 = ((1 + d1) * (1 + d4)) * ((1 + d2) * (1 + d8))).
  { rewrite R1, R2.
    transitivity ((c1 * c2) * ((1 + d1) * (1 + d4) * ((1 + d2) * (1 + d8))));
      [ring|]. rewrite Hc. ring. }
  apply Qc_eq_Qeq in E1, R1, R2, N2, RR.
  destruct Hd1 as [Hd1 Hd1'], Hd2 as [Hd2 Hd2'], Hd4 as [Hd4 Hd4'],
    Hd8 as [Hd8 Hd8'].
  revert Hpos E1 R1 R2 N2 RR Hd1 Hd1' Hd2 Hd2' Hd4 Hd4' Hd8 Hd8'.
  to_Q. change (this (Q2Qc 0)) with 0%Q.
  set (qs := this s). set (q1 := this c1) in *. set (q2 := this c2) in *.
  set (e1 := this d1). set (e2 := this d2). set (e4 := this d4).
  set (e8 := this d8).
  set (qn1 := this n1). set (qn2 := this n2).
  set (qr1 := this r1). set (qr2 := this r2).
  clearbody qs q1 q2 e1 e2 e4 e8 qn1 qn2 qr1 qr2.
  intros Hpos E1 R1 R2 N2 RR Hd1 Hd1' Hd2 Hd2' Hd4 Hd4' Hd8 Hd8'.
  pose proof (delta2 e1 e2 (conj Hd1 Hd1') (conj Hd2 Hd2')) as D12.
  pose proof (delta2 e1 e4 (conj Hd1 Hd1') (conj Hd4 Hd4')) as D14.
  pose proof (delta2 e2 e8 (conj Hd2 Hd2') (conj Hd8 Hd8')) as D28.
  pose proof (delta4 _ _ D14 D28) as D.
  set (x12 := ((1 + e1) * (1 + e2))%Q) in *.
  set (x14 := ((1 + e1) * (1 + e4))%Q) in *.
  set (x28 := ((1 + e2) * (1 + e8))%Q) in *.
  clearbody x12 x14 x28.
  assert (Hqs : (0 < qs)%Q).
  { unfold_u. assert (Hy : (1 # 2 <= q1 * (1 + e1))%Q) by nra.
    set (y := (q1 * (1 + e1))%Q) in *.
    assert (E1' : (qn1 == qs * y)%Q) by (rewrite E1; unfold y; ring).
    clearbody y. destruct (Qlt_le_dec 0 qs) as [H|H]; [exact H|]. nra. }
  split; [exact Hqs|].
  split; [unfold_u; nra|].
  split; [unfold_u; nra|].
  split; [unfold_u; nra|].
  rewrite RR. exact D.
Qed.

(** One coordinate of the offset after a zoom and the zoom back. *)
Lemma anchoredOffset_round_trip (rnd : Qc -> Qc) (w l o n1 n2 s : Qc) :
  rounds rnd ->
  let m := num_sub rnd w l in
  let r1 := num_div rnd n1 s in
  let r2 := num_div rnd n2 n1 in
  (- (9 # 8) <= this r1 <= 9 # 8)%Q ->
  (- (9 # 8) <= this r2 <= 9 # 8)%Q ->
  (- (5 * ulp_half) <= this r1 * this r2 - 1 <= 5 * ulp_half)%Q ->
  within (offset_tolerance * (Qcabs.Qcabs (w - l) + Qcabs.Qcabs o))
    (anchoredOffsetIn rnd m (anchoredOffsetIn rnd m o n1 s) n2 n1) o.
Proof.
  intros Hr m r1 r2 Hr1 Hr2 Hrho.
  unfold anchoredOffsetIn, num_sub, num_mul. fold r1 r2.
  set (a3 := rnd (m - o)). set (b1 := rnd (a3 * r1)).
  set (o1 := rnd (m - b1)). set (a7 := rnd (m - o1)).
  set (b2 := rnd (a7 * r2)). set (o2 := rnd (m - b2)).
  pose proof (rounds_rounded rnd (w - l) Hr) as Nm. fold (num_sub rnd w l) in Nm.
  fold m in Nm.
  assert (Bp : (- Qabs.Qabs (this (w - l)) <= this (w - l)
                <= Qabs.Qabs (this (w - l)))%Q).
  { apply Qabs.Qabs_Qle_condition. apply Qle_refl. }
  pose proof (rounded_bound _ _ _ Nm Bp) as Dm.
  assert (Bo : (- Qabs.Qabs (this o) <= this o <= Qabs.Qabs (this o))%Q).
  { apply Qabs.Qabs_Qle_condition. apply Qle_refl. }
  pose proof (Qabs.Qabs_nonneg (this (w - l))) as Hp0.
  pose proof (Qabs.Qabs_nonneg (this o)) as Ho0.
  assert (Bm : (- ((1 + ulp_half) * Qabs.Qabs (this (w - l))) <= this m
                <= (1 + ulp_half) * Qabs.Qabs (this (w - l)))%Q)
    by (unfold_u; lra).
  pose proof (offset_chain (this m) (this o) (this r1) (this r2)
    (this (m - o)) (this a3) (this (a3 * r1)) (this b1)
    (this (m - b1)) (this o1) (this (m - o1)) (this a7)
    (this (a7 * r2)) (this b2) (this (m - b2)) (this o2) _ _
    (rounds_rounded rnd _ Hr) (this_sub _ _)
    (rounds_rounded rnd _ Hr) (this_mul _ _)
    (rounds_rounded rnd _ Hr) (this_sub _ _)
    (rounds_rounded rnd _ Hr) (this_sub _ _)
    (rounds_rounded rnd _ Hr) (this_mul _ _)
    (rounds_rounded rnd _ Hr) (this_sub _ _)
    Bm Bo Hr1 Hr2 Hrho) as H.
  apply within_Q. unfold offset_tolerance.
  rewrite this_mul, this_add.
  change (this (Qcabs.Qcabs (w - l))) with (Qabs.Qabs (this (w - l))).
  change (this (Qcabs.Qcabs o)) with (Qabs.Qabs (this o)).
  rewrite (this_mul (Q2Qc (16 # 1)) unit_roundoff).
  change (this (Q2Qc (16 # 1))) with (16 # 1)%Q.
  change (this unit_roundoff) with (Qred ulp_half). rewrite Qred_correct.
  set (P := Qabs.Qabs (this (w - l))) in *. set (O := Qabs.Qabs (this o)) in *.
  clearbody P O. unfold_u. lra.
Qed.

(** ** Zoom round trip *)

(** With exact arithmetic a zoom and the zoom back give the starting
    state. *)
Lemma round_trip_exact
    (s : State) (rect : DOMRect) (e1 e2 : WheelEvent) :
  containerRef s = Some rect ->
  wheelX e2 = wheelX e1 ->
  wheelY e2 = wheelY e1 ->
  wheelFactor e2 = / wheelFactor e1 ->
  zoomRejected (transform s) e1 = false ->
  zoomRejected (transform (state_of (handleWheel s e1))) e2 = false ->
  handleWheel s e1 >>= (fun s1 => handleWheel s1 e2) = Normal s.
Proof.
  intros Hc Hx Hy Hf H1 H2.
  rewrite (handleWheel_accepted s e1 rect Hc H1) in *.
  cbn [and_then state_of] in *.
  rewrite (handleWheel_accepted (setTransform _ s) e2 rect Hc H2).
  unfold zoomRejected in H1. apply orb_false_iff in H1 as [H1 _].
  destruct (accepted_nonzero _ _ H1) as [Hk Hn].
  pose proof (wheelFactor_neq_0 e1) as Hw.
  rewrite Hx, Hy. simpl.
  rewrite !(requestedScale_factor _ e2), Hf. simpl.
  rewrite requestedScale_factor in *.
  set (f := wheelFactor e1) in *. clearbody f.
  destruct s as [? ? ? ? ? ? ? ? ? [k ox oy] ? ? ? ?]; simpl in *.
  unfold setTransform; simpl. do 2 f_equal.
  f_equal; field; auto.
Qed.

(** A rounding that changes nothing gives back [handleWheel]. *)
Lemma handleWheelIn_exact (rnd : Qc -> Qc) (s : State) (e : WheelEvent) :
  (forall x, rnd x = x) -> handleWheelIn rnd s e = handleWheel s e.
Proof.
  intros Hid.
  unfold handleWheelIn, handleWheel, zoomRejectedIn, requestedScaleIn,
    requestedScale, anchoredOffsetIn, zoomFactorIn, num_sub, num_mul, num_div.
  destruct (containerRef s); rewrite !Hid; reflexivity.
Qed.

Lemma zoomRejectedIn_exact (rnd : Qc -> Qc) (t : Transform) (e : WheelEvent) :
  (forall x, rnd x = x) -> zoomRejectedIn rnd t e = zoomRejected t e.
Proof.
  intros Hid.
  unfold zoomRejectedIn, requestedScaleIn, zoomFactorIn, num_mul, num_div.
  rewrite !Hid. reflexivity.
Qed.

Lemma handleWheelIn_accepted
    (rnd : Qc -> Qc) (s : State) (e : WheelEvent) (rect : DOMRect) :
  containerRef s = Some rect ->
  zoomRejectedIn rnd (transform s) e = false ->
  let t := transform s in
  let n := requestedScaleIn rnd t e in
  let mX := num_sub rnd (wheelX e) (rect_left rect) in
  let mY := num_sub rnd (wheelY e) (rect_top rect) in
  handleWheelIn rnd s e =
    Normal (setTransform
      (mkTransform n (anchoredOffsetIn rnd mX (offsetX t) n (scale t))
                     (anchoredOffsetIn rnd mY (offsetY t) n (scale t))) s).
Proof. unfold handleWheelIn. intros -> ->. reflexivity. Qed.

Lemma zoomFactorIn_bounds (rnd : Qc -> Qc) :
  rounds rnd ->
  (109 # 100 <= this (zoomFactorIn rnd) <= 111 # 100)%Q.
Proof.
  intros Hr. unfold zoomFactorIn.
  assert (HB : (- (11 # 10) <= this (Q2Qc (11 # 10)) <= 11 # 10)%Q)
    by (split; intros H; discriminate H).
  pose proof (rounds_bound rnd _ _ Hr HB) as H.
  change (this (Q2Qc (11 # 10))) with (11 # 10)%Q in H. unfold_u. lra.
Qed.

Lemma zoomFactorIn_inv_bounds (rnd : Qc -> Qc) :
  rounds rnd ->
  zoomFactorIn rnd * / zoomFactorIn rnd = 1 /\
  (9 # 10 <= this (/ zoomFactorIn rnd) <= 111 # 100)%Q.
Proof.
  intros Hr. pose proof (zoomFactorIn_bounds rnd Hr) as HF.
  set (F := zoomFactorIn rnd) in *. clearbody F.
  assert (HF0 : F <> 0).
  { intros ->. change (this 0) with 0%Q in HF. lra. }
  assert (E : F * / F = 1) by (apply Qcmult_inv_r; exact HF0).
  split; [exact E|]. apply Qc_eq_Qeq in E. rewrite this_mul in E.
  change (this 1) with 1%Q in E.
  set (g := this (/ F)) in *. clearbody g. set (f := this F) in *. clearbody f.
  nra.
Qed.

Lemma accepted_positive (rnd : Qc -> Qc) (t : Transform) (e : WheelEvent) :
  rounds rnd ->
  zoomRejectedIn rnd t e = false -> 0 < requestedScaleIn rnd t e.
Proof.
  intros Hr H. unfold zoomRejectedIn in H. apply orb_false_iff in H as [H _].
  apply Qcltb_ge in H.
  assert (HB : (- (2 # 10) <= this MIN_SCALE <= 2 # 10)%Q)
    by (split; intros H0; discriminate H0).
  pose proof (rounds_bound rnd _ _ Hr HB) as Hm.
  change (this MIN_SCALE) with (1 # 5)%Q in Hm.
  revert H. unfold Qcle, Qclt. change (this 0) with 0%Q.
  unfold_u. lra.
Qed.

Lemma wheelFactor_opposite (e1 e2 : WheelEvent) :
  Qcltb (deltaY e2) 0 = negb (Qcltb (deltaY e1) 0) ->
  wheelFactor e2 = / wheelFactor e1.
Proof.
  unfold wheelFactor. intros ->. destruct (Qcltb (deltaY e1) 0); simpl.
  - reflexivity.
  - field. split; [apply zoomFactor_neq_0|].
    intros H. apply (f_equal this) in H. discriminate H.
Qed.

(** The scale and the ratios of the two requests of a round trip. *)
Lemma round_trip_scales
    (rnd : Qc -> Qc) (t : Transform) (ox oy : Qc) (e1 e2 : WheelEvent) :
  rounds rnd ->
  Qcltb (deltaY e2) 0 = negb (Qcltb (deltaY e1) 0) ->
  let n1 := requestedScaleIn rnd t e1 in
  let n2 := requestedScaleIn rnd (mkTransform n1 ox oy) e2 in
  0 < n1 ->
  (0 < this (scale t))%Q /\
  (- (3 * ulp_half * this (scale t)) <= this n2 - this (scale t)
   <= 3 * ulp_half * this (scale t))%Q /\
  (- (9 # 8) <= this (num_div rnd n1 (scale t)) <= 9 # 8)%Q /\
  (- (9 # 8) <= this (num_div rnd n2 n1) <= 9 # 8)%Q /\
  (- (5 * ulp_half)
   <= this (num_div rnd n1 (scale t)) * this (num_div rnd n2 n1) - 1
   <= 5 * ulp_half)%Q.
Proof.
  intros Hr Hdir. unfold requestedScaleIn. cbn [scale]. rewrite Hdir.
  destruct (zoomFactorIn_inv_bounds rnd Hr) as [Hinv HG].
  pose proof (zoomFactorIn_bounds rnd Hr) as HF.
  assert (HF' : (9 # 10 <= this (zoomFactorIn rnd) <= 111 # 100)%Q) by lra.
  destruct (Qcltb (deltaY e1) 0); cbn [negb]; unfold num_mul, num_div.
  - apply (ratio_core rnd (scale t) (zoomFactorIn rnd) (/ zoomFactorIn rnd)
             Hr Hinv HF' HG).
  - rewrite Qcmult_comm in Hinv.
    apply (ratio_core rnd (scale t) (/ zoomFactorIn rnd) (zoomFactorIn rnd)
             Hr Hinv HG HF').
Qed.

(** C9.  Zooming by [f] and then by [1 / f] at the same pointer
    position, neither request being rejected by the scale bounds, gives
    back the view the first zoom started from, up to rounding.  For
    every rounding of relative error at most [2^-53], that of the
    code's doubles included, the scale comes back within [3 * 2^-53] of
    itself and each offset within [2^-49] of the size of the pointer's
    container coordinate plus that of the offset; nothing but the view
    changes.  With exact arithmetic the state comes back exactly. *)
Theorem zoom_round_trip
    (rnd : Qc -> Qc) (s : State) (rect : DOMRect) (e1 e2 : WheelEvent) :
  rounds rnd ->
  containerRef s = Some rect ->
  wheelX e2 = wheelX e1 ->
  wheelY e2 = wheelY e1 ->
  Qcltb (deltaY e2) 0 = negb (Qcltb (deltaY e1) 0) ->
  zoomRejectedIn rnd (transform s) e1 = false ->
  zoomRejectedIn rnd (transform (state_of (handleWheelIn rnd s e1))) e2
    = false ->
  let t := transform s in
  exists t2 : Transform,
    handleWheelIn rnd s e1 >>= (fun s1 => handleWheelIn rnd s1 e2)
      = Normal (setTransform t2 s) /\
    within (scale_tolerance * scale t) (scale t2) (scale t) /\
    within (offset_tolerance
            * (Qcabs.Qcabs (wheelX e1 - rect_left rect)
               + Qcabs.Qcabs (offsetX t)))
           (offsetX t2) (offsetX t) /\
    within (offset_tolerance
            * (Qcabs.Qcabs (wheelY e1 - rect_top rect)
               + Qcabs.Qcabs (offsetY t)))
           (offsetY t2) (offsetY t) /\
    ((forall x, rnd x = x) -> setTransform t2 s = s).
Proof.
  intros Hr Hc Hx Hy Hdir H1 H2 t.
  pose proof (handleWheelIn_accepted rnd s e1 rect Hc H1) as E1.
  cbv zeta in E1. rewrite E1 in H2 |- *. cbn [state_of and_then] in H2 |- *.
  set (s1 := setTransform _ s) in *.
  assert (Hc1 : containerRef s1 = Some rect) by exact Hc.
  pose proof (handleWheelIn_accepted rnd s1 e2 rect Hc1 H2) as E2.
  cbv zeta in E2. rewrite E2. clear E2.
  pose proof (accepted_positive rnd _ e1 Hr H1) as Hpos.
  unfold s1. cbn [transform setTransform scale offsetX offsetY].
  fold t. rewrite Hx, Hy.
  set (n1 := requestedScaleIn rnd t e1) in *.
  set (mX := num_sub rnd (wheelX e1) (rect_left rect)).
  set (mY := num_sub rnd (wheelY e1) (rect_top rect)).
  set (oX1 := anchoredOffsetIn rnd mX (offsetX t) n1 (scale t)).
  set (oY1 := anchoredOffsetIn rnd mY (offsetY t) n1 (scale t)).
  set (n2 := requestedScaleIn rnd (mkTransform n1 oX1 oY1) e2).
  destruct (round_trip_scales rnd t oX1 oY1 e1 e2 Hr Hdir Hpos)
    as (Hs & Hn2 & Hr1 & Hr2 & Hrho).
  fold n1 in Hn2, Hr1, Hr2, Hrho. fold n2 in Hn2, Hr2, Hrho.
  exists (mkTransform n2 (anchoredOffsetIn rnd mX oX1 n2 n1)
                         (anchoredOffsetIn rnd mY oY1 n2 n1)).
  split; [reflexivity|]. cbn [scale offsetX offsetY].
  split; [|split; [|split]].
  - apply within_Q. unfold scale_tolerance.
    rewrite !this_mul.
    change (this (Q2Qc (3 # 1))) with (3 # 1)%Q.
    change (this unit_roundoff) with (Qred ulp_half). rewrite Qred_correct.
    lra.
  - apply (anchoredOffset_round_trip rnd (wheelX e1) (rect_left rect)
             (offsetX t) n1 n2 (scale t) Hr Hr1 Hr2 Hrho).
  - apply (anchoredOffset_round_trip rnd (wheelY e1) (rect_top rect)
             (offsetY t) n1 n2 (scale t) Hr Hr1 Hr2 Hrho).
  - intros Hid.
    pose proof (round_trip_exact s rect e1 e2 Hc Hx Hy
                  (wheelFactor_opposite e1 e2 Hdir)) as Hex.
    rewrite <- !(zoomRejectedIn_exact rnd _ _ Hid) in Hex.
    rewrite <- (handleWheelIn_exact rnd s e1 Hid) in Hex.
    rewrite E1 in Hex. cbn [state_of and_then] in Hex. fold s1 in Hex.
    specialize (Hex H1 H2).
    rewrite <- (handleWheelIn_exact rnd s1 e2 Hid) in Hex.
    rewrite (handleWheelIn_accepted rnd s1 e2 rect Hc1 H2) in Hex.
    cbv zeta in Hex. unfold s1 in Hex.
    cbn [transform setTransform scale offsetX offsetY] in Hex.
    fold t in Hex. rewrite Hx, Hy in Hex.
    injection Hex as Hex. exact Hex.
Qed.

(** ** Anchoring *)

(** The image coordinate under the pointer before and after an
    accepted zoom: seven roundings. *)
Lemma anchor_chain
    (m o r lam x3 a3 x5 b x6 o' x7 a7 q0 X0 q1 X1 s M O : Q) :
  rounded a3 x3 -> (x3 == m - o)%Q ->
  rounded b x5 -> (x5 == a3 * r)%Q ->
  rounded o' x6 -> (x6 == m - b)%Q ->
  rounded a7 x7 -> (x7 == m - o')%Q ->
  rounded X0 q0 -> (q0 * s == a3)%Q ->
  rounded X1 q1 -> (q1 * s == a7 * lam)%Q ->
  (0 < s)%Q ->
  (- M <= m <= M)%Q -> (- O <= o <= O)%Q ->
  (- (9 # 8) <= r <= 9 # 8)%Q -> (- (9 # 8) <= lam <= 9 # 8)%Q ->
  (- ulp_half <= r * lam - 1 <= ulp_half)%Q ->
  (- (15 * ulp_half * (M + O)) <= (X1 - X0) * s
   <= 15 * ulp_half * (M + O))%Q.
Proof.
  intros N3 E3 N5 E5 N6 E6 N7 E7 N0 E0 N1 E1 Hs Hm Ho Hr Hlam Hrl.
  set (A := (M + O)%Q).
  assert (HA : (0 <= A)%Q) by (unfold A; lra).
  assert (B3 : (- A <= x3 <= A)%Q) by (unfold A; lra).
  pose proof (rounded_bound _ _ _ N3 B3) as D3.
  assert (Ba3 : (- ((101 # 100) * A) <= a3 <= (101 # 100) * A)%Q)
    by (unfold_u; lra).
  pose proof (mul_bound _ _ _ _ Ba3 Hr) as B5. rewrite <- E5 in B5.
  pose proof (rounded_bound _ _ _ N5 B5) as D5.
  assert (Bb : (- ((115 # 100) * A) <= b <= (115 # 100) * A)%Q)
    by (unfold_u; lra).
  assert (B6 : (- ((215 # 100) * A) <= x6 <= (215 # 100) * A)%Q)
    by (unfold A in *; lra).
  pose proof (rounded_bound _ _ _ N6 B6) as D6.
  assert (B7 : (- ((116 # 100) * A) <= x7 <= (116 # 100) * A)%Q)
    by (unfold_u; lra).
  pose proof (rounded_bound _ _ _ N7 B7) as D7.
  assert (Ba7 : (- ((117 # 100) * A) <= a7 <= (117 # 100) * A)%Q)
    by (unfold_u; lra).
  (* errors carried through the division by the new scale *)
  assert (P1 : (- ((332 # 100) * ulp_half * A) <= a7 - b
                <= (332 # 100) * ulp_half * A)%Q) by (unfold_u; lra).
  pose proof (mul_bound _ _ _ _ P1 Hlam) as Q1.
  assert (P2 : (- ((115 # 100) * ulp_half * A) <= b - a3 * r
                <= (115 # 100) * ulp_half * A)%Q) by (unfold_u; lra).
  pose proof (mul_bound _ _ _ _ P2 Hlam) as Q2.
  pose proof (mul_bound _ _ _ _ Ba3 Hrl) as Q3.
  pose proof (mul_bound _ _ _ _ Ba7 Hlam) as Q4.
  (* the two final divisions, scaled by [s] *)
  assert (R0 : (- (ulp_half * ((101 # 100) * A)) <= (X0 - q0) * s
                <= ulp_half * ((101 # 100) * A))%Q).
  { unfold rounded in N0. revert N0.
    apply (Qabs.Qabs_case (X0 - q0)); apply (Qabs.Qabs_case q0);
      intros H1 H2 N0; unfold_u; nra. }
  assert (R1 : (- (ulp_half * ((132 # 100) * A)) <= (X1 - q1) * s
                <= ulp_half * ((132 # 100) * A))%Q).
  { unfold rounded in N1. revert N1.
    apply (Qabs.Qabs_case (X1 - q1)); apply (Qabs.Qabs_case q1);
      intros H1 H2 N1; unfold_u; nra. }
  unfold_u. lra.
Qed.

(** The ratio of the new scale to the old one, and its inverse. *)
Lemma ratio_inverse (rnd : Qc -> Qc) (s c : Qc) :
  rounds rnd ->
  (9 # 10 <= this c <= 111 # 100)%Q ->
  let n := rnd (s * c) in
  let r := rnd (n / s) in
  let lam := s / n in
  0 < n ->
  (0 < this s)%Q /\
  (- (9 # 8) <= this r <= 9 # 8)%Q /\
  (- (9 # 8) <= this lam <= 9 # 8)%Q /\
  (- ulp_half <= this r * this lam - 1 <= ulp_half)%Q.
Proof.
  intros Hr Hc n r lam0 Hpos. unfold lam0. clear lam0.
  destruct (rounds_delta rnd (s * c) Hr) as (d1 & Hd1 & E1).
  destruct (rounds_delta rnd (n / s) Hr) as (d4 & Hd4 & E4).
  fold n in E1. fold r in E4. clearbody n r.
  assert (Hn : n <> 0).
  { intros H0. rewrite H0 in Hpos. discriminate Hpos. }
  assert (Hs : s <> 0).
  { intros H0. apply Hn. rewrite E1, H0. ring. }
  assert (RL : r * (s / n) = 1 + d4).
  { rewrite E4. field. split; assumption. }
  assert (LN : s / n * n = s) by (field; exact Hn).
  apply Qc_eq_Qeq in E1, RL, LN. rewrite this_mul in RL, LN.
  set (lam := this (s / n)) in *. clearbody lam.
  destruct Hd1 as [Hd1 Hd1'], Hd4 as [Hd4 Hd4'].
  revert Hpos E1 RL LN Hd1 Hd1' Hd4 Hd4'.
  to_Q. change (this (Q2Qc 0)) with 0%Q.
  set (qs := this s). set (qc := this c) in *.
  set (e1 := this d1). set (e4 := this d4).
  set (qn := this n). set (qr := this r).
  clearbody qs qc e1 e4 qn qr.
  intros Hpos E1 RL LN Hd1 Hd1' Hd4 Hd4'. unfold_u.
  assert (Hy : (89 # 100 <= qc * (1 + e1) <= 112 # 100)%Q) by nra.
  set (y := (qc * (1 + e1))%Q) in *.
  assert (E1' : (qn == qs * y)%Q) by (rewrite E1; unfold y; ring).
  clearbody y.
  assert (Hqs : (0 < qs)%Q).
  { destruct (Qlt_le_dec 0 qs) as [H|H]; [exact H|]. nra. }
  assert (Hly : (lam * y == 1)%Q).
  { apply (Qmult_inj_r _ _ qs); [lra|].
    transitivity (lam * (qs * y))%Q; [ring|]. rewrite <- E1', LN. ring. }
  assert (Hlam : (- (9 # 8) <= lam <= 9 # 8)%Q) by nra.
  split; [exact Hqs|]. split; [|split; [exact Hlam|lra]].
  assert (Hl0 : (88 # 100 <= lam)%Q) by nra.
  nra.
Qed.

(** One image coordinate under the pointer, before and after a zoom
    by [c]. *)
Lemma anchor_coordinate (rnd : Qc -> Qc) (w l o s c : Qc) :
  rounds rnd ->
  (9 # 10 <= this c <= 111 # 100)%Q ->
  let n := rnd (s * c) in
  0 < n ->
  within (offset_tolerance * (Qcabs.Qcabs (w - l) + Qcabs.Qcabs o) / s)
    (canvasCoordIn rnd w l (anchoredOffsetIn rnd (num_sub rnd w l) o n s) n)
    (canvasCoordIn rnd w l o s).
Proof.
  intros Hr Hc n Hpos.
  destruct (ratio_inverse rnd s c Hr Hc Hpos) as (Hs & Hrb & Hlam & Hrl).
  fold n in Hrb, Hlam, Hrl.
  assert (Hn : ~ (this n == 0)%Q).
  { intros H0. revert Hpos. unfold Qclt. rewrite H0. change (this 0) with 0%Q.
    lra. }
  clearbody n.
  unfold canvasCoordIn, anchoredOffsetIn, num_sub, num_mul, num_div.
  set (m := rnd (w - l)). set (r := rnd (n / s)) in *.
  set (a3 := rnd (m - o)). set (b := rnd (a3 * r)).
  set (o' := rnd (m - b)). set (a7 := rnd (m - o')).
  pose proof (rounds_rounded rnd (w - l) Hr) as Nm. fold m in Nm.
  assert (Bp : (- Qabs.Qabs (this (w - l)) <= this (w - l)
                <= Qabs.Qabs (this (w - l)))%Q).
  { apply Qabs.Qabs_Qle_condition. apply Qle_refl. }
  pose proof (rounded_bound _ _ _ Nm Bp) as Dm.
  assert (Bo : (- Qabs.Qabs (this o) <= this o <= Qabs.Qabs (this o))%Q).
  { apply Qabs.Qabs_Qle_condition. apply Qle_refl. }
  pose proof (Qabs.Qabs_nonneg (this (w - l))) as Hp0.
  pose proof (Qabs.Qabs_nonneg (this o)) as Ho0.
  assert (Bm : (- ((1 + ulp_half) * Qabs.Qabs (this (w - l))) <= this m
                <= (1 + ulp_half) * Qabs.Qabs (this (w - l)))%Q)
    by (unfold_u; lra).
  assert (E0 : (this (a3 / s) * this s == this a3)%Q).
  { rewrite this_div. field. lra. }
  assert (E1 : (this (a7 / n) * this s == this a7 * this (s / n))%Q).
  { rewrite !this_div. field. exact Hn. }
  pose proof (anchor_chain (this m) (this o) (this r) (this (s / n))
    (this (m - o)) (this a3) (this (a3 * r)) (this b)
    (this (m - b)) (this o') (this (m - o')) (this a7)
    (this (a3 / s)) (this (rnd (a3 / s)))
    (this (a7 / n)) (this (rnd (a7 / n))) (this s) _ _
    (rounds_rounded rnd _ Hr) (this_sub _ _)
    (rounds_rounded rnd _ Hr) (this_mul _ _)
    (rounds_rounded rnd _ Hr) (this_sub _ _)
    (rounds_rounded rnd _ Hr) (this_sub _ _)
    (rounds_rounded rnd _ Hr) E0
    (rounds_rounded rnd _ Hr) E1
    Hs Bm Bo Hrb Hlam Hrl) as H.
  apply within_Q. unfold offset_tolerance.
  rewrite this_div, this_mul, this_add.
  change (this (Qcabs.Qcabs (w - l))) with (Qabs.Qabs (this (w - l))).
  change (this (Qcabs.Qcabs o)) with (Qabs.Qabs (this o)).
  rewrite (this_mul (Q2Qc (16 # 1)) unit_roundoff).
  change (this (Q2Qc (16 # 1))) with (16 # 1)%Q.
  change (this unit_roundoff) with (Qred ulp_half). rewrite Qred_correct.
  set (P := Qabs.Qabs (this (w - l))) in *. set (O := Qabs.Qabs (this o)) in *.
  set (X1 := this (rnd (a7 / n))) in *. set (X0 := this (rnd (a3 / s))) in *.
  set (qs := this s) in *.
  clearbody P O X1 X0 qs.
  set (T := ((16 # 1) * ulp_half * (P + O) / qs)%Q).
  assert (HT : (T * qs == (16 # 1) * ulp_half * (P + O))%Q).
  { unfold T. field. lra. }
  clearbody T. revert H HT. unfold_u. intros H HT.
  assert (H1 : ((X1 - X0) * qs <= T * qs)%Q) by lra.
  assert (H2 : ((- T) * qs <= (X1 - X0) * qs)%Q) by lra.
  apply Qmult_le_r in H1, H2; [|exact Hs|exact Hs]. lra.
Qed.

Lemma requestedScaleIn_factor (rnd : Qc -> Qc) (t : Transform) (e : WheelEvent) :
  rounds rnd ->
  exists c : Qc,
    (9 # 10 <= this c <= 111 # 100)%Q /\
    requestedScaleIn rnd t e = rnd (scale t * c).
Proof.
  intros Hr. destruct (zoomFactorIn_inv_bounds rnd Hr) as [_ HG].
  pose proof (zoomFactorIn_bounds rnd Hr) as HF.
  unfold requestedScaleIn, num_mul, num_div.
  destruct (Qcltb (deltaY e) 0).
  - exists (zoomFactorIn rnd). split; [lra|reflexivity].
  - exists (/ zoomFactorIn rnd). split; [exact HG|reflexivity].
Qed.

Lemma zoomRejectedIn_true (rnd : Qc -> Qc) (t : Transform) (e : WheelEvent) :
  zoomRejectedIn rnd t e = true <->
  requestedScaleIn rnd t e < rnd MIN_SCALE
  \/ rnd MAX_SCALE < requestedScaleIn rnd t e.
Proof. unfold zoomRejectedIn. rewrite orb_true_iff, !Qcltb_lt. reflexivity. Qed.

Lemma zoomRejectedIn_false (rnd : Qc -> Qc) (t : Transform) (e : WheelEvent) :
  zoomRejectedIn rnd t e = false <->
  rnd MIN_SCALE <= requestedScaleIn rnd t e <= rnd MAX_SCALE.
Proof. unfold zoomRejectedIn. rewrite orb_false_iff, !Qcltb_ge. reflexivity. Qed.

(** C1, amended.  A wheel event at scale [s] asks for the scale [n],
    [s * 1.1] or [s / 1.1], computed as the code computes it.  A request
    outside [MIN_SCALE, MAX_SCALE] is rejected, not clamped: the state
    stays as it is.  A request within the bounds sets the scale to [n]
    and the offset to [p - (p - offset) * (n / s)], [p] being the
    pointer position in the container and each operation being rounded;
    the image point under the pointer then stays where it was up to
    rounding: the image coordinates the component computes for the
    pointer before and after the zoom differ by at most
    [2^-49 * (|p| + |offset|) / s].  This holds for every rounding of
    relative error at most [2^-53], that of the code's doubles
    included. *)
Theorem handleWheel_rejects_or_anchors
    (rnd : Qc -> Qc) (s : State) (e : WheelEvent) (rect : DOMRect) :
  rounds rnd ->
  containerRef s = Some rect ->
  let t := transform s in
  let n := requestedScaleIn rnd t e in
  let pX := num_sub rnd (wheelX e) (rect_left rect) in
  let pY := num_sub rnd (wheelY e) (rect_top rect) in
  (n < rnd MIN_SCALE \/ rnd MAX_SCALE < n -> handleWheelIn rnd s e = Normal s) /\
  (rnd MIN_SCALE <= n <= rnd MAX_SCALE ->
   handleWheelIn rnd s e =
     Normal (setTransform
               (mkTransform n
                  (num_sub rnd pX
                     (num_mul rnd (num_sub rnd pX (offsetX t))
                        (num_div rnd n (scale t))))
                  (num_sub rnd pY
                     (num_mul rnd (num_sub rnd pY (offsetY t))
                        (num_div rnd n (scale t))))) s) /\
   exists before after : Point,
     getTransformedPointIn rnd s (wheelX e) (wheelY e) = Some before /\
     getTransformedPointIn rnd (state_of (handleWheelIn rnd s e))
       (wheelX e) (wheelY e) = Some after /\
     within (offset_tolerance
             * (Qcabs.Qcabs (wheelX e - rect_left rect)
                + Qcabs.Qcabs (offsetX t)) / scale t)
            (px after) (px before) /\
     within (offset_tolerance
             * (Qcabs.Qcabs (wheelY e - rect_top rect)
                + Qcabs.Qcabs (offsetY t)) / scale t)
            (py after) (py before)).
Proof.
  intros Hr Hc t n pX pY. split.
  - intros H. apply zoomRejectedIn_true in H.
    unfold handleWheelIn. fold t. rewrite H. reflexivity.
  - intros H. apply zoomRejectedIn_false in H.
    pose proof (handleWheelIn_accepted rnd s e rect Hc H) as E.
    cbv zeta in E. rewrite E. split; [reflexivity|].
    pose proof (accepted_positive rnd _ e Hr H) as Hpos.
    destruct (requestedScaleIn_factor rnd t e Hr) as (c & Hcb & En).
    fold t in Hpos.
    unfold getTransformedPointIn.
    cbn [state_of containerRef transform setTransform scale offsetX offsetY].
    rewrite Hc. fold t. eexists. eexists.
    split; [reflexivity|]. split; [reflexivity|]. cbn [px py].
    rewrite En in Hpos |- *. split.
    + apply (anchor_coordinate rnd (wheelX e) (rect_left rect) (offsetX t)
               (scale t) c Hr Hcb Hpos).
    + apply (anchor_coordinate rnd (wheelY e) (rect_top rect) (offsetY t)
               (scale t) c Hr Hcb Hpos).
Qed.

(** ** Pointer down *)

(** C10.  A pointer-down whose button is not the primary one leaves the
    whole state as it was: no gesture flag, no anchor, no pixel and no
    history entry changes. *)
Theorem handlePointerDown_other_button
    (cov : LineJoin -> LineCap -> Qc -> Point -> Point -> nat -> nat -> Qc)
    (s : State) (e : PointerEvent) :
  button e <> 0%Z ->
  handlePointerDown cov s e = s /\ dispatch cov s (PointerDown e) = Normal s.
Proof.
  intros Hb. assert (H : handlePointerDown cov s e = s).
  { unfold handlePointerDown. destruct (Z.eqb_spec (button e) 0); [tauto|reflexivity]. }
  split; [exact H|]. simpl. rewrite H. reflexivity.
Qed.

(** ** History boundaries *)

Lemma in_sync_update (s : State) : in_sync (updateHistoryControls s).
Proof. split; reflexivity. Qed.

Lemma handleUndo_at_start (s : State) :
  (index (historyRef s) <= 0)%Z -> handleUndo s = Normal s.
Proof.
  intros H. unfold handleUndo.
  destruct (Z.ltb_spec 0 (index (historyRef s))); [lia|reflexivity].
Qed.

Lemma handleRedo_at_end (s : State) :
  (Z.of_nat (length (stack (historyRef s))) - 1 <= index (historyRef s))%Z ->
  handleRedo s = Normal s.
Proof.
  intros H. unfold handleRedo.
  destruct (Z.ltb_spec (index (historyRef s))
              (Z.of_nat (length (stack (historyRef s))) - 1)); [lia|reflexivity].
Qed.

Ltac unfold_handlers :=
  unfold onload, handleZoom, handleKeyDown, handleKeyUp, handleClear,
    handlePointerUp, handlePointerDown, handlePointerMove, handleSave;
  unfold handleUndo, handleRedo, handleWheel, resetView, saveHistory,
    drawLine, getTransformedPoint;
  unfold restoreEntry.

Section Invariants.

Variable cov : LineJoin -> LineCap -> Qc -> Point -> Point -> nat -> nat -> Qc.

Lemma in_sync_step (s : State) (ev : Event) :
  in_sync s -> in_sync (step cov s ev).
Proof.
  intros H. destruct s as [cr ir ct dr pr lp [st ix] bs er t sh bo hc sv].
  destruct ev; unfold step, dispatch; unfold_handlers; cbn;
    repeat (case_match; cbn); try exact H; try apply in_sync_update.
Qed.

Lemma in_sync_run (s : State) (evs : list Event) :
  in_sync s -> in_sync (run cov s evs).
Proof.
  revert s. induction evs as [|ev evs IH]; intros s H; [exact H|].
  apply IH, in_sync_step, H.
Qed.

(** C7.  At cursor [0] undo returns normally with the state untouched,
    and so does redo at cursor [length - 1]: history and live bitmap stay
    as they were and nothing is thrown.  In every state the component
    reaches from its mounted state the host sees
    [canUndo = (cursor > 0)] and [canRedo = (cursor < length - 1)]. *)
Theorem history_boundaries (s : State) :
  (index (historyRef s) = 0%Z -> handleUndo s = Normal s) /\
  (index (historyRef s) = (Z.of_nat (length (stack (historyRef s))) - 1)%Z ->
   handleRedo s = Normal s) /\
  (forall (container : DOMRect) (evs : list Event),
     s = run cov (mounted container) evs ->
     canUndo (historyControls s) = (0 <? index (historyRef s))%Z /\
     canRedo (historyControls s) =
       (index (historyRef s)
          <? Z.of_nat (length (stack (historyRef s))) - 1)%Z).
Proof.
  split; [|split].
  - intros H. apply handleUndo_at_start. lia.
  - intros H. apply handleRedo_at_end. lia.
  - intros container evs ->. apply in_sync_run. split; reflexivity.
Qed.

End Invariants.

(** ** Brush compositing *)

Section Brush.

Variable cov : LineJoin -> LineCap -> Qc -> Point -> Point -> nat -> nat -> Qc.

Lemma rgba_alpha (r g b : Z) (a : Qc) :
  0 <= a <= 1 -> alpha (rgba r g b a) = a.
Proof.
  intros [H0 H1]. unfold rgba. cbn [alpha].
  apply Qcltb_ge in H0, H1. rewrite H0, H1. reflexivity.
Qed.

Lemma scale_pixel_transparent (k : Qc) : scale_pixel k transparent = transparent.
Proof. unfold scale_pixel, transparent. cbn. rewrite Qcmult_0_r. reflexivity. Qed.

Lemma scale_pixel_0 (p : Pixel) : scale_pixel 0 p = transparent.
Proof. unfold scale_pixel, transparent. rewrite !Qcmult_0_l. reflexivity. Qed.

Lemma drawLine_pixels (s : State) (c : Canvas) (x1 y1 x2 y2 : Qc) (i : nat)
    (dst : Pixel) :
  canvasRef s = Some c -> context2d c = true -> bitmap c !! i = Some dst ->
  pixels (drawLine cov s x1 y1 x2 y2) !! i =
    Some (composite (if isErasing s then DestinationOut else SourceOver)
            (scale_pixel
               (brushCoverage cov s c (mkPoint x1 y1) (mkPoint x2 y2) i)
               (if isErasing s then rgba 0 0 0 1
                else rgba 236 72 153 (brushOpacity s))) dst).
Proof.
  intros Hc Hctx Hi. unfold drawLine, pixels. rewrite Hc, Hctx. cbn.
  rewrite list_lookup_imap, Hi. reflexivity.
Qed.

(** C8.  In erase mode the stroke removes coverage at full strength
    whatever the brush opacity is: the erased bitmap does not depend on
    the opacity, each pixel keeps the fraction [1 - k] of what it held,
    [k] being the part of the pixel under the stroke, so a pixel wholly
    under the stroke is cleared and a transparent pixel stays
    transparent.  In draw mode the same stroke composites the brush
    colour at the brush opacity. *)
Theorem erase_is_binary (s : State) (c : Canvas) (x1 y1 x2 y2 : Qc) :
  canvasRef s = Some c ->
  context2d c = true ->
  let erased := drawLine cov (setIsErasing true s) x1 y1 x2 y2 in
  let drawn := drawLine cov (setIsErasing false s) x1 y1 x2 y2 in
  let ink := rgba 236 72 153 (brushOpacity s) in
  (forall op : Qc,
     drawLine cov (setBrushOpacity op (setIsErasing true s)) x1 y1 x2 y2 =
     setBrushOpacity op erased) /\
  (forall (i : nat) (dst : Pixel),
     bitmap c !! i = Some dst ->
     let k := brushCoverage cov s c (mkPoint x1 y1) (mkPoint x2 y2) i in
     pixels erased !! i = Some (scale_pixel (1 - k) dst) /\
     (k = 1 -> pixels erased !! i = Some transparent) /\
     pixels drawn !! i =
       Some (add_pixel (scale_pixel k ink)
               (scale_pixel (1 - k * alpha ink) dst))) /\
  (forall i : nat,
     bitmap c !! i = Some transparent ->
     pixels erased !! i = Some transparent) /\
  (0 <= brushOpacity s <= 1 -> alpha ink = brushOpacity s).
Proof.
  intros Hc Hctx erased drawn ink.
  assert (He : forall i dst, bitmap c !! i = Some dst ->
    pixels erased !! i =
      Some (scale_pixel
              (1 - brushCoverage cov s c (mkPoint x1 y1) (mkPoint x2 y2) i) dst)).
  { intros i dst Hi. subst erased.
    rewrite (drawLine_pixels (setIsErasing true s) c _ _ _ _ i dst Hc Hctx Hi). cbn.
    rewrite Qcmult_1_r. reflexivity. }
  split; [|split; [|split]].
  - intros op. subst erased. unfold drawLine. cbn. rewrite Hc, Hctx. reflexivity.
  - intros i dst Hi k. split; [apply He, Hi|]. split.
    + intros Hk. rewrite (He i dst Hi). fold k. rewrite Hk.
      replace (1 - 1) with 0 by ring. rewrite scale_pixel_0. reflexivity.
    + subst drawn.
      rewrite (drawLine_pixels (setIsErasing false s) c _ _ _ _ i dst Hc Hctx Hi).
      reflexivity.
  - intros i Hi. rewrite (He i _ Hi), scale_pixel_transparent. reflexivity.
  - apply rgba_alpha.
Qed.

End Brush.

(** ** Canvas primitives *)

Lemma putImageData_same_size (W H : nat) (img : ImageData) (c : Canvas) :
  W <> 0%nat -> shaped W H c -> entry_ok W H img ->
  putImageData img (clearRect c) = with_bitmap (data img) c.
Proof.
  intros HW (Hctx & Hw & Hh & Hlen) (Hiw & Hih & Hdata).
  unfold putImageData, clearRect, with_bitmap.
  cbn [canvas_width canvas_height bitmap context2d]. f_equal.
  rewrite Hw, Hiw, Hih. apply list_eq. intros i.
  rewrite list_lookup_imap, list_lookup_fmap.
  destruct (decide (i < W * H)%nat) as [Hi|Hi].
  - destruct (lookup_lt_is_Some_2 (bitmap c) i) as [p Hp]; [lia|].
    destruct (lookup_lt_is_Some_2 (data img) i) as [q Hq]; [lia|].
    assert (Hx : (i `mod` W < W)%nat) by (apply Nat.mod_upper_bound; exact HW).
    assert (Hy : (i `div` W < H)%nat).
    { apply Nat.Div0.div_lt_upper_bound. lia. }
    rewrite Hp. cbn [fmap option_fmap option_map].
    rewrite (proj2 (Nat.ltb_lt _ _) Hx), (proj2 (Nat.ltb_lt _ _) Hy).
    cbn [andb].
    replace (i `div` W * W + i `mod` W)%nat with i
      by (rewrite (Nat.div_mod_eq i W) at 1; lia).
    rewrite Hq. reflexivity.
  - rewrite (lookup_ge_None_2 (bitmap c) i) by lia.
    rewrite (lookup_ge_None_2 (data img) i) by lia. reflexivity.
Qed.

Lemma shaped_with_bitmap (W H : nat) (c : Canvas) (b : list Pixel) :
  shaped W H c -> length b = (W * H)%nat -> shaped W H (with_bitmap b c).
Proof. intros (? & ? & ? & ?) Hb. repeat split; assumption. Qed.

Lemma shaped_clearRect (W H : nat) (c : Canvas) :
  shaped W H c -> shaped W H (clearRect c).
Proof.
  intros Hc. apply shaped_with_bitmap; [exact Hc|].
  rewrite length_map. apply Hc.
Qed.

Lemma getImageData_shaped (W H : nat) (c : Canvas) :
  W <> 0%nat -> H <> 0%nat -> shaped W H c ->
  getImageData c = Some (snapshot c) /\ entry_ok W H (snapshot c).
Proof.
  intros HW HH (Hctx & Hw & Hh & Hlen). unfold getImageData, snapshot.
  rewrite Hw, Hh.
  destruct (Nat.eqb_spec W 0); [contradiction|].
  destruct (Nat.eqb_spec H 0); [contradiction|].
  repeat split. exact Hlen.
Qed.

(** ** Handlers, one by one *)

Lemma slice0_take {A} (l : list A) (ix : Z) :
  (-1 <= ix)%Z -> slice0 l (ix + 1) = take (Z.to_nat (ix + 1)) l.
Proof.
  intros H. unfold slice0. destruct (Z.ltb_spec (ix + 1) 0); [lia|reflexivity].
Qed.

Lemma slice0_tip {A} (l : list A) (ix : Z) :
  ix = (Z.of_nat (length l) - 1)%Z -> slice0 l (ix + 1) = l.
Proof.
  intros ->. rewrite slice0_take by lia. apply take_ge. lia.
Qed.

Lemma saveHistory_push (s : State) (c : Canvas) :
  canvasRef s = Some c -> context2d c = true ->
  canvas_width c <> 0%nat -> canvas_height c <> 0%nat ->
  saveHistory s =
    Normal (updateHistoryControls
      (set_historyRef
         (mkHistory
            (slice0 (stack (historyRef s)) (index (historyRef s) + 1)
               ++ [snapshot c])
            (Z.of_nat
               (length (slice0 (stack (historyRef s))
                          (index (historyRef s) + 1) ++ [snapshot c])) - 1))
         s)).
Proof.
  intros Hc Hctx Hw Hh. unfold saveHistory, getImageData.
  rewrite Hc, Hctx. cbn [negb].
  destruct (Nat.eqb_spec (canvas_width c) 0); [contradiction|].
  destruct (Nat.eqb_spec (canvas_height c) 0); [contradiction|].
  reflexivity.
Qed.

Lemma handleUndo_restores (W H : nat) (s : State) (c : Canvas) (img : ImageData) :
  W <> 0%nat -> canvasRef s = Some c -> shaped W H c -> entry_ok W H img ->
  (0 < index (historyRef s))%Z ->
  stack (historyRef s) !! Z.to_nat (index (historyRef s) - 1) = Some img ->
  handleUndo s =
    Normal (updateHistoryControls
      (set_historyRef
         (mkHistory (stack (historyRef s)) (index (historyRef s) - 1))
         (set_canvasRef (Some (with_bitmap (data img) c)) s))).
Proof.
  intros HW Hc Hs Hi Hix Hl. unfold handleUndo, restoreEntry.
  destruct (Z.ltb_spec 0 (index (historyRef s))); [|lia].
  rewrite Hc, (proj1 Hs), Hl. cbn [and_then].
  rewrite (putImageData_same_size W H img c HW Hs Hi). reflexivity.
Qed.

Section Gestures.

Variable cov : LineJoin -> LineCap -> Qc -> Point -> Point -> nat -> nat -> Qc.

Lemma same_shape_refl (c : Canvas) : same_shape c c.
Proof. repeat split. Qed.

Lemma same_shape_stroke j cp lw op ink p1 p2 (c : Canvas) :
  same_shape c (stroke cov j cp lw op ink p1 p2 c).
Proof. unfold stroke, same_shape. cbn. rewrite length_imap. repeat split. Qed.

Lemma length_stroke j cp lw op ink p1 p2 (c : Canvas) :
  length (bitmap (stroke cov j cp lw op ink p1 p2 c)) = length (bitmap c).
Proof. apply same_shape_stroke. Qed.

Local Hint Resolve same_shape_refl same_shape_stroke length_stroke : core.

Lemma drawLine_history (s : State) (x1 y1 x2 y2 : Qc) :
  historyRef (drawLine cov s x1 y1 x2 y2) = historyRef s.
Proof. unfold drawLine. repeat case_match; reflexivity. Qed.

Lemma frame_refl (s : State) : frame s s.
Proof. unfold frame. repeat split. destruct (canvasRef s); auto. Qed.

Lemma frame_trans (s1 s2 s3 : State) : frame s1 s2 -> frame s2 s3 -> frame s1 s3.
Proof.
  unfold frame. intros (Hh & Hc & Hp & H12) (Hh' & Hc' & Hp' & H23).
  split; [congruence|]. split; [congruence|]. split; [congruence|].
  destruct (canvasRef s1), (canvasRef s2), (canvasRef s3); try tauto.
  unfold same_shape in *. intuition congruence.
Qed.

Lemma passive_frame (s : State) (ev : Event) :
  passive ev = true ->
  frame s (step cov s ev) /\
  isDrawingRef (step cov s ev) = isDrawingRef s /\
  (isDrawingRef s = false -> canvasRef (step cov s ev) = canvasRef s).
Proof.
  intros Hp. destruct s as [cr ir ct dr pr lp [st ix] bs er t sh bo hc sv].
  destruct ev; try discriminate Hp; unfold step, dispatch; unfold_handlers;
    unfold frame; cbn;
    repeat (case_match; cbn); subst; repeat split; auto; try discriminate.
Qed.

Lemma handlePointerDown_frame (s : State) (e : PointerEvent) :
  button e = 0%Z -> isPanningRef s = false ->
  frame s (handlePointerDown cov s e) /\
  isDrawingRef (handlePointerDown cov s e) = true.
Proof.
  intros Hb Hp. destruct s as [cr ir ct dr pr lp [st ix] bs er t sh bo hc sv].
  cbn in Hp. subst pr. unfold_handlers. rewrite Hb. unfold frame. cbn.
  repeat (case_match; cbn); subst; repeat split; auto.
Qed.

Lemma run_app (s : State) (evs evs' : list Event) :
  run cov s (evs ++ evs') = run cov (run cov s evs) evs'.
Proof. apply foldl_app. Qed.

Lemma run_passive (evs : list Event) (s : State) :
  forallb passive evs = true ->
  frame s (run cov s evs) /\
  isDrawingRef (run cov s evs) = isDrawingRef s /\
  (isDrawingRef s = false -> canvasRef (run cov s evs) = canvasRef s).
Proof.
  revert s. induction evs as [|ev evs IH]; intros s Hp.
  - split; [apply frame_refl|]. split; [reflexivity|]. intros _. reflexivity.
  - cbn in Hp. apply andb_true_iff in Hp as [Hev Hevs].
    destruct (passive_frame s ev Hev) as (Hf & Hd & Hc).
    destruct (IH (step cov s ev) Hevs) as (Hf' & Hd' & Hc').
    change (run cov s (ev :: evs)) with (run cov (step cov s ev) evs).
    split; [eapply frame_trans; eassumption|].
    split; [congruence|].
    intros Hidle. rewrite Hc' by congruence. apply Hc, Hidle.
Qed.

Lemma loaded_frame (W H : nat) (s s' : State) :
  frame s s' -> loaded W H s -> loaded W H s'.
Proof.
  unfold frame, loaded. intros (Hh & _ & _ & Hc) ((c & Hcs & Hs) & Hst & Hix).
  rewrite Hh. split; [|split; assumption].
  rewrite Hcs in Hc. destruct (canvasRef s') as [c'|]; [|contradiction].
  exists c'. split; [reflexivity|].
  unfold shaped, same_shape in *. intuition congruence.
Qed.

Lemma step_stroke_end (s : State) (fin : StrokeEnd) :
  step cov s (stroke_end fin) = state_of (handlePointerUp s).
Proof. destruct fin; reflexivity. Qed.

(** Pushing a snapshot of the live canvas. *)
Lemma commit_push (W H : nat) (s : State) :
  W <> 0%nat -> H <> 0%nat -> loaded W H s ->
  exists (c : Canvas) (s' : State),
    canvasRef s = Some c /\
    saveHistory s = Normal s' /\
    loaded W H s' /\ clean s' /\
    stack (historyRef s') =
      take (Z.to_nat (index (historyRef s) + 1)) (stack (historyRef s))
        ++ [snapshot c] /\
    index (historyRef s') =
      (Z.of_nat (length (stack (historyRef s'))) - 1)%Z /\
    index (historyRef s') = (index (historyRef s) + 1)%Z /\
    canRedo (historyControls s') = false /\
    isDrawingRef s' = isDrawingRef s /\ isPanningRef s' = isPanningRef s.
Proof.
  intros HW HH ((c & Hc & Hs) & Hst & Hix).
  destruct (getImageData_shaped W H c HW HH Hs) as [_ Hok].
  exists c. eexists. split; [exact Hc|]. split.
  { apply saveHistory_push with (c := c); [exact Hc|apply Hs|..].
    - destruct Hs as (_ & -> & _). exact HW.
    - destruct Hs as (_ & _ & -> & _). exact HH. }
  rewrite slice0_take by lia.
  set (n := Z.to_nat (index (historyRef s) + 1)).
  assert (Hlen : length (take n (stack (historyRef s)) ++ [snapshot c])
                 = S n).
  { rewrite length_app, length_take_le by lia. cbn. lia. }
  unfold loaded, clean, pixels. cbn. rewrite Hc, Hlen.
  split; [split; [|split]|split; [|split; [|split; [|split; [|split]]]]].
  - exists c. split; [reflexivity|exact Hs].
  - apply Forall_app. split; [apply Forall_take, Hst|].
    constructor; [exact Hok|constructor].
  - lia.
  - exists (snapshot c). split; [|reflexivity].
    replace (Z.to_nat (Z.of_nat (S n) - 1)) with
      (length (take n (stack (historyRef s))) + 0)%nat
      by (rewrite length_take_le by lia; lia).
    rewrite lookup_app_r by lia.
    replace (_ + 0 - _)%nat with 0%nat by lia. reflexivity.
  - reflexivity.
  - reflexivity.
  - lia.
  - apply Z.ltb_irrefl.
  - split; reflexivity.
Qed.

(** A committed draw gesture, wherever the cursor is. *)
Lemma draw_commits (W H : nat) (s : State) (down : PointerEvent)
    (during : list Event) (fin : StrokeEnd) :
  W <> 0%nat -> H <> 0%nat -> loaded W H s -> isPanningRef s = false ->
  button down = 0%Z -> forallb passive during = true ->
  let s' := run cov s (events (Draw down during fin)) in
  loaded W H s' /\ clean s' /\ at_rest s' /\
  canRedo (historyControls s') = false /\
  index (historyRef s') = (index (historyRef s) + 1)%Z /\
  exists img : ImageData,
    stack (historyRef s') =
      take (Z.to_nat (index (historyRef s) + 1)) (stack (historyRef s))
        ++ [img].
Proof.
  intros HW HH Hl Hp Hb Hdur. cbn [events].
  change (run cov s (PointerDown down :: during ++ _))
    with (run cov (handlePointerDown cov s down) (during ++ [stroke_end fin])).
  rewrite run_app.
  destruct (handlePointerDown_frame s down Hb Hp) as [Hf1 Hd1].
  set (s1 := handlePointerDown cov s down) in *.
  destruct (run_passive during s1 Hdur) as (Hf2 & Hd2 & _).
  set (s2 := run cov s1 during) in *.
  pose proof (frame_trans _ _ _ Hf1 Hf2) as Hf.
  pose proof (loaded_frame W H _ _ Hf Hl) as Hl2.
  destruct Hf as (Hh & _ & Hpan & _).
  destruct (commit_push W H s2 HW HH Hl2)
    as (c & s3 & Hc & Hsave & Hl3 & Hcl3 & Hst3 & Hix3 & Hnx3 & Hr3 & Hd3 & Hp3).
  change (run cov s2 [?e]) with (step cov s2 e).
  rewrite step_stroke_end. unfold handlePointerUp.
  rewrite Hd2, Hd1, Hsave. cbn [and_then state_of].
  split; [exact Hl3|]. split; [exact Hcl3|].
  split; [split; [reflexivity|split; [cbn; congruence|exact Hix3]]|].
  split; [exact Hr3|]. split; [cbn; rewrite Hnx3, Hh; reflexivity|].
  exists (snapshot c). cbn. rewrite Hst3, Hh. reflexivity.
Qed.

Lemma gesture_settled (W H : nat) (s : State) (g : Gesture) :
  W <> 0%nat -> H <> 0%nat -> settled W H s -> well_formed g = true ->
  settled W H (run cov s (events g)) /\
  exists ext : list ImageData,
    stack (historyRef (run cov s (events g))) = stack (historyRef s) ++ ext /\
    length ext = (if commits g then 1 else 0)%nat.
Proof.
  intros HW HH (Hl & Hcl & Hd & Hp & Htip) Hwf.
  destruct g as [down during fin| |ev]; cbn [commits well_formed] in *.
  - apply andb_true_iff in Hwf as [Hb Hdur]. apply Z.eqb_eq in Hb.
    destruct (draw_commits W H s down during fin HW HH Hl Hp Hb Hdur)
      as (Hl' & Hcl' & Hr' & _ & _ & img & Hst').
    split; [split; [exact Hl'|split; [exact Hcl'|exact Hr']]|].
    exists [img]. split; [|reflexivity].
    rewrite Hst', take_ge by lia. reflexivity.
  - change (run cov s (events Clear)) with (state_of (handleClear s)).
    destruct Hl as ((c & Hc & Hs) & Hst & Hix).
    unfold handleClear. rewrite Hc, (proj1 Hs).
    assert (Hl1 : loaded W H (set_canvasRef (Some (clearRect c)) s)).
    { split; [|split; assumption]. exists (clearRect c).
      split; [reflexivity|apply shaped_clearRect, Hs]. }
    destruct (commit_push W H _ HW HH Hl1)
      as (c1 & s3 & Hc1 & Hsave & Hl3 & Hcl3 & Hst3 & Hix3 & _ & _ & Hd3 & Hp3).
    rewrite Hsave. cbn [state_of]. split.
    + split; [exact Hl3|]. split; [exact Hcl3|].
      split; [rewrite Hd3; exact Hd|]. split; [rewrite Hp3; exact Hp|exact Hix3].
    + exists [snapshot c1]. split; [|reflexivity].
      rewrite Hst3. cbn. rewrite take_ge by lia. reflexivity.
  - change (run cov s (events (Between ev))) with (step cov s ev).
    destruct (passive_frame s ev Hwf) as (Hf & Hd1 & Hc1).
    specialize (Hc1 Hd).
    pose proof (loaded_frame W H _ _ Hf Hl) as Hl1.
    destruct Hf as (Hh & _ & Hpan & _).
    split.
    + split; [exact Hl1|]. split.
      * unfold clean, pixels in *. rewrite Hh, Hc1. exact Hcl.
      * unfold at_rest. rewrite Hh, Hd1, Hpan. auto.
    + exists []. rewrite Hh, app_nil_r. split; reflexivity.
Qed.

Lemma gestures_settled (W H : nat) (gs : list Gesture) (s : State) :
  W <> 0%nat -> H <> 0%nat -> settled W H s ->
  forallb well_formed gs = true ->
  settled W H (run cov s (script gs)) /\
  exists ext : list ImageData,
    stack (historyRef (run cov s (script gs))) = stack (historyRef s) ++ ext /\
    length ext = committed gs.
Proof.
  intros HW HH. revert s. induction gs as [|g gs IH]; intros s Hs Hwf.
  - split; [exact Hs|]. exists []. rewrite app_nil_r. split; reflexivity.
  - cbn in Hwf. apply andb_true_iff in Hwf as [Hg Hgs].
    cbn [script committed]. rewrite run_app.
    destruct (gesture_settled W H s g HW HH Hs Hg) as (Hs1 & ext1 & He1 & Hn1).
    destruct (IH _ Hs1 Hgs) as (Hs2 & ext2 & He2 & Hn2).
    split; [exact Hs2|]. exists (ext1 ++ ext2).
    rewrite He2, He1, <- app_assoc, length_app, Hn1, Hn2.
    split; reflexivity.
Qed.

Lemma shape_kept_refl (s : State) : shape_kept s s.
Proof. unfold shape_kept. destruct (canvasRef s); auto. Qed.

Lemma shape_kept_trans (s1 s2 s3 : State) :
  shape_kept s1 s2 -> shape_kept s2 s3 -> shape_kept s1 s3.
Proof.
  unfold shape_kept.
  destruct (canvasRef s1), (canvasRef s2), (canvasRef s3); try tauto.
  unfold same_shape. intuition congruence.
Qed.

Lemma same_shape_restore (img : ImageData) (c : Canvas) :
  same_shape c (putImageData img (clearRect c)).
Proof.
  unfold same_shape, putImageData, clearRect. cbn.
  rewrite length_imap, length_map. repeat split.
Qed.

Lemma same_shape_clearRect (c : Canvas) : same_shape c (clearRect c).
Proof. unfold same_shape, clearRect. cbn. rewrite length_map. repeat split. Qed.

Local Hint Resolve same_shape_restore same_shape_clearRect : core.

Lemma step_shape_kept (s : State) (ev : Event) :
  is_load ev = false -> shape_kept s (step cov s ev).
Proof.
  intros Hl. destruct s as [cr ir ct dr pr lp [st ix] bs er t sh bo hc sv].
  destruct ev; try discriminate Hl; unfold step, dispatch; unfold_handlers;
    unfold shape_kept; cbn;
    repeat (case_match; cbn in *); simplify_eq; auto.
Qed.

Lemma run_shape_kept (evs : list Event) (s : State) :
  forallb (fun ev => negb (is_load ev)) evs = true ->
  shape_kept s (run cov s evs).
Proof.
  revert s. induction evs as [|ev evs IH]; intros s H.
  - apply shape_kept_refl.
  - cbn in H. apply andb_true_iff in H as [Hev Hevs].
    apply negb_true_iff in Hev.
    eapply shape_kept_trans; [apply step_shape_kept, Hev|apply IH, Hevs].
Qed.

Lemma resetView_fields (s : State) :
  canvasRef (resetView s) = canvasRef s /\
  historyRef (resetView s) = historyRef s /\
  isDrawingRef (resetView s) = isDrawingRef s /\
  isPanningRef (resetView s) = isPanningRef s.
Proof. unfold resetView. repeat case_match; repeat split. Qed.

Lemma onload_settles (W H : nat) (s : State) (c : Canvas) :
  W <> 0%nat -> H <> 0%nat -> canvasRef s = Some c -> context2d c = true ->
  exists s0 : State,
    onload W H s = Normal s0 /\
    loaded W H s0 /\ clean s0 /\
    historyRef s0 = mkHistory [blank W H] 0 /\
    pixels s0 = data (blank W H) /\
    isDrawingRef s0 = isDrawingRef s /\ isPanningRef s0 = isPanningRef s.
Proof.
  intros HW HH Hc Hctx. unfold onload.
  set (s1 := match imageRef s with
             | Some _ => set_imageRef (Some (W, H)) s
             | None => s
             end).
  assert (Hs1 : canvasRef s1 = canvasRef s /\ isDrawingRef s1 = isDrawingRef s
                /\ isPanningRef s1 = isPanningRef s).
  { subst s1. destruct (imageRef s); repeat split. }
  destruct Hs1 as (Hc1 & Hd1 & Hp1). rewrite Hc1, Hc.
  cbn [set_height set_width context2d canvas_width canvas_height].
  rewrite Hctx. unfold getImageData.
  cbn [set_height set_width context2d canvas_width canvas_height bitmap].
  destruct (Nat.eqb_spec W 0); [contradiction|].
  destruct (Nat.eqb_spec H 0); [contradiction|].
  cbn [orb and_then]. eexists. split; [reflexivity|].
  match goal with |- context [resetView ?x] =>
    destruct (resetView_fields x) as (Hrc & Hrh & Hrd & Hrp) end.
  unfold loaded, clean, pixels. rewrite Hrc, Hrh, Hrd, Hrp. cbn.
  repeat split; try assumption.
  - eexists. split; [reflexivity|].
    repeat split; cbn; auto using length_replicate.
  - constructor; [|constructor].
    repeat split; cbn; auto using length_replicate.
  - lia.
  - eexists. split; reflexivity.
Qed.

Lemma undo_times_restores (W H : nat) (n : nat) (s : State) :
  W <> 0%nat -> loaded W H s -> clean s ->
  index (historyRef s) = Z.of_nat n ->
  exists s' : State,
    undo_times n s = Normal s' /\
    loaded W H s' /\ clean s' /\
    stack (historyRef s') = stack (historyRef s) /\
    index (historyRef s') = 0%Z.
Proof.
  intros HW. revert s. induction n as [|n IH]; intros s Hl Hcl Hix.
  - exists s. split; [reflexivity|]. split; [exact Hl|]. split; [exact Hcl|].
    split; [reflexivity|]. lia.
  - destruct Hl as ((c & Hc & Hs) & Hst & Hrange).
    destruct (lookup_lt_is_Some_2 (stack (historyRef s))
                (Z.to_nat (index (historyRef s) - 1))) as [img Himg]; [lia|].
    assert (Hok : entry_ok W H img).
    { eapply Forall_lookup_1; eassumption. }
    cbn [undo_times].
    rewrite (handleUndo_restores W H s c img HW Hc Hs Hok) by (lia || assumption).
    cbn [and_then].
    match goal with |- context [undo_times n ?x] => destruct (IH x) as
        (s' & Hu & Hl' & Hcl' & Hst' & Hix') end.
    + split; [|split; [exact Hst|cbn; lia]].
      exists (with_bitmap (data img) c). split; [reflexivity|].
      apply shaped_with_bitmap; [exact Hs|apply Hok].
    + exists img. split; [|reflexivity]. exact Himg.
    + cbn. lia.
    + exists s'. split; [exact Hu|]. split; [exact Hl'|]. split; [exact Hcl'|].
      split; [exact Hst'|exact Hix'].
Qed.

Lemma undo_loaded (W H : nat) (s : State) :
  W <> 0%nat -> loaded W H s -> (0 < index (historyRef s))%Z ->
  exists s' : State,
    handleUndo s = Normal s' /\
    loaded W H s' /\ clean s' /\
    stack (historyRef s') = stack (historyRef s) /\
    index (historyRef s') = (index (historyRef s) - 1)%Z /\
    canRedo (historyControls s') = true /\
    isDrawingRef s' = isDrawingRef s /\ isPanningRef s' = isPanningRef s.
Proof.
  intros HW ((c & Hc & Hs) & Hst & Hrange) Hpos.
  destruct (lookup_lt_is_Some_2 (stack (historyRef s))
              (Z.to_nat (index (historyRef s) - 1))) as [img Himg]; [lia|].
  assert (Hok : entry_ok W H img) by (eapply Forall_lookup_1; eassumption).
  eexists. split.
  { apply (handleUndo_restores W H s c img HW Hc Hs Hok Hpos Himg). }
  unfold loaded, clean, pixels. cbn.
  split; [split; [|split; [exact Hst|lia]]|].
  { exists (with_bitmap (data img) c). split; [reflexivity|].
    apply shaped_with_bitmap; [exact Hs|apply Hok]. }
  split; [exists img; split; [exact Himg|reflexivity]|].
  repeat split. apply Z.ltb_lt. lia.
Qed.

(** C5.  [saveHistory] keeps the entries up to the cursor, drops the
    ones after it, appends a snapshot of the live canvas and moves the
    cursor to that new last entry, so that nothing is left to redo.  The
    entry is a copy: painting on the canvas afterwards does not change
    it.  In particular, after a load, the gestures draw, draw, undo, draw
    leave the stack [blank; first; third]: the second stroke, which the
    undo had made redoable, is gone and [canRedo] is false. *)
Theorem saveHistory_truncates_and_copies :
  (forall (s : State) (c : Canvas),
     canvasRef s = Some c -> context2d c = true ->
     canvas_width c <> 0%nat -> canvas_height c <> 0%nat ->
     (-1 <= index (historyRef s)
         < Z.of_nat (length (stack (historyRef s))))%Z ->
     exists s' : State,
       saveHistory s = Normal s' /\
       stack (historyRef s') =
         take (Z.to_nat (index (historyRef s) + 1)) (stack (historyRef s))
           ++ [snapshot c] /\
       index (historyRef s') = (index (historyRef s) + 1)%Z /\
       index (historyRef s') =
         (Z.of_nat (length (stack (historyRef s'))) - 1)%Z /\
       canRedo (historyControls s') = false /\
       forall x1 y1 x2 y2 : Qc,
         stack (historyRef (drawLine cov s' x1 y1 x2 y2))
           !! Z.to_nat (index (historyRef s')) = Some (snapshot c)) /\
  (forall (W H : nat) (s : State) (c : Canvas)
          (d1 d2 d3 : PointerEvent) (m1 m2 m3 : list Event)
          (f1 f2 f3 : StrokeEnd),
     W <> 0%nat -> H <> 0%nat ->
     canvasRef s = Some c -> context2d c = true -> isPanningRef s = false ->
     well_formed (Draw d1 m1 f1) = true ->
     well_formed (Draw d2 m2 f2) = true ->
     well_formed (Draw d3 m3 f3) = true ->
     let s0 := step cov s (ImageLoad W H) in
     let s2 := run cov s0 (script [Draw d1 m1 f1; Draw d2 m2 f2]) in
     let s3 := step cov s2 ClickUndo in
     let s4 := run cov s3 (script [Draw d3 m3 f3]) in
     exists first second third : ImageData,
       stack (historyRef s2) = [blank W H; first; second] /\
       index (historyRef s3) = 1%Z /\
       canRedo (historyControls s3) = true /\
       stack (historyRef s4) = [blank W H; first; third] /\
       index (historyRef s4) = 2%Z /\
       canRedo (historyControls s4) = false).
Proof.
  split.
  - intros s c Hc Hctx Hw Hh Hix. eexists. split.
    { apply (saveHistory_push s c Hc Hctx Hw Hh). }
    rewrite slice0_take by lia.
    set (n := Z.to_nat (index (historyRef s) + 1)).
    assert (Hlen : length (take n (stack (historyRef s)) ++ [snapshot c])
                   = S n).
    { rewrite length_app, length_take_le by lia. cbn. lia. }
    split; [reflexivity|]. split; [cbn; rewrite Hlen; lia|].
    split; [reflexivity|]. split; [apply Z.ltb_irrefl|].
    intros x1 y1 x2 y2. rewrite drawLine_history. cbn. rewrite Hlen.
    replace (Z.to_nat (Z.of_nat (S n) - 1)) with
      (length (take n (stack (historyRef s))) + 0)%nat
      by (rewrite length_take_le by lia; lia).
    rewrite lookup_app_r by lia.
    replace (_ + 0 - _)%nat with 0%nat by lia. reflexivity.
  - intros W H s c d1 d2 d3 m1 m2 m3 f1 f2 f3 HW HH Hc Hctx Hp
      Hw1 Hw2 Hw3 s0 s2 s3 s4.
    cbn [well_formed] in Hw1, Hw2, Hw3.
    apply andb_true_iff in Hw1 as [Hb1 Hm1]. apply Z.eqb_eq in Hb1.
    apply andb_true_iff in Hw2 as [Hb2 Hm2]. apply Z.eqb_eq in Hb2.
    apply andb_true_iff in Hw3 as [Hb3 Hm3]. apply Z.eqb_eq in Hb3.
    destruct (onload_settles W H s c HW HH Hc Hctx)
      as (s0' & Hload & Hl0 & _ & Hh0 & _ & _ & Hp0).
    assert (Hs0 : s0 = s0') by (subst s0; unfold step; cbn; rewrite Hload; reflexivity).
    clearbody s0. subst s0'. rewrite Hp in Hp0.
    assert (Hs2 : s2 = run cov (run cov s0 (events (Draw d1 m1 f1)))
                         (events (Draw d2 m2 f2))).
    { subst s2. cbn [script]. rewrite app_nil_r, run_app. reflexivity. }
    assert (Hs4 : s4 = run cov s3 (events (Draw d3 m3 f3))).
    { subst s4. cbn [script]. rewrite app_nil_r. reflexivity. }
    clearbody s4 s2.
    destruct (draw_commits W H s0 d1 m1 f1 HW HH Hl0 Hp0 Hb1 Hm1)
      as (Hl1 & _ & (_ & Hp1 & _) & _ & Hix1 & a & Hst1).
    set (s1 := run cov s0 (events (Draw d1 m1 f1))) in *. clearbody s1.
    rewrite Hh0 in Hst1, Hix1. cbn in Hst1, Hix1.
    destruct (draw_commits W H s1 d2 m2 f2 HW HH Hl1 Hp1 Hb2 Hm2)
      as (Hl2 & _ & (_ & Hp2 & _) & _ & Hix2 & b & Hst2).
    rewrite <- Hs2 in *. clear Hs2.
    rewrite Hst1, Hix1 in Hst2. rewrite Hix1 in Hix2. cbn in Hst2, Hix2.
    destruct (undo_loaded W H s2 HW Hl2 ltac:(lia))
      as (s3' & Hu & Hl3 & _ & Hst3 & Hix3 & Hr3 & _ & Hp3).
    assert (Hs3 : s3 = s3') by (subst s3; unfold step; cbn; rewrite Hu; reflexivity).
    clearbody s3. subst s3'. rewrite Hp2 in Hp3.
    destruct (draw_commits W H s3 d3 m3 f3 HW HH Hl3 Hp3 Hb3 Hm3)
      as (_ & _ & _ & Hr4 & Hix4 & c3 & Hst4).
    rewrite <- Hs4 in *. clear Hs4.
    rewrite Hix3, Hix2 in Hix4. rewrite Hst3, Hix3, Hst2, Hix2 in Hst4.
    rewrite Hix2 in Hix3. cbn in Hst4, Hix4, Hix3.
    exists a, b, c3. repeat split; assumption.
Qed.

(** C6.  After a load, whatever committed draw and clear gestures
    follow, with passive events between and within them, undoing as many
    times as gestures were committed returns normally and leaves the live
    bitmap equal, pixel for pixel, to the blank snapshot recorded at
    load. *)
Theorem undo_all_restores_blank
    (W H : nat) (s : State) (c : Canvas) (gs : list Gesture) :
  W <> 0%nat -> H <> 0%nat ->
  canvasRef s = Some c -> context2d c = true ->
  isDrawingRef s = false -> isPanningRef s = false ->
  forallb well_formed gs = true ->
  let s0 := step cov s (ImageLoad W H) in
  let s1 := run cov s0 (script gs) in
  exists s2 : State,
    stack (historyRef s0) = [blank W H] /\
    pixels s0 = data (blank W H) /\
    index (historyRef s1) = Z.of_nat (committed gs) /\
    undo_times (committed gs) s1 = Normal s2 /\
    stack (historyRef s2) !! 0%nat = Some (blank W H) /\
    pixels s2 = data (blank W H).
Proof.
  intros HW HH Hc Hctx Hd Hp Hwf s0 s1.
  destruct (onload_settles W H s c HW HH Hc Hctx)
    as (s0' & Hload & Hl0 & Hcl0 & Hh0 & Hpx0 & Hd0 & Hp0).
  assert (Hs0 : s0 = s0') by (subst s0; unfold step; cbn; rewrite Hload; reflexivity).
  clearbody s0. subst s0'.
  assert (Hset : settled W H s0).
  { split; [exact Hl0|]. split; [exact Hcl0|].
    split; [congruence|]. split; [congruence|]. rewrite Hh0. reflexivity. }
  destruct (gestures_settled W H gs s0 HW HH Hset Hwf)
    as ((Hl1 & Hcl1 & _ & _ & Htip1) & ext & Hst1 & Hn1).
  fold s1 in Hl1, Hcl1, Htip1, Hst1. clearbody s1.
  rewrite Hh0 in Hst1. cbn in Hst1.
  assert (Hix1 : index (historyRef s1) = Z.of_nat (committed gs)).
  { rewrite Htip1, Hst1. cbn. lia. }
  destruct (undo_times_restores W H (committed gs) s1 HW Hl1 Hcl1 Hix1)
    as (s2 & Hu & _ & (img & Himg & Hdata) & Hst2 & Hix2).
  exists s2. rewrite Hh0. split; [reflexivity|]. split; [exact Hpx0|].
  split; [exact Hix1|]. split; [exact Hu|].
  rewrite Hix2, Hst2, Hst1 in Himg. cbn in Himg.
  rewrite Hst2, Hst1. split; [reflexivity|].
  rewrite <- Hdata. injection Himg as <-. reflexivity.
Qed.

End Gestures.


(** ** Shortcuts and gesture flags *)

Lemma handleRedo_restores (W H : nat) (s : State) (c : Canvas) (img : ImageData) :
  W <> 0%nat -> canvasRef s = Some c -> shaped W H c -> entry_ok W H img ->
  (index (historyRef s) < Z.of_nat (length (stack (historyRef s))) - 1)%Z ->
  stack (historyRef s) !! Z.to_nat (index (historyRef s) + 1) = Some img ->
  handleRedo s =
    Normal (updateHistoryControls
      (set_historyRef
         (mkHistory (stack (historyRef s)) (index (historyRef s) + 1))
         (set_canvasRef (Some (with_bitmap (data img) c)) s))).
Proof.
  intros HW Hc Hs Hi Hix Hl. unfold handleRedo, restoreEntry.
  destruct (Z.ltb_spec (index (historyRef s))
              (Z.of_nat (length (stack (historyRef s))) - 1)); [|lia].
  rewrite Hc, (proj1 Hs), Hl. cbn [and_then].
  rewrite (putImageData_same_size W H img c HW Hs Hi). reflexivity.
Qed.

Lemma shortcut_key (e : KeyboardEvent) (k : string) :
  (ctrlKey e || metaKey e) && String.eqb (key e) k = true ->
  k <> " "%string -> String.eqb (key e) " " = false.
Proof.
  intros H Hk. apply andb_true_iff in H as [_ H]. apply String.eqb_eq in H.
  rewrite H. apply String.eqb_neq, Hk.
Qed.

(** C2, amended.  The undo and redo shortcuts do not look at the gesture
    flags: with a stroke in progress, while panning and at rest alike,
    Ctrl/Cmd+Z runs undo and Ctrl/Cmd+Y runs redo.  In a loaded editor an
    undo with the cursor above [0] moves the cursor down by one and puts
    the entry found there on the canvas; a redo with the cursor below the
    last entry moves it up by one and does the same; both leave the
    drawing and panning flags as they were. *)
Theorem shortcuts_ignore_gesture_state (s : State) (e : KeyboardEvent) :
  (is_undo_shortcut e = true -> handleKeyDown s e = handleUndo s) /\
  (is_redo_shortcut e = true -> handleKeyDown s e = handleRedo s) /\
  (forall (W H : nat) (img : ImageData),
     W <> 0%nat -> loaded W H s ->
     is_undo_shortcut e = true ->
     (0 < index (historyRef s))%Z ->
     stack (historyRef s) !! Z.to_nat (index (historyRef s) - 1) = Some img ->
     exists s' : State,
       handleKeyDown s e = Normal s' /\
       index (historyRef s') = (index (historyRef s) - 1)%Z /\
       stack (historyRef s') = stack (historyRef s) /\
       pixels s' = data img /\
       isDrawingRef s' = isDrawingRef s /\
       isPanningRef s' = isPanningRef s) /\
  (forall (W H : nat) (img : ImageData),
     W <> 0%nat -> loaded W H s ->
     is_redo_shortcut e = true ->
     (index (historyRef s) < Z.of_nat (length (stack (historyRef s))) - 1)%Z ->
     stack (historyRef s) !! Z.to_nat (index (historyRef s) + 1) = Some img ->
     exists s' : State,
       handleKeyDown s e = Normal s' /\
       index (historyRef s') = (index (historyRef s) + 1)%Z /\
       stack (historyRef s') = stack (historyRef s) /\
       pixels s' = data img /\
       isDrawingRef s' = isDrawingRef s /\
       isPanningRef s' = isPanningRef s).
Proof.
  assert (Hz : is_undo_shortcut e = true -> handleKeyDown s e = handleUndo s).
  { intros Hk. unfold handleKeyDown.
    rewrite (shortcut_key e "z" Hk) by discriminate.
    unfold is_undo_shortcut in Hk. rewrite Hk. reflexivity. }
  assert (Hy : is_redo_shortcut e = true -> handleKeyDown s e = handleRedo s).
  { intros Hk. unfold handleKeyDown.
    rewrite (shortcut_key e "y" Hk) by discriminate.
    unfold is_redo_shortcut in Hk. rewrite Hk.
    apply andb_true_iff in Hk as [Hm Hk]. apply String.eqb_eq in Hk.
    rewrite Hk, Hm. reflexivity. }
  split; [exact Hz|]. split; [exact Hy|]. split.
  - intros W H img HW ((c & Hc & Hs) & Hst & Hix) Hk Hpos Himg.
    assert (Hok : entry_ok W H img) by (eapply Forall_lookup_1; eassumption).
    rewrite (Hz Hk), (handleUndo_restores W H s c img HW Hc Hs Hok Hpos Himg).
    eexists. split; [reflexivity|]. repeat split.
  - intros W H img HW ((c & Hc & Hs) & Hst & Hix) Hk Hpos Himg.
    assert (Hok : entry_ok W H img) by (eapply Forall_lookup_1; eassumption).
    rewrite (Hy Hk), (handleRedo_restores W H s c img HW Hc Hs Hok Hpos Himg).
    eexists. split; [reflexivity|]. repeat split.
Qed.

Section Panning.

Variable cov : LineJoin -> LineCap -> Qc -> Point -> Point -> nat -> nat -> Qc.

(** C3, amended.  The pan-modifier key is not held back by a stroke in
    progress: pressed while the panning flag is clear, it sets that flag
    and changes nothing else, so the drawing flag stays set.  While the
    panning flag is set and an anchor point is recorded, a pointer move
    paints nothing: canvas and history stay as they are, the drawing flag
    and the scale are kept, and the anchor becomes the pointer's screen
    position. *)
Theorem pan_key_during_stroke (s : State) (e : KeyboardEvent) :
  key e = " "%string ->
  isPanningRef s = false ->
  handleKeyDown s e = Normal (set_isPanningRef true s) /\
  forall (m : PointerEvent) (last : Point),
    lastPointRef s = Some last ->
    let s' := handlePointerMove cov (set_isPanningRef true s) m in
    canvasRef s' = canvasRef s /\
    historyRef s' = historyRef s /\
    isDrawingRef s' = isDrawingRef s /\
    isPanningRef s' = true /\
    scale (transform s') = scale (transform s) /\
    lastPointRef s' = Some (mkPoint (clientX m) (clientY m)).
Proof.
  intros Hk Hp. split.
  - unfold handleKeyDown. rewrite Hk, Hp. reflexivity.
  - intros m last Hlast s'. subst s'. unfold handlePointerMove.
    cbn. rewrite Hlast. cbn. repeat split.
Qed.

End Panning.

(** ** Saving *)

Section Saving.

Variable cov : LineJoin -> LineCap -> Qc -> Point -> Point -> nat -> nat -> Qc.

(** C4, amended.  Saving never fails: [handleSave] has no error path.
    Whenever the canvas element is mounted with a non-zero width
    and height, [handleSave] hands [onSave] the PNG encoding of the
    canvas at the canvas's own pixel size; a mounted canvas with a zero
    dimension gives the empty data URL instead; what is handed over
    does not depend on the view transform.  After a load of a [W] by [H]
    image, [W] and [H] not zero, and any events other than another
    load, the raster is [W] by [H] and holds the live mask bitmap.
    Before any load it is the canvas at its initial size, 300 by
    150. *)
Theorem handleSave_exports_canvas :
  (forall (s : State) (c : Canvas),
     canvasRef s = Some c ->
     canvas_width c <> 0%nat -> canvas_height c <> 0%nat ->
     handleSave s =
       onSave (Png (canvas_width c) (canvas_height c) (bitmap c)) s) /\
  (forall (s : State) (c : Canvas),
     canvasRef s = Some c ->
     canvas_width c = 0%nat \/ canvas_height c = 0%nat ->
     handleSave s = onSave NoData s) /\
  (forall (s : State) (t : Transform),
     saved (handleSave (setTransform t s)) = saved (handleSave s)) /\
  (forall (W H : nat) (s : State) (c : Canvas) (evs : list Event),
     W <> 0%nat -> H <> 0%nat ->
     canvasRef s = Some c -> context2d c = true ->
     forallb (fun ev => negb (is_load ev)) evs = true ->
     let s1 := run cov (step cov s (ImageLoad W H)) evs in
     saved (handleSave s1) = Png W H (pixels s1) :: saved s1 /\
     length (pixels s1) = (W * H)%nat) /\
  (forall container : DOMRect,
     handleSave (mounted container) =
       onSave (Png 300 150 (replicate (300 * 150) transparent))
         (mounted container)).
Proof.
  split; [|split; [|split; [|split]]].
  - intros s c Hc Hw Hh. unfold handleSave, toDataURL. rewrite Hc.
    destruct (Nat.eqb_spec (canvas_width c) 0); [contradiction|].
    destruct (Nat.eqb_spec (canvas_height c) 0); [contradiction|].
    reflexivity.
  - intros s c Hc Hz. unfold handleSave, toDataURL. rewrite Hc.
    destruct (Nat.eqb_spec (canvas_width c) 0); [reflexivity|].
    destruct (Nat.eqb_spec (canvas_height c) 0); [reflexivity|].
    destruct Hz; contradiction.
  - intros s t. unfold handleSave. cbn. destruct (canvasRef s); reflexivity.
  - intros W H s c evs HW HH Hc Hctx Hevs s1.
    destruct (onload_settles W H s c HW HH Hc Hctx)
      as (s0 & Hload & ((c0 & Hc0 & Hs0) & _) & _).
    assert (Hk : shape_kept s0 s1).
    { subst s1. unfold step. cbn [dispatch]. rewrite Hload. cbn [state_of].
      apply run_shape_kept, Hevs. }
    unfold shape_kept in Hk. rewrite Hc0 in Hk.
    destruct (canvasRef s1) as [c1|] eqn:Hc1; [|contradiction].
    destruct Hs0 as (Hx & Hw & Hh & Hlen).
    destruct Hk as (Hx1 & Hw1 & Hh1 & Hlen1).
    unfold handleSave, pixels, toDataURL. rewrite Hc1, Hw1, Hh1, Hw, Hh.
    destruct (Nat.eqb_spec W 0); [contradiction|].
    destruct (Nat.eqb_spec H 0); [contradiction|].
    split; [reflexivity|]. congruence.
  - intros container. reflexivity.
Qed.

End Saving.

(** * Concrete runs *)

(** C1 as stated fails.  At scale [4.8] a zoom-in asks for [5.28]; the
    clamp of the claim gives [5], which differs from [4.8], yet the
    handler leaves the scale at [4.8]: the request is rejected. *)
Lemma zoom_near_max_not_clamped :
  MIN_SCALE <= scale (transform zoomed_in) <= MAX_SCALE /\
  clamp (scale (transform zoomed_in) * wheelFactor wheel_in)
        MIN_SCALE MAX_SCALE = MAX_SCALE /\
  MAX_SCALE <> scale (transform zoomed_in) /\
  handleWheel zoomed_in wheel_in = Normal zoomed_in /\
  scale (transform (state_of (handleWheel zoomed_in wheel_in))) <>
    clamp (scale (transform zoomed_in) * wheelFactor wheel_in)
          MIN_SCALE MAX_SCALE.
Proof.
  assert (Hrej : handleWheel zoomed_in wheel_in = Normal zoomed_in).
  { apply handleWheel_rejected. vm_compute. reflexivity. }
  assert (Hclamp : clamp (scale (transform zoomed_in) * wheelFactor wheel_in)
                     MIN_SCALE MAX_SCALE = MAX_SCALE) by reflexivity.
  assert (Hne : MAX_SCALE <> scale (transform zoomed_in)).
  { intros H. apply (f_equal this) in H. vm_compute in H. discriminate H. }
  split; [split; apply Qcltb_ge; reflexivity|].
  split; [exact Hclamp|]. split; [exact Hne|]. split; [exact Hrej|].
  rewrite Hrej, Hclamp. cbn [state_of]. intros H. apply Hne. symmetry. exact H.
Qed.

(** The rounding decides the guard.  In a view fitted at 22% the
    stored scale is the double nearest to [0.22]; a zoom-out asks for
    the double [0.19999999999999998], below the bound, and is rejected,
    where exact arithmetic stays above [0.2] and accepts. *)
Lemma zoom_out_at_22_percent :
  handleWheelIn binary64 fitted_22 wheel_out = Normal fitted_22 /\
  this (requestedScaleIn binary64 (transform fitted_22) wheel_out)
    = (7205759403792793 # 36028797018963968)%Q /\
  zoomRejectedIn unrounded (transform fitted_22) wheel_out = false.
Proof.
  split; [|split; vm_compute; reflexivity].
  unfold handleWheelIn.
  assert (H : zoomRejectedIn binary64 (transform fitted_22) wheel_out = true)
    by (vm_compute; reflexivity).
  rewrite H. reflexivity.
Qed.

(** An instance, with the code's doubles: the zoom-out rejected at 22%,
    and a zoom-in accepted at 100%, after which the scale is the double
    nearest to [1.1]. *)
Lemma handleWheel_rejects_or_anchors_witness :
  rounds binary64 /\
  containerRef fitted_22 = Some container0 /\
  handleWheelIn binary64 fitted_22 wheel_out = Normal fitted_22 /\
  containerRef editing = Some container0 /\
  this (scale (transform (state_of (handleWheelIn binary64 editing wheel_in))))
    = (2476979795053773 # 2251799813685248)%Q /\
  exists before after : Point,
    getTransformedPointIn binary64 editing (wheelX wheel_in) (wheelY wheel_in)
      = Some before /\
    getTransformedPointIn binary64
      (state_of (handleWheelIn binary64 editing wheel_in))
      (wheelX wheel_in) (wheelY wheel_in) = Some after /\
    within (offset_tolerance
            * (Qcabs.Qcabs (wheelX wheel_in - rect_left container0)
               + Qcabs.Qcabs (offsetX (transform editing)))
            / scale (transform editing))
           (px after) (px before).
Proof.
  split; [exact rounds_binary64|]. split; [reflexivity|]. split.
  - apply (handleWheel_rejects_or_anchors binary64 fitted_22 wheel_out
             container0 rounds_binary64 eq_refl).
    left. vm_compute. reflexivity.
  - assert (Hc : containerRef editing = Some container0)
      by (vm_compute; reflexivity).
    split; [exact Hc|].
    destruct (handleWheel_rejects_or_anchors binary64 editing wheel_in
                container0 rounds_binary64 Hc) as [_ Hacc].
    destruct Hacc as (Hw & before & after & Hb & Ha & HX & _).
    { split; vm_compute; intros H; discriminate H. }
    split.
    + rewrite Hw. vm_compute. reflexivity.
    + exists before, after. split; [exact Hb|]. split; [exact Ha|exact HX].
Defined.

(** With the code's doubles the round trip is not exact: a zoom-in and
    a zoom-out at container point [(399, 399)] bring the offset
    [199] back as [198.99999999999997]. *)
Lemma round_trip_rounded :
  let s2 := state_of (handleWheelIn binary64 editing wheel_in_corner
                      >>= (fun s1 => handleWheelIn binary64 s1 wheel_out_corner)) in
  this (offsetX (transform editing)) = 199%Q /\
  this (scale (transform s2)) = 1%Q /\
  this (offsetX (transform s2)) = (7001690045677567 # 35184372088832)%Q.
Proof. vm_compute. repeat split. Qed.

(** An instance, with the code's doubles: that zoom-in and zoom-out. *)
Lemma zoom_round_trip_witness :
  rounds binary64 /\
  containerRef editing = Some container0 /\
  zoomRejectedIn binary64 (transform editing) wheel_in_corner = false /\
  zoomRejectedIn binary64
    (transform (state_of (handleWheelIn binary64 editing wheel_in_corner)))
    wheel_out_corner = false /\
  exists t2 : Transform,
    handleWheelIn binary64 editing wheel_in_corner
      >>= (fun s1 => handleWheelIn binary64 s1 wheel_out_corner)
      = Normal (setTransform t2 editing) /\
    within (offset_tolerance
            * (Qcabs.Qcabs (wheelX wheel_in_corner - rect_left container0)
               + Qcabs.Qcabs (offsetX (transform editing))))
           (offsetX t2) (offsetX (transform editing)).
Proof.
  assert (Hc : containerRef editing = Some container0)
    by (vm_compute; reflexivity).
  assert (H1 : zoomRejectedIn binary64 (transform editing) wheel_in_corner
               = false) by (vm_compute; reflexivity).
  assert (H2 : zoomRejectedIn binary64
                 (transform (state_of (handleWheelIn binary64 editing
                                         wheel_in_corner)))
                 wheel_out_corner = false) by (vm_compute; reflexivity).
  split; [exact rounds_binary64|]. split; [exact Hc|].
  split; [exact H1|]. split; [exact H2|].
  destruct (zoom_round_trip binary64 editing container0
              wheel_in_corner wheel_out_corner rounds_binary64 Hc
              eq_refl eq_refl eq_refl H1 H2)
    as (t2 & Hrun & _ & HX & _).
  exists t2. split; [exact Hrun|exact HX].
Defined.

(** An instance: the secondary button pressed over the image. *)
Lemma handlePointerDown_other_button_witness :
  button (mkPointer 2 (Qc_of_Z 199) (Qc_of_Z 199)) <> 0%Z /\
  handlePointerDown endpoint_coverage editing
    (mkPointer 2 (Qc_of_Z 199) (Qc_of_Z 199)) = editing.
Proof.
  assert (H : button (mkPointer 2 (Qc_of_Z 199) (Qc_of_Z 199)) <> 0%Z)
    by (cbn; lia).
  split; [exact H|].
  apply (handlePointerDown_other_button endpoint_coverage editing _ H).
Defined.

(** An instance: right after a load the cursor is at both ends. *)
Lemma history_boundaries_witness :
  index (historyRef editing) = 0%Z /\
  handleUndo editing = Normal editing /\
  handleRedo editing = Normal editing /\
  canUndo (historyControls editing) = false /\
  canRedo (historyControls editing) = false.
Proof.
  destruct (history_boundaries endpoint_coverage editing) as (Hu & Hr & Hc).
  split; [reflexivity|]. split; [apply Hu; reflexivity|].
  split; [apply Hr; reflexivity|].
  destruct (Hc container0 [ImageLoad 2 2] eq_refl) as [-> ->].
  split; reflexivity.
Defined.

(** C2 as stated fails.  With a stroke in progress, and likewise with a
    pan in progress, Ctrl+Z moves the history cursor from [1] to [0] and
    replaces the live bitmap by the blank entry. *)
Lemma undo_shortcut_mid_gesture :
  (isDrawingRef mid_stroke = true /\ isPanningRef mid_stroke = false /\
   index (historyRef mid_stroke) = 1%Z /\
   index (historyRef (step endpoint_coverage mid_stroke (KeyDown ctrl_z)))
     = 0%Z /\
   alphas mid_stroke = [1 # 2; 0; 0; 1 # 2]%Q /\
   alphas (step endpoint_coverage mid_stroke (KeyDown ctrl_z))
     = [0; 0; 0; 0]%Q) /\
  (isPanningRef mid_pan = true /\
   lastPointRef mid_pan = Some (mkPoint (Qc_of_Z 200) (Qc_of_Z 200)) /\
   index (historyRef mid_pan) = 1%Z /\
   index (historyRef (step endpoint_coverage mid_pan (KeyDown ctrl_z)))
     = 0%Z /\
   alphas mid_pan = [1 # 2; 0; 0; 0]%Q /\
   alphas (step endpoint_coverage mid_pan (KeyDown ctrl_z))
     = [0; 0; 0; 0]%Q).
Proof. vm_compute. repeat split. Qed.

(** An instance: Ctrl+Z with the second stroke in progress. *)
Lemma shortcuts_ignore_gesture_state_witness :
  is_undo_shortcut ctrl_z = true /\
  isDrawingRef mid_stroke = true /\
  loaded 2 2 mid_stroke /\
  exists s' : State,
    handleKeyDown mid_stroke ctrl_z = Normal s' /\
    index (historyRef s') = 0%Z /\
    pixels s' = data (blank 2 2) /\
    isDrawingRef s' = true.
Proof.
  assert (Hl : loaded 2 2 mid_stroke).
  { vm_compute. split; [|split].
    - eexists. split; [reflexivity|]. repeat split.
    - repeat constructor.
    - split; [discriminate|reflexivity]. }
  assert (Hd0 : isDrawingRef mid_stroke = true) by (vm_compute; reflexivity).
  assert (Hi0 : (0 < index (historyRef mid_stroke))%Z)
    by (vm_compute; reflexivity).
  assert (He0 : stack (historyRef mid_stroke)
                  !! Z.to_nat (index (historyRef mid_stroke) - 1)
                = Some (blank 2 2)) by (vm_compute; reflexivity).
  assert (Hi1 : (index (historyRef mid_stroke) - 1 = 0)%Z)
    by (vm_compute; reflexivity).
  split; [reflexivity|]. split; [exact Hd0|]. split; [exact Hl|].
  destruct (shortcuts_ignore_gesture_state mid_stroke ctrl_z)
    as (_ & _ & Hundo & _).
  destruct (Hundo 2%nat 2%nat (blank 2 2) ltac:(discriminate) Hl eq_refl
              Hi0 He0) as (s' & Hk & Hix & _ & Hpx & Hd & _).
  exists s'. split; [exact Hk|]. split; [congruence|]. split; [exact Hpx|].
  congruence.
Defined.

(** C3 as stated fails.  With the first stroke in progress, pressing
    the pan-modifier key sets the panning flag.  The pointer move that
    follows paints nothing and shifts the view, whereas without the key
    press the same move paints the pixel under the pointer. *)
Lemma pan_key_mid_stroke_takes_over :
  let pressed := step endpoint_coverage first_stroke (KeyDown space) in
  let move := PointerMove (primary 200 200) in
  isDrawingRef first_stroke = true /\ isPanningRef first_stroke = false /\
  isPanningRef pressed = true /\ pressed <> first_stroke /\
  alphas pressed = [1 # 2; 0; 0; 0]%Q /\
  alphas (step endpoint_coverage pressed move) = [1 # 2; 0; 0; 0]%Q /\
  transform (step endpoint_coverage pressed move) <> transform pressed /\
  alphas (step endpoint_coverage first_stroke move) = [3 # 4; 0; 0; 1 # 2]%Q.
Proof.
  cbv zeta. split; [reflexivity|]. split; [reflexivity|].
  split; [reflexivity|]. split.
  { intros H. apply (f_equal isPanningRef) in H. vm_compute in H.
    discriminate H. }
  split; [vm_compute; reflexivity|]. split; [vm_compute; reflexivity|].
  split; [|vm_compute; reflexivity].
  intros H. apply (f_equal (fun t => this (offsetX t))) in H.
  vm_compute in H. discriminate H.
Qed.

(** An instance: Space pressed with the first stroke in progress. *)
Lemma pan_key_during_stroke_witness :
  key space = " "%string /\
  isPanningRef first_stroke = false /\
  isDrawingRef first_stroke = true /\
  handleKeyDown first_stroke space = Normal (set_isPanningRef true first_stroke)
  /\ canvasRef (handlePointerMove endpoint_coverage
                  (set_isPanningRef true first_stroke) (primary 200 200))
     = canvasRef first_stroke.
Proof.
  destruct (pan_key_during_stroke endpoint_coverage first_stroke space
              eq_refl eq_refl) as [Hk Hm].
  split; [reflexivity|]. split; [reflexivity|]. split; [reflexivity|].
  split; [exact Hk|].
  apply (Hm (primary 200 200) (mkPoint 0 0)). reflexivity.
Defined.

(** C4 as stated fails.  Before any load the history is empty and a
    save does not fail: it hands the host the PNG of the canvas at its
    initial 300 by 150 size. *)
Lemma save_before_load_exports :
  historyRef (mounted container0) = mkHistory [] (-1) /\
  handleSave (mounted container0) =
    onSave (Png 300 150 (replicate (300 * 150) transparent))
      (mounted container0) /\
  handleSave (mounted container0) <> mounted container0.
Proof.
  split; [reflexivity|]. split; [reflexivity|].
  intros H. apply (f_equal (fun s => length (saved s))) in H.
  discriminate H.
Qed.

(** An instance: a save after a load and four gestures, and a save
    after the load of an image without width. *)
Lemma handleSave_exports_canvas_witness :
  canvasRef (mounted container0) = Some default_canvas /\
  context2d default_canvas = true /\
  (exists px : list Pixel,
     saved (handleSave (run endpoint_coverage editing (script gestures0)))
       = [Png 2 2 px] /\
     length px = 4%nat) /\
  canvasRef (step endpoint_coverage (mounted container0) (ImageLoad 0 5))
    = Some (mkCanvas 0 5 [] true) /\
  saved (handleSave
           (step endpoint_coverage (mounted container0) (ImageLoad 0 5)))
    = [NoData].
Proof.
  split; [reflexivity|]. split; [reflexivity|].
  destruct (handleSave_exports_canvas endpoint_coverage)
    as (_ & Hzero & _ & Hload & _).
  split.
  - destruct (Hload 2%nat 2%nat (mounted container0) default_canvas
                (script gestures0)) as [Hs Hlen].
    + discriminate.
    + discriminate.
    + reflexivity.
    + reflexivity.
    + reflexivity.
    + eexists. split; [exact Hs|exact Hlen].
  - assert (Hc : canvasRef (step endpoint_coverage (mounted container0)
                              (ImageLoad 0 5))
                 = Some (mkCanvas 0 5 [] true)) by (vm_compute; reflexivity).
    split; [exact Hc|].
    rewrite (Hzero _ _ Hc (or_introl eq_refl)). reflexivity.
Defined.

(** An instance: erasing over the blank mask of a fresh load. *)
Lemma erase_is_binary_witness :
  canvasRef editing = Some (mkCanvas 2 2 (replicate 4 transparent) true) /\
  pixels (drawLine endpoint_coverage (setIsErasing true editing) 0 0 1 1)
    !! 1%nat = Some transparent.
Proof.
  assert (Hc : canvasRef editing
               = Some (mkCanvas 2 2 (replicate 4 transparent) true))
    by (vm_compute; reflexivity).
  split; [exact Hc|].
  destruct (erase_is_binary endpoint_coverage editing _ 0 0 1 1 Hc eq_refl)
    as (_ & _ & Hblank & _).
  apply Hblank. reflexivity.
Defined.

(** An instance: a push right after a load, and the scenario with three
    dots. *)
Lemma saveHistory_truncates_and_copies_witness :
  (exists s' : State,
     saveHistory editing = Normal s' /\
     index (historyRef s') = 1%Z /\
     canRedo (historyControls s') = false) /\
  canRedo (historyControls
    (run endpoint_coverage
       (step endpoint_coverage
          (run endpoint_coverage
             (step endpoint_coverage (mounted container0) (ImageLoad 2 2))
             (script [Draw (primary 199 199) [] EndUp;
                      Draw (primary 200 200) [] EndUp]))
          ClickUndo)
       (script [Draw (primary 200 199) [] EndLeave]))) = false.
Proof.
  destruct (saveHistory_truncates_and_copies endpoint_coverage) as [Hpush Hscn].
  split.
  - assert (Hc : canvasRef editing
                 = Some (mkCanvas 2 2 (replicate 4 transparent) true))
      by (vm_compute; reflexivity).
    assert (Hi : index (historyRef editing) = 0%Z) by (vm_compute; reflexivity).
    assert (Hn : length (stack (historyRef editing)) = 1%nat)
      by (vm_compute; reflexivity).
    destruct (Hpush editing _ Hc eq_refl ltac:(discriminate) ltac:(discriminate))
      as (s' & Hs & _ & Hix & _ & Hr & _).
    + rewrite Hi, Hn. lia.
    + exists s'. split; [exact Hs|]. split; [|exact Hr].
      rewrite Hix, Hi. reflexivity.
  - destruct (Hscn 2%nat 2%nat (mounted container0) default_canvas
                (primary 199 199) (primary 200 200) (primary 200 199)
                [] [] [] EndUp EndUp EndLeave
                ltac:(discriminate) ltac:(discriminate)
                eq_refl eq_refl eq_refl eq_refl eq_refl eq_refl)
      as (a & b & c & _ & _ & _ & _ & _ & Hr).
    exact Hr.
Defined.

(** An instance: two strokes and a clear, undone three times. *)
Lemma undo_all_restores_blank_witness :
  forallb well_formed gestures0 = true /\
  committed gestures0 = 3%nat /\
  exists s2 : State,
    undo_times 3
      (run endpoint_coverage
         (step endpoint_coverage (mounted container0) (ImageLoad 2 2))
         (script gestures0)) = Normal s2 /\
    pixels s2 = data (blank 2 2).
Proof.
  split; [reflexivity|]. split; [reflexivity|].
  destruct (undo_all_restores_blank endpoint_coverage 2 2 (mounted container0)
              default_canvas gestures0
              ltac:(discriminate) ltac:(discriminate)
              eq_refl eq_refl eq_refl eq_refl eq_refl)
    as (s2 & _ & _ & _ & Hu & _ & Hpx).
  exists s2. split; [exact Hu|exact Hpx].
Defined.

(** * Further properties of the editor *)

(** ** Order on the rationals *)

Lemma Qcmin_le_l (p q : Qc) : Qcmin p q <= p.
Proof.
  unfold Qcmin. destruct (Qcltb q p) eqn:E.
  - apply Qclt_le_weak, Qcltb_lt, E.
  - apply Qcle_refl.
Qed.

Lemma Qcmin_le_r (p q : Qc) : Qcmin p q <= q.
Proof.
  unfold Qcmin. destruct (Qcltb q p) eqn:E.
  - apply Qcle_refl.
  - apply Qcltb_ge, E.
Qed.

Lemma Qcmin_glb (c p q : Qc) : c <= p -> c <= q -> c <= Qcmin p q.
Proof. intros Hp Hq. unfold Qcmin. destruct (Qcltb q p); assumption. Qed.

Lemma Qc_of_nat_pos (n : nat) : n <> 0%nat -> 0 < Qc_of_nat n.
Proof.
  intros Hn. unfold Qc_of_nat. rewrite <- Z2Qc_inj_0.
  apply (proj1 (Z2Qc_inj_lt 0 (Z.of_nat n))). lia.
Qed.

Lemma Qclt_neq_0 (x : Qc) : 0 < x -> x <> 0.
Proof. intros H ->. apply (Qclt_not_eq _ _ H). reflexivity. Qed.

Lemma Qcle_div_l (a b c : Qc) : 0 < c -> a <= b / c -> c * a <= b.
Proof.
  intros Hc H. rewrite <- (Qcmult_div_r b c) by (apply Qclt_neq_0, Hc).
  apply Qcmult_le_mono_pos_l; assumption.
Qed.

Lemma Qcle_div_r (a b c : Qc) : 0 < c -> c * a <= b -> a <= b / c.
Proof.
  intros Hc H. apply (Qcmult_le_mono_pos_l _ _ c Hc).
  rewrite Qcmult_div_r by (apply Qclt_neq_0, Hc). exact H.
Qed.

Lemma Qc_half_nonneg (a b : Qc) : b <= a -> 0 <= (a - b) / 2.
Proof.
  intros H. unfold Qcdiv. apply Qcmult_nonneg_nonneg.
  - unfold Qcminus. apply Qcle_minus_iff in H. exact H.
  - apply Qclt_le_weak, Qcinv_pos. reflexivity.
Qed.

(** ** Fitting the view *)

Lemma resetView_transform (s : State) (rect : DOMRect) (nw nh : nat) :
  containerRef s = Some rect -> imageRef s = Some (nw, nh) ->
  nw <> 0%nat -> nh <> 0%nat ->
  let k := Qcmin (Qcmin (rect_width rect / Qc_of_nat nw)
                        (rect_height rect / Qc_of_nat nh)) 1 in
  resetView s =
    setTransform
      (mkTransform k ((rect_width rect - Qc_of_nat nw * k) / 2)
                     ((rect_height rect - Qc_of_nat nh * k) / 2)) s.
Proof.
  intros Hc Hi Hw Hh. unfold resetView. rewrite Hc, Hi.
  destruct (Nat.eqb_spec nw 0); [contradiction|].
  destruct (Nat.eqb_spec nh 0); [contradiction|]. reflexivity.
Qed.

Lemma resetView_margins (s : State) (rect : DOMRect) (nw nh : nat) :
  containerRef s = Some rect -> imageRef s = Some (nw, nh) ->
  nw <> 0%nat -> nh <> 0%nat ->
  let t := transform (resetView s) in
  scale t <= 1 /\
  Qc_of_nat nw * scale t <= rect_width rect /\
  Qc_of_nat nh * scale t <= rect_height rect.
Proof.
  intros Hc Hi Hw Hh.
  rewrite (resetView_transform s rect nw nh Hc Hi Hw Hh). cbn.
  set (k := Qcmin _ 1).
  assert (Hk1 : k <= 1) by apply Qcmin_le_r.
  assert (Hkw : Qc_of_nat nw * k <= rect_width rect).
  { apply Qcle_div_l; [apply Qc_of_nat_pos, Hw|].
    eapply Qcle_trans; [apply Qcmin_le_l|apply Qcmin_le_l]. }
  assert (Hkh : Qc_of_nat nh * k <= rect_height rect).
  { apply Qcle_div_l; [apply Qc_of_nat_pos, Hh|].
    eapply Qcle_trans; [apply Qcmin_le_l|apply Qcmin_le_r]. }
  split; [exact Hk1|]. split; [exact Hkw|exact Hkh].
Qed.

(** X2.  Resetting the view shows the image at 100% exactly when the
    image is no larger than the container in both directions. *)
Theorem resetView_full_size (s : State) (rect : DOMRect) (nw nh : nat) :
  containerRef s = Some rect -> imageRef s = Some (nw, nh) ->
  nw <> 0%nat -> nh <> 0%nat ->
  scale (transform (resetView s)) = 1 <->
  Qc_of_nat nw <= rect_width rect /\ Qc_of_nat nh <= rect_height rect.
Proof.
  intros Hc Hi Hw Hh. split.
  - intros H1.
    destruct (resetView_margins s rect nw nh Hc Hi Hw Hh) as (_ & Hkw & Hkh).
    rewrite H1, !Qcmult_1_r in *. split; assumption.
  - intros [Hcw Hch].
    rewrite (resetView_transform s rect nw nh Hc Hi Hw Hh). cbn.
    apply Qcle_antisym; [apply Qcmin_le_r|].
    apply Qcmin_glb; [|apply Qcle_refl].
    apply Qcmin_glb; (apply Qcle_div_r; [apply Qc_of_nat_pos; assumption|]);
      rewrite Qcmult_1_r; assumption.
Qed.

(** ** Panning *)


Section Pan.

Variable cov : LineJoin -> LineCap -> Qc -> Point -> Point -> nat -> nat -> Qc.



End Pan.

(** ** Zoom limits *)

Lemma inv_zoomFactor_le : / zoomFactor <= zoomFactor.
Proof. apply Qcltb_ge. reflexivity. Qed.

(** X5.  A view whose scale is so small that even one zoom-in step
    stays below [MIN_SCALE] cannot be zoomed at all: the wheel and both
    zoom buttons leave the state as it is. *)
Theorem zoom_stuck_below_minimum (s : State) :
  0 <= scale (transform s) ->
  scale (transform s) * zoomFactor < MIN_SCALE ->
  (forall e : WheelEvent, handleWheel s e = Normal s) /\
  (forall d : ZoomDirection, handleZoom d s = Normal s).
Proof.
  intros H0 Hlow.
  assert (Hw : forall e, handleWheel s e = Normal s).
  { intros e. apply handleWheel_rejected, zoomRejected_true. left.
    rewrite requestedScale_factor. unfold wheelFactor.
    destruct (Qcltb (deltaY e) 0); [exact Hlow|].
    eapply Qcle_lt_trans; [|exact Hlow].
    apply Qcmult_le_mono_nonneg_l; [exact H0|apply inv_zoomFactor_le]. }
  split; [exact Hw|]. intros d. unfold handleZoom.
  destruct (containerRef s); [apply Hw|reflexivity].
Qed.

Section ZoomBounds.

Variable cov : LineJoin -> LineCap -> Qc -> Point -> Point -> nat -> nat -> Qc.

Lemma handleWheel_scale (s : State) (e : WheelEvent) :
  scale_in_bounds s -> scale_in_bounds (state_of (handleWheel s e)).
Proof.
  intros Hb. unfold handleWheel.
  destruct (Qcltb _ _ || Qcltb _ _) eqn:E; [exact Hb|].
  destruct (containerRef s); [|exact Hb].
  apply zoomRejected_false in E. exact E.
Qed.

Lemma step_scale (s : State) (ev : Event) :
  keeps_view ev = true -> scale_in_bounds s ->
  scale_in_bounds (step cov s ev).
Proof.
  intros Hv Hb.
  destruct ev; try discriminate Hv;
    try (apply handleWheel_scale; exact Hb).
  all: try (unfold step, dispatch, handleZoom;
            destruct (containerRef s); [apply handleWheel_scale|]; exact Hb).
  all: revert Hb; unfold scale_in_bounds;
    destruct s as [cr ir ct dr pr lp [st ix] bs er t sh bo hc sv];
    unfold step, dispatch; unfold_handlers; cbn;
    repeat (case_match; cbn); auto.
Qed.

(** X6.  Once the scale is within [MIN_SCALE, MAX_SCALE] it stays
    there, whatever is drawn, panned, zoomed, undone or typed, until the
    view is reset by a resize, the reset button or a load. *)
Theorem scale_stays_in_bounds (s : State) (evs : list Event) :
  scale_in_bounds s ->
  forallb keeps_view evs = true ->
  scale_in_bounds (run cov s evs).
Proof.
  revert s. induction evs as [|ev evs IH]; intros s Hb Hv; [exact Hb|].
  cbn in Hv. apply andb_true_iff in Hv as [Hev Hevs].
  apply (IH (step cov s ev)); [apply step_scale; assumption|exact Hevs].
Qed.

End ZoomBounds.

(** ** How the history moves *)

Section HistoryMoves.

Variable cov : LineJoin -> LineCap -> Qc -> Point -> Point -> nat -> nat -> Qc.

Local Hint Constructors history_move : core.

Lemma saveHistory_move (s : State) :
  history_move (historyRef s) (historyRef (state_of (saveHistory s))).
Proof.
  unfold saveHistory. repeat case_match; cbn; auto.
Qed.

Lemma handleUndo_move (s : State) :
  history_move (historyRef s) (historyRef (state_of (handleUndo s))).
Proof.
  unfold handleUndo, restoreEntry.
  destruct (Z.ltb_spec 0 (index (historyRef s))); [|apply move_none].
  repeat case_match; cbn; auto.
Qed.

Lemma handleRedo_move (s : State) :
  history_move (historyRef s) (historyRef (state_of (handleRedo s))).
Proof.
  unfold handleRedo, restoreEntry.
  destruct (Z.ltb_spec (index (historyRef s))
              (Z.of_nat (length (stack (historyRef s))) - 1));
    [|apply move_none].
  repeat case_match; cbn; auto.
Qed.

Lemma step_moves_history (s : State) (ev : Event) :
  history_move (historyRef s) (historyRef (step cov s ev)).
Proof.
  destruct ev; unfold step, dispatch;
    try apply handleUndo_move; try apply handleRedo_move.
  12-16: apply move_none.
  - (* PointerDown *)
    unfold handlePointerDown, drawLine. repeat case_match; cbn; auto.
  - (* PointerMove *)
    unfold handlePointerMove, drawLine. repeat case_match; cbn; auto.
  - (* PointerUp *)
    unfold handlePointerUp. destruct (isDrawingRef s); [|apply move_none].
    pose proof (saveHistory_move s) as H.
    destruct (saveHistory s); exact H.
  - (* PointerLeave *)
    unfold handlePointerUp. destruct (isDrawingRef s); [|apply move_none].
    pose proof (saveHistory_move s) as H.
    destruct (saveHistory s); exact H.
  - (* Wheel *)
    unfold handleWheel. repeat case_match; cbn; auto.
  - (* KeyDown *)
    unfold handleKeyDown. repeat case_match;
      try apply handleUndo_move; try apply handleRedo_move; apply move_none.
  - (* KeyUp *)
    unfold handleKeyUp. case_match; apply move_none.
  - (* WindowResize *)
    cbn. rewrite (proj1 (proj2 (resetView_fields s))). apply move_none.
  - (* ImageLoad *)
    unfold onload.
    repeat case_match; cbn;
      rewrite ?(fun x => proj1 (proj2 (resetView_fields x))); cbn; auto.
  - (* ClickZoom *)
    unfold handleZoom, handleWheel. repeat case_match; cbn; auto.
  - (* ClickResetView *)
    cbn. rewrite (proj1 (proj2 (resetView_fields s))). apply move_none.
  - (* ClickClear *)
    unfold handleClear. repeat case_match; try apply move_none.
    match goal with |- context [saveHistory ?x] =>
      apply (saveHistory_move x) end.
  - (* ClickSave *)
    unfold handleSave. case_match; apply move_none.
Qed.

(** X7.  An event changes the history in one of four ways only, or not
    at all: it pushes one snapshot after cutting the entries behind the
    cursor, moves the cursor one entry down or one entry up inside the
    stack, or replaces the whole history by a single entry.  Apart from
    that replacement, entries are never edited or reordered. *)
Theorem step_history_move (s : State) (ev : Event) :
  history_move (historyRef s) (historyRef (step cov s ev)).
Proof. exact (step_moves_history s ev). Qed.

Lemma cursor_ok_move (h h' : History) :
  history_move h h' -> cursor_ok h -> cursor_ok h'.
Proof.
  intros Hm Hok. destruct Hm; [exact Hok|right; cbn..].
  - rewrite length_app. cbn. lia.
  - destruct Hok as [[_ Hi]|Hi]; lia.
  - destruct Hok as [[_ Hi]|Hi]; lia.
  - lia.
Qed.

(** X8.  In every state the component reaches from its mounted state,
    the history cursor is [-1] on an empty stack and otherwise points at
    an entry of the stack. *)
Theorem cursor_stays_in_stack (container : DOMRect) (evs : list Event) :
  cursor_ok (historyRef (run cov (mounted container) evs)).
Proof.
  assert (H : forall s, cursor_ok (historyRef s) ->
                        cursor_ok (historyRef (run cov s evs))).
  { induction evs as [|ev evs IH]; intros s Hs; [exact Hs|].
    apply (IH (step cov s ev)).
    eapply cursor_ok_move; [apply step_moves_history|exact Hs]. }
  apply H. left. split; reflexivity.
Qed.

End HistoryMoves.

(** ** Exceptions *)

Section NoThrow.

Variable cov : LineJoin -> LineCap -> Qc -> Point -> Point -> nat -> nat -> Qc.

Lemma saveHistory_returns (s : State) (c : Canvas) :
  canvasRef s = Some c -> canvas_width c <> 0%nat -> canvas_height c <> 0%nat ->
  saveHistory s = Normal (state_of (saveHistory s)).
Proof.
  intros Hc Hw Hh. unfold saveHistory, getImageData. rewrite Hc.
  destruct (Nat.eqb_spec (canvas_width c) 0); [contradiction|].
  destruct (Nat.eqb_spec (canvas_height c) 0); [contradiction|].
  destruct (context2d c); reflexivity.
Qed.

Lemma handleUndo_returns (s : State) :
  cursor_ok (historyRef s) -> handleUndo s = Normal (state_of (handleUndo s)).
Proof.
  intros Hok. unfold handleUndo, restoreEntry.
  destruct (Z.ltb_spec 0 (index (historyRef s))) as [Hpos|]; [|reflexivity].
  destruct Hok as [[_ Hi]|Hi]; [lia|].
  destruct (lookup_lt_is_Some_2 (stack (historyRef s))
              (Z.to_nat (index (historyRef s) - 1))) as [img ->]; [lia|].
  repeat case_match; reflexivity.
Qed.

Lemma handleRedo_returns (s : State) :
  cursor_ok (historyRef s) -> handleRedo s = Normal (state_of (handleRedo s)).
Proof.
  intros Hok. unfold handleRedo, restoreEntry.
  destruct (Z.ltb_spec (index (historyRef s))
              (Z.of_nat (length (stack (historyRef s))) - 1)) as [Hlt|];
    [|reflexivity].
  assert (Hge : (-1 <= index (historyRef s))%Z)
    by (destruct Hok as [[_ Hi]|Hi]; lia).
  destruct (lookup_lt_is_Some_2 (stack (historyRef s))
              (Z.to_nat (index (historyRef s) + 1))) as [img ->]; [lia|].
  repeat case_match; reflexivity.
Qed.

Lemma handleWheel_returns (s : State) (e : WheelEvent) :
  containerRef s <> None -> handleWheel s e = Normal (state_of (handleWheel s e)).
Proof.
  intros Hc. unfold handleWheel. repeat case_match; try reflexivity.
  contradiction.
Qed.

Lemma onload_returns (W H : nat) (s : State) :
  W <> 0%nat -> H <> 0%nat -> onload W H s = Normal (state_of (onload W H s)).
Proof.
  intros HW HH. unfold onload, getImageData.
  cbn [set_height set_width context2d canvas_width canvas_height bitmap].
  destruct (Nat.eqb_spec W 0); [contradiction|].
  destruct (Nat.eqb_spec H 0); [contradiction|].
  repeat case_match; try reflexivity; discriminate.
Qed.

Lemma dispatch_returns (s : State) (ev : Event) :
  operable s -> empty_load ev = false ->
  dispatch cov s ev = Normal (step cov s ev).
Proof.
  intros (Hct & (c & Hc & Hw & Hh) & Hok) Hev. unfold step.
  destruct ev; cbn [dispatch]; try reflexivity.
  - unfold handlePointerUp. destruct (isDrawingRef s); [|reflexivity].
    rewrite (saveHistory_returns s c Hc Hw Hh). reflexivity.
  - unfold handlePointerUp. destruct (isDrawingRef s); [|reflexivity].
    rewrite (saveHistory_returns s c Hc Hw Hh). reflexivity.
  - apply handleWheel_returns, Hct.
  - unfold handleKeyDown. repeat case_match; try reflexivity;
      [apply handleUndo_returns|apply handleRedo_returns]; exact Hok.
  - cbn in Hev. apply orb_false_iff in Hev as [HW HH].
    apply Nat.eqb_neq in HW, HH. apply onload_returns; assumption.
  - unfold handleZoom. destruct (containerRef s) eqn:E; [|reflexivity].
    apply handleWheel_returns. congruence.
  - apply handleUndo_returns, Hok.
  - apply handleRedo_returns, Hok.
  - unfold handleClear. rewrite Hc. destruct (context2d c); [|reflexivity].
    apply (saveHistory_returns _ (clearRect c)); [reflexivity|exact Hw|exact Hh].
Qed.

Lemma step_container (s : State) (ev : Event) :
  containerRef (step cov s ev) = containerRef s.
Proof.
  destruct s as [cr ir ct dr pr lp [st ix] bs er t sh bo hc sv].
  destruct ev; unfold step, dispatch; unfold_handlers; cbn;
    repeat (case_match; cbn); reflexivity.
Qed.

Lemma step_operable (s : State) (ev : Event) :
  operable s -> empty_load ev = false -> operable (step cov s ev).
Proof.
  intros (Hct & (c & Hc & Hw & Hh) & Hok) Hev.
  split; [rewrite step_container; exact Hct|]. split.
  - destruct (is_load ev) eqn:El.
    + destruct ev; try discriminate El. cbn in Hev.
      apply orb_false_iff in Hev as [HW HH]. apply Nat.eqb_neq in HW, HH.
      destruct (context2d c) eqn:Hctx.
      * destruct (onload_settles W H s c HW HH Hc Hctx)
          as (s0 & Hload & ((c0 & Hc0 & Hs0) & _) & _).
        unfold step. cbn [dispatch]. rewrite Hload. cbn [state_of].
        exists c0. split; [exact Hc0|].
        destruct Hs0 as (_ & -> & -> & _). split; assumption.
      * unfold step, dispatch, onload.
        assert (Hc1 : canvasRef
                  (match imageRef s with
                   | Some _ => set_imageRef (Some (W, H)) s
                   | None => s
                   end) = Some c) by (destruct (imageRef s); exact Hc).
        rewrite Hc1. cbn [set_height set_width context2d]. rewrite Hctx.
        cbn [and_then state_of].
        rewrite (proj1 (resetView_fields _)). cbn.
        eexists. split; [reflexivity|]. split; assumption.
    + pose proof (step_shape_kept cov s ev El) as Hk.
      unfold shape_kept in Hk. rewrite Hc in Hk.
      destruct (canvasRef (step cov s ev)) as [c'|]; [|contradiction].
      exists c'. split; [reflexivity|].
      destruct Hk as (_ & -> & -> & _). split; assumption.
  - eapply cursor_ok_move; [apply step_moves_history|exact Hok].
Qed.

Lemma mounted_operable (container : DOMRect) : operable (mounted container).
Proof.
  split; [discriminate|]. split.
  - exists default_canvas. split; [reflexivity|]. split; discriminate.
  - left. split; reflexivity.
Qed.

(** X9.  From the mounted component no handler ever throws, whatever
    the events are, as long as no image with a zero width or height is
    loaded. *)
Theorem handlers_never_throw (container : DOMRect) (evs : list Event) :
  forallb (fun ev => negb (empty_load ev)) evs = true ->
  run_checked cov (mounted container) evs
  = Normal (run cov (mounted container) evs).
Proof.
  assert (H : forall s, operable s ->
    forallb (fun ev => negb (empty_load ev)) evs = true ->
    run_checked cov s evs = Normal (run cov s evs)).
  { induction evs as [|ev evs IH]; intros s Hs Hev; [reflexivity|].
    cbn in Hev. apply andb_true_iff in Hev as [Hev Hevs].
    apply negb_true_iff in Hev.
    cbn [run_checked]. rewrite (dispatch_returns s ev Hs Hev). cbn [and_then].
    apply (IH (step cov s ev)); [apply step_operable; assumption|exact Hevs]. }
  apply H, mounted_operable.
Qed.

End NoThrow.

(** ** Undo and redo as inverses *)

Lemma redo_loaded (W H : nat) (s : State) :
  W <> 0%nat -> loaded W H s ->
  (index (historyRef s) < Z.of_nat (length (stack (historyRef s))) - 1)%Z ->
  exists s' : State,
    handleRedo s = Normal s' /\
    loaded W H s' /\ clean s' /\
    stack (historyRef s') = stack (historyRef s) /\
    index (historyRef s') = (index (historyRef s) + 1)%Z /\
    isDrawingRef s' = isDrawingRef s /\ isPanningRef s' = isPanningRef s.
Proof.
  intros HW ((c & Hc & Hs) & Hst & Hrange) Hlt.
  destruct (lookup_lt_is_Some_2 (stack (historyRef s))
              (Z.to_nat (index (historyRef s) + 1))) as [img Himg]; [lia|].
  assert (Hok : entry_ok W H img) by (eapply Forall_lookup_1; eassumption).
  eexists. split.
  { apply (handleRedo_restores W H s c img HW Hc Hs Hok Hlt Himg). }
  unfold loaded, clean, pixels. cbn.
  split; [split; [|split; [exact Hst|lia]]|].
  { exists (with_bitmap (data img) c). split; [reflexivity|].
    apply shaped_with_bitmap; [exact Hs|apply Hok]. }
  split; [exists img; split; [exact Himg|reflexivity]|].
  repeat split.
Qed.

Lemma with_bitmap_twice (b : list Pixel) (c : Canvas) :
  with_bitmap (bitmap c) (with_bitmap b c) = c.
Proof. destruct c. reflexivity. Qed.

(** X10.  In a loaded editor whose live bitmap is the entry under the
    cursor, undo followed by redo, and redo followed by undo, give back
    the state they started from: bitmap, history and controls. *)
Theorem undo_redo_inverse (W H : nat) (s : State) :
  W <> 0%nat -> loaded W H s -> clean s -> in_sync s ->
  ((0 < index (historyRef s))%Z ->
   handleUndo s >>= handleRedo = Normal s) /\
  ((index (historyRef s) < Z.of_nat (length (stack (historyRef s))) - 1)%Z ->
   handleRedo s >>= handleUndo = Normal s).
Proof.
  intros HW Hl (cur & Hcur & Hdata) (Hcu & Hcr).
  pose proof Hl as ((c & Hc & Hs) & Hst & Hrange).
  assert (Hcok : entry_ok W H cur) by (eapply Forall_lookup_1; eassumption).
  unfold pixels in Hdata. rewrite Hc in Hdata.
  assert (Hback : forall (b : list Pixel) (i : Z),
    updateHistoryControls
      (set_historyRef (mkHistory (stack (historyRef s)) (index (historyRef s)))
         (set_canvasRef (Some (with_bitmap (data cur) (with_bitmap b c)))
            (updateHistoryControls
               (set_historyRef (mkHistory (stack (historyRef s)) i)
                  (set_canvasRef (Some (with_bitmap b c)) s))))) = s).
  { intros b i. rewrite Hdata, with_bitmap_twice.
    destruct s as [cr ir ct dr pr lp [st ix] bs er t sh bo [cu cr'] sv].
    cbn in *. subst. reflexivity. }
  split; intros Hix.
  - destruct (lookup_lt_is_Some_2 (stack (historyRef s))
                (Z.to_nat (index (historyRef s) - 1))) as [img Himg]; [lia|].
    assert (Hok : entry_ok W H img) by (eapply Forall_lookup_1; eassumption).
    rewrite (handleUndo_restores W H s c img HW Hc Hs Hok Hix Himg).
    cbn [and_then].
    erewrite (handleRedo_restores W H _ (with_bitmap (data img) c) cur HW).
    + cbn. replace (index (historyRef s) - 1 + 1)%Z
        with (index (historyRef s)) by lia.
      f_equal. apply Hback.
    + reflexivity.
    + apply shaped_with_bitmap; [exact Hs|apply Hok].
    + exact Hcok.
    + cbn. lia.
    + cbn. replace (index (historyRef s) - 1 + 1)%Z
        with (index (historyRef s)) by lia. exact Hcur.
  - destruct (lookup_lt_is_Some_2 (stack (historyRef s))
                (Z.to_nat (index (historyRef s) + 1))) as [img Himg]; [lia|].
    assert (Hok : entry_ok W H img) by (eapply Forall_lookup_1; eassumption).
    rewrite (handleRedo_restores W H s c img HW Hc Hs Hok Hix Himg).
    cbn [and_then].
    erewrite (handleUndo_restores W H _ (with_bitmap (data img) c) cur HW).
    + cbn. replace (index (historyRef s) + 1 - 1)%Z
        with (index (historyRef s)) by lia.
      f_equal. apply Hback.
    + reflexivity.
    + apply shaped_with_bitmap; [exact Hs|apply Hok].
    + exact Hcok.
    + cbn. lia.
    + cbn. replace (index (historyRef s) + 1 - 1)%Z
        with (index (historyRef s)) by lia. exact Hcur.
Qed.

(** ** One gesture, one step back *)

Section OneStep.

Variable cov : LineJoin -> LineCap -> Qc -> Point -> Point -> nat -> nat -> Qc.

(** X11.  Between gestures, wherever the history cursor is (also after
    undos): in a loaded editor whose live bitmap is the entry under the
    cursor, with the pan key not held, any committed draw or clear
    gesture can be taken back and brought back.  One undo restores the
    bitmap as it was before the gesture and puts the cursor back where
    it was, and a redo after it restores the bitmap the gesture left. *)
Theorem gesture_undo_redo (W H : nat) (s : State) (g : Gesture) :
  W <> 0%nat -> H <> 0%nat ->
  loaded W H s -> clean s -> isPanningRef s = false ->
  well_formed g = true -> commits g = true ->
  let s1 := run cov s (events g) in
  exists s2 s3 : State,
    handleUndo s1 = Normal s2 /\
    pixels s2 = pixels s /\
    index (historyRef s2) = index (historyRef s) /\
    handleRedo s2 = Normal s3 /\
    pixels s3 = pixels s1.
Proof.
  intros HW HH Hl (cur & Hcur & Hdata) Hpan Hwf Hcm s1.
  assert (Hpush : loaded W H s1 /\ clean s1 /\
                  index (historyRef s1) = (index (historyRef s) + 1)%Z /\
                  exists img : ImageData,
                    stack (historyRef s1) =
                      take (Z.to_nat (index (historyRef s) + 1))
                        (stack (historyRef s)) ++ [img]).
  { subst s1. destruct g as [down during fin| |ev];
      cbn [commits well_formed] in *; [| |discriminate Hcm].
    - apply andb_true_iff in Hwf as [Hb Hdur]. apply Z.eqb_eq in Hb.
      destruct (draw_commits cov W H s down during fin HW HH Hl Hpan Hb Hdur)
        as (Hl' & Hcl' & _ & _ & Hix' & img & Hst').
      split; [exact Hl'|]. split; [exact Hcl'|]. split; [exact Hix'|].
      exists img. exact Hst'.
    - change (run cov s (events Clear)) with (state_of (handleClear s)).
      destruct Hl as ((c & Hc & Hs) & Hst & Hix).
      unfold handleClear. rewrite Hc, (proj1 Hs).
      assert (Hl1 : loaded W H (set_canvasRef (Some (clearRect c)) s)).
      { split; [|split; assumption]. exists (clearRect c).
        split; [reflexivity|apply shaped_clearRect, Hs]. }
      destruct (commit_push W H _ HW HH Hl1)
        as (c1 & s3 & Hc1 & Hsave & Hl3 & Hcl3 & Hst3 & _ & Hnx3 & _).
      rewrite Hsave. cbn [state_of].
      split; [exact Hl3|]. split; [exact Hcl3|]. split; [exact Hnx3|].
      exists (snapshot c1). exact Hst3. }
  clearbody s1. destruct Hpush as (Hl1 & Hcl1 & Hix1 & img & Hst1).
  destruct Hl as (_ & _ & Hrange).
  assert (Hlen1 : Z.of_nat (length (stack (historyRef s1)))
                  = (index (historyRef s) + 2)%Z).
  { rewrite Hst1, length_app, length_take_le by lia. cbn. lia. }
  destruct (undo_loaded W H s1 HW Hl1 ltac:(lia))
    as (s2 & Hu & Hl2 & (img2 & Himg2 & Hd2) & Hst2 & Hix2 & _).
  destruct (redo_loaded W H s2 HW Hl2 ltac:(rewrite Hst2; lia))
    as (s3 & Hr & _ & (img3 & Himg3 & Hd3) & Hst3 & Hix3 & _).
  exists s2, s3. split; [exact Hu|].
  assert (Hi2 : index (historyRef s2) = index (historyRef s)) by lia.
  split; [|split; [exact Hi2|split; [exact Hr|]]].
  - rewrite <- Hd2, <- Hdata. f_equal.
    rewrite Hi2, Hst2, Hst1 in Himg2.
    rewrite lookup_app_l in Himg2 by (rewrite length_take_le by lia; lia).
    rewrite lookup_take_lt in Himg2 by lia. congruence.
  - destruct Hcl1 as (img1 & Himg1 & Hd1). rewrite <- Hd3, <- Hd1. f_equal.
    rewrite Hix3, Hix2, Hst3, Hst2 in Himg3.
    replace (index (historyRef s1) - 1 + 1)%Z
      with (index (historyRef s1)) in Himg3 by lia.
    congruence.
Qed.

(** X12.  In a loaded editor Clear blanks every pixel and always records
    the action, also when the mask was blank already: the cursor moves to
    a new last entry, undo becomes available and redo is not. *)
Theorem clear_always_commits (W H : nat) (s : State) :
  W <> 0%nat -> H <> 0%nat -> loaded W H s ->
  exists s' : State,
    handleClear s = Normal s' /\
    pixels s' = replicate (W * H) transparent /\
    index (historyRef s') = (index (historyRef s) + 1)%Z /\
    Z.of_nat (length (stack (historyRef s'))) = (index (historyRef s) + 2)%Z /\
    canUndo (historyControls s') = true /\
    canRedo (historyControls s') = false.
Proof.
  intros HW HH Hl. pose proof Hl as ((c & Hc & Hs) & Hst & Hix).
  unfold handleClear. rewrite Hc, (proj1 Hs).
  assert (Hl1 : loaded W H (set_canvasRef (Some (clearRect c)) s)).
  { split; [|split; assumption]. exists (clearRect c).
    split; [reflexivity|apply shaped_clearRect, Hs]. }
  destruct (commit_push W H _ HW HH Hl1)
    as (c1 & s' & Hc1 & Hsave & _ & (img & Himg & Hd) & Hst' & Htip & Hnx
        & Hr & _).
  injection Hc1 as <-. cbn in Hnx.
  exists s'. split; [exact Hsave|].
  assert (Hsync : in_sync s').
  { unfold saveHistory in Hsave. cbn in Hsave. rewrite (proj1 Hs) in Hsave.
    destruct (getImageData (clearRect c)); [|discriminate].
    injection Hsave as <-. apply in_sync_update. }
  split; [|split; [exact Hnx|split; [lia|split; [|exact Hr]]]].
  - rewrite <- Hd. rewrite Htip, Hst' in Himg.
    rewrite length_app in Himg. cbn in Himg.
    replace (Z.to_nat _) with
      (length (take (Z.to_nat (index (historyRef s) + 1)) (stack (historyRef s)))
       + 0)%nat in Himg by lia.
    rewrite lookup_app_r in Himg by lia.
    replace (_ + 0 - _)%nat with 0%nat in Himg by lia.
    injection Himg as <-. cbn.
    destruct Hs as (_ & _ & _ & <-). clear.
    induction (bitmap c) as [|p l IH]; [reflexivity|].
    cbn. f_equal. exact IH.
  - rewrite (proj1 Hsync), Hnx. apply Z.ltb_lt. lia.
Qed.

(** X13.  A stroke is committed once: a draw gesture adds exactly one
    history entry however many pointer moves it has, and a pointer-up or
    pointer-leave that follows it changes neither the history nor the
    canvas. *)
Theorem stroke_commits_once (W H : nat) (s : State) (down : PointerEvent)
    (during : list Event) (fin : StrokeEnd) :
  W <> 0%nat -> H <> 0%nat -> loaded W H s -> isPanningRef s = false ->
  well_formed (Draw down during fin) = true ->
  let s' := run cov s (events (Draw down during fin)) in
  index (historyRef s') = (index (historyRef s) + 1)%Z /\
  Z.of_nat (length (stack (historyRef s'))) = (index (historyRef s) + 2)%Z /\
  forall after : StrokeEnd,
    historyRef (step cov s' (stroke_end after)) = historyRef s' /\
    canvasRef (step cov s' (stroke_end after)) = canvasRef s'.
Proof.
  intros HW HH Hl Hp Hwf. cbn [well_formed] in Hwf.
  apply andb_true_iff in Hwf as [Hb Hdur]. apply Z.eqb_eq in Hb.
  destruct (draw_commits cov W H s down during fin HW HH Hl Hp Hb Hdur)
    as (_ & _ & (Hd & _ & Htip) & _ & Hix & _).
  intros s'. fold s' in Hd, Htip, Hix. clearbody s'.
  split; [exact Hix|]. split; [lia|].
  intros after. rewrite step_stroke_end. unfold handlePointerUp.
  rewrite Hd. cbn. split; reflexivity.
Qed.

End OneStep.

(** ** Loads, key releases and sizes *)

Section Editor.

Variable cov : LineJoin -> LineCap -> Qc -> Point -> Point -> nat -> nat -> Qc.

Lemma resetView_controls (s : State) :
  historyControls (resetView s) = historyControls s.
Proof. unfold resetView. repeat case_match; reflexivity. Qed.

Lemma onload_controls (W H : nat) (s : State) (c : Canvas) :
  W <> 0%nat -> H <> 0%nat -> canvasRef s = Some c -> context2d c = true ->
  historyControls (state_of (onload W H s)) = mkControls false false.
Proof.
  intros HW HH Hc Hctx. unfold onload.
  assert (Hc1 : canvasRef
            (match imageRef s with
             | Some _ => set_imageRef (Some (W, H)) s
             | None => s
             end) = Some c) by (destruct (imageRef s); exact Hc).
  rewrite Hc1. unfold getImageData.
  cbn [set_height set_width context2d canvas_width canvas_height bitmap].
  rewrite Hctx.
  destruct (Nat.eqb_spec W 0); [contradiction|].
  destruct (Nat.eqb_spec H 0); [contradiction|].
  cbn [orb and_then state_of]. rewrite resetView_controls. reflexivity.
Qed.

(** X14.  Loading an image of non-zero size throws away whatever history
    there was: the stack becomes the single blank snapshot of the new
    size, neither undo nor redo is available, and the mask is blank.  A
    stroke or pan in progress is not ended by the load. *)
Theorem load_resets_history (W H : nat) (s : State) (c : Canvas) :
  W <> 0%nat -> H <> 0%nat -> canvasRef s = Some c -> context2d c = true ->
  let s0 := step cov s (ImageLoad W H) in
  historyRef s0 = mkHistory [blank W H] 0 /\
  historyControls s0 = mkControls false false /\
  pixels s0 = replicate (W * H) transparent /\
  isDrawingRef s0 = isDrawingRef s /\ isPanningRef s0 = isPanningRef s.
Proof.
  intros HW HH Hc Hctx s0.
  pose proof (onload_controls W H s c HW HH Hc Hctx) as Hctl.
  destruct (onload_settles W H s c HW HH Hc Hctx)
    as (s0' & Hload & _ & _ & Hh & Hpx & Hd & Hp).
  rewrite Hload in Hctl. cbn [state_of] in Hctl.
  assert (Hs0 : s0 = s0')
    by (subst s0; unfold step; cbn [dispatch]; rewrite Hload; reflexivity).
  clearbody s0. subst s0'.
  split; [exact Hh|]. split; [exact Hctl|].
  split; [exact Hpx|split; assumption].
Qed.

(** X15.  Releasing the pan key forgets the anchor point: from then on
    pointer moves change nothing at all, even with a stroke still in
    progress, until the next pointer-down. *)
Theorem key_release_drops_anchor
    (s : State) (e : KeyboardEvent) (moves : list PointerEvent) :
  key e = " "%string ->
  let s' := handleKeyUp s e in
  isPanningRef s' = false /\ lastPointRef s' = None /\
  isDrawingRef s' = isDrawingRef s /\
  run cov s' (map PointerMove moves) = s'.
Proof.
  intros Hk s'. subst s'. unfold handleKeyUp. rewrite Hk, String.eqb_refl.
  split; [reflexivity|]. split; [reflexivity|]. split; [reflexivity|].
  induction moves as [|m moves IH]; [reflexivity|].
  change (run cov ?x (map PointerMove (m :: moves)))
    with (run cov (handlePointerMove cov x m) (map PointerMove moves)).
  replace (handlePointerMove cov
             (set_lastPointRef None (set_isPanningRef false s)) m)
    with (set_lastPointRef None (set_isPanningRef false s)); [exact IH|].
  unfold handlePointerMove. cbn. destruct (isDrawingRef s); reflexivity.
Qed.

(** X17.  Only a load changes the size of the mask: after any events
    other than a load the canvas has the width, the height and the
    number of pixels it had before. *)
Theorem canvas_size_fixed_between_loads
    (s : State) (c : Canvas) (evs : list Event) :
  canvasRef s = Some c ->
  forallb (fun ev => negb (is_load ev)) evs = true ->
  exists c' : Canvas,
    canvasRef (run cov s evs) = Some c' /\
    canvas_width c' = canvas_width c /\
    canvas_height c' = canvas_height c /\
    length (bitmap c') = length (bitmap c).
Proof.
  intros Hc Hevs. pose proof (run_shape_kept cov evs s Hevs) as Hk.
  unfold shape_kept in Hk. rewrite Hc in Hk.
  destruct (canvasRef (run cov s evs)) as [c'|]; [|contradiction].
  exists c'. destruct Hk as (_ & Hw & Hh & Hl). repeat split; assumption.
Qed.

End Editor.

(** ** Opacity stays an opacity *)

Lemma Qc_sub_nonneg (p q : Qc) : p <= q <-> 0 <= q - p.
Proof. unfold Qcminus. apply Qcle_minus_iff. Qed.

Lemma unit_mult (k a : Qc) : 0 <= k <= 1 -> 0 <= a <= 1 -> 0 <= k * a <= 1.
Proof.
  intros [Hk0 Hk1] [Ha0 Ha1]. split; [apply Qcmult_nonneg_nonneg; assumption|].
  apply Qcle_trans with (1 * a); [|rewrite Qcmult_1_l; exact Ha1].
  apply Qcmult_le_mono_nonneg_r; assumption.
Qed.

Lemma unit_out (K a : Qc) :
  0 <= K <= 1 -> 0 <= a <= 1 -> 0 <= (1 - K) * a <= a.
Proof.
  intros [HK0 HK1] [Ha0 Ha1]. apply Qc_sub_nonneg in HK1. split.
  - apply Qcmult_nonneg_nonneg; assumption.
  - apply Qc_sub_nonneg. replace (a - (1 - K) * a) with (K * a) by ring.
    apply Qcmult_nonneg_nonneg; assumption.
Qed.

Lemma unit_over (K a : Qc) :
  0 <= K <= 1 -> 0 <= a <= 1 -> a <= K + (1 - K) * a <= 1.
Proof.
  intros [HK0 HK1] [Ha0 Ha1].
  apply Qc_sub_nonneg in HK1, Ha1. split; apply Qc_sub_nonneg.
  - replace (K + (1 - K) * a - a) with (K * (1 - a)) by ring.
    apply Qcmult_nonneg_nonneg; assumption.
  - replace (1 - (K + (1 - K) * a)) with ((1 - K) * (1 - a)) by ring.
    apply Qcmult_nonneg_nonneg; assumption.
Qed.

Lemma rgba_alpha_unit (r g b : Z) (a : Qc) : 0 <= alpha (rgba r g b a) <= 1.
Proof.
  unfold rgba. cbn [alpha].
  destruct (Qcltb a 0) eqn:E0; [split; apply Qcltb_ge; reflexivity|].
  destruct (Qcltb 1 a) eqn:E1; [split; apply Qcltb_ge; reflexivity|].
  split; apply Qcltb_ge; assumption.
Qed.

Section Opacity.

Variable cov : LineJoin -> LineCap -> Qc -> Point -> Point -> nat -> nat -> Qc.

(** X18.  Where the rasteriser reports a coverage between 0 and 1, a
    stroke keeps the opacity of a pixel between 0 and 1, whatever the
    brush opacity is set to; erasing never raises the opacity of a pixel
    and drawing never lowers it. *)
Theorem stroke_keeps_opacity_in_range
    (s : State) (c : Canvas) (x1 y1 x2 y2 : Qc) (i : nat) (dst : Pixel) :
  canvasRef s = Some c -> context2d c = true ->
  bitmap c !! i = Some dst ->
  0 <= alpha dst <= 1 ->
  0 <= brushCoverage cov s c (mkPoint x1 y1) (mkPoint x2 y2) i <= 1 ->
  exists out : Pixel,
    pixels (drawLine cov s x1 y1 x2 y2) !! i = Some out /\
    0 <= alpha out <= 1 /\
    (isErasing s = true -> alpha out <= alpha dst) /\
    (isErasing s = false -> alpha dst <= alpha out).
Proof.
  intros Hc Hctx Hi Ha Hk.
  rewrite (drawLine_pixels cov s c x1 y1 x2 y2 i dst Hc Hctx Hi).
  set (k := brushCoverage cov s c _ _ i) in *. clearbody k.
  eexists. split; [reflexivity|].
  destruct (isErasing s); cbn.
  - pose proof (unit_mult k (alpha (rgba 0 0 0 1)) Hk (rgba_alpha_unit _ _ _ _))
      as HK.
    destruct (unit_out _ (alpha dst) HK Ha) as [H0 H1].
    split; [split; [exact H0|]|split; [intros _; exact H1|discriminate]].
    apply Qcle_trans with (alpha dst); [exact H1|apply Ha].
  - pose proof (unit_mult k (alpha (rgba 236 72 153 (brushOpacity s))) Hk
                  (rgba_alpha_unit _ _ _ _)) as HK.
    destruct (unit_over _ (alpha dst) HK Ha) as [H0 H1].
    split; [split; [|exact H1]|split; [discriminate|intros _; exact H0]].
    apply Qcle_trans with (alpha dst); [apply Ha|exact H0].
Qed.

End Opacity.

(** * The host's edit history *)

Lemma App_undo_some (h : App.EditHistory) (previous : list string)
    (older : list (list string)) :
  App.past h = older ++ [previous] ->
  App.handleUndo h =
    App.mkEditHistory older previous (App.present h :: App.future h).
Proof.
  intros Hp. unfold App.handleUndo. rewrite Hp, length_app. cbn.
  replace (length older + 1 =? 0)%nat with false
    by (symmetry; apply Nat.eqb_neq; lia).
  replace (length older + 1 - 1)%nat with (length older + 0)%nat by lia.
  rewrite lookup_app_r by lia.
  replace (length older + 0 - length older)%nat with 0%nat by lia. cbn.
  unfold slice0.
  destruct (Z.ltb_spec (Z.of_nat (length older + 1) - 1) 0); [lia|].
  replace (Z.to_nat (Z.of_nat (length older + 1) - 1)) with
    (length older + 0)%nat by lia.
  rewrite take_app_add, take_0, app_nil_r. reflexivity.
Qed.

Lemma App_undo_nil (h : App.EditHistory) :
  App.past h = [] -> App.handleUndo h = h.
Proof. intros E. unfold App.handleUndo. rewrite E. reflexivity. Qed.

Lemma App_past_split (h : App.EditHistory) :
  App.past h <> [] ->
  exists older previous, App.past h = older ++ [previous].
Proof.
  intros Hne. destruct (App.past h) as [|x l] using rev_ind; [contradiction|].
  exists l, x. reflexivity.
Qed.

(** X19.  In the host's edit history, undo followed by redo gives back
    the history it started from whenever there is something to undo, and
    redo followed by undo does whenever there is something to redo; at
    the ends undo and redo change nothing. *)
Theorem App_undo_redo_inverse (h : App.EditHistory) :
  (App.canUndo h = true -> App.handleRedo (App.handleUndo h) = h) /\
  (App.canRedo h = true -> App.handleUndo (App.handleRedo h) = h) /\
  (App.canUndo h = false -> App.handleUndo h = h) /\
  (App.canRedo h = false -> App.handleRedo h = h).
Proof.
  unfold App.canUndo, App.canRedo. split; [|split; [|split]].
  - intros Hc. apply Nat.ltb_lt in Hc.
    destruct (App_past_split h) as (older & previous & Hp).
    { intros E. rewrite E in Hc. cbn in Hc. lia. }
    rewrite (App_undo_some h previous older Hp).
    unfold App.handleRedo. cbn. rewrite <- Hp. destruct h; reflexivity.
  - intros Hc. apply Nat.ltb_lt in Hc.
    destruct h as [p c [|next f]]; [cbn in Hc; lia|].
    change (App.handleUndo (App.mkEditHistory (p ++ [c]) next f)
            = App.mkEditHistory p c (next :: f)).
    rewrite (App_undo_some (App.mkEditHistory (p ++ [c]) next f) c p eq_refl).
    reflexivity.
  - intros Hc. apply Nat.ltb_ge in Hc. unfold App.handleUndo.
    replace (length (App.past h) =? 0)%nat with true
      by (symmetry; apply Nat.eqb_eq; lia). reflexivity.
  - intros Hc. apply Nat.ltb_ge in Hc. unfold App.handleRedo.
    replace (length (App.future h) =? 0)%nat with true
      by (symmetry; apply Nat.eqb_eq; lia). reflexivity.
Qed.

(** X20.  Undo and redo in the host's edit history only move the
    position: the sequence of results, oldest first, stays the same. *)
Theorem App_timeline_kept (h : App.EditHistory) :
  App.timeline (App.handleUndo h) = App.timeline h /\
  App.timeline (App.handleRedo h) = App.timeline h.
Proof.
  split.
  - destruct (App.past h) as [|x0 l0] eqn:E0.
    + rewrite (App_undo_nil h E0). reflexivity.
    + destruct (App_past_split h) as (l & x & E); [rewrite E0; discriminate|].
      rewrite (App_undo_some h x l E). unfold App.timeline. cbn.
      rewrite E, <- app_assoc. reflexivity.
  - destruct h as [p c [|next f]]; [reflexivity|].
    unfold App.handleRedo, App.timeline. cbn.
    rewrite <- app_assoc. reflexivity.
Qed.

Lemma App_filled_act (h : App.EditHistory) (a : App.Action) :
  App.filled h -> App.filled (App.act h a).
Proof.
  intros (Hp & Hf & He). destruct a as [| |edits]; cbn [App.act].
  - destruct h as [p c f]. cbn in Hp, Hf, He.
    destruct p as [|x l _] using rev_ind.
    + split; [exact Hp|]. split; [exact Hf|exact He].
    + rewrite (App_undo_some (App.mkEditHistory (l ++ [x]) c f) x l eq_refl).
      apply Forall_app in Hp as [Hl Hx].
      apply (proj1 (Forall_singleton _ _)) in Hx.
      split; [exact Hl|]. split; [|intros Hx0; destruct (Hx Hx0)].
      cbn. constructor; [|exact Hf].
      intros Hc. destruct (He Hc) as [Hnil _]. destruct l; discriminate Hnil.
  - destruct h as [p c [|next f]]; cbn in *.
    + split; [exact Hp|]. split; [exact Hf|exact He].
    + unfold App.handleRedo. cbn.
      pose proof (Forall_inv Hf) as Hn. pose proof (Forall_inv_tail Hf) as Hf'.
      split; [|split; [exact Hf'|intros Hn0; destruct (Hn Hn0)]].
      apply Forall_app. split; [exact Hp|]. constructor; [|constructor].
      intros Hc. destruct (He Hc) as [_ Hnil]. discriminate Hnil.
  - unfold App.commitEdits.
    destruct (Nat.ltb_spec 0 (length edits)) as [Hlen|];
      [|split; [exact Hp|split; [exact Hf|exact He]]].
    destruct (Nat.ltb_spec 0 (length (App.present h))) as [Hpl|Hpl];
      (split; [|split; [constructor|
         intros Hc; cbn in Hc; rewrite Hc in Hlen; cbn in Hlen; lia]]).
    + cbn. apply Forall_app. split; [exact Hp|]. constructor; [|constructor].
      intros Hc. rewrite Hc in Hpl. cbn in Hpl. lia.
    + exact Hp.
Qed.

(** X21.  Starting from the empty edit history, whatever edits are
    committed, undone and redone, no step of the history is an empty set
    of images: an empty [present] occurs only while [past] and [future]
    are empty too, so undo never leads back to "no result". *)
Theorem App_history_filled (actions : list App.Action) :
  App.filled (foldl App.act App.empty actions).
Proof.
  assert (H : forall h, App.filled h -> App.filled (foldl App.act h actions)).
  { induction actions as [|a actions IH]; intros h Hh; [exact Hh|].
    apply (IH (App.act h a)), App_filled_act, Hh. }
  apply H. split; [constructor|]. split; [constructor|]. intros _.
  split; reflexivity.
Qed.

(** ** Strokes are local *)

Section Local.

Variable cov : LineJoin -> LineCap -> Qc -> Point -> Point -> nat -> nat -> Qc.

(** X22.  A stroke, drawn or erased, leaves every pixel it does not
    cover exactly as it was. *)
Theorem stroke_is_local
    (s : State) (c : Canvas) (x1 y1 x2 y2 : Qc) (i : nat) (dst : Pixel) :
  canvasRef s = Some c -> context2d c = true ->
  bitmap c !! i = Some dst ->
  brushCoverage cov s c (mkPoint x1 y1) (mkPoint x2 y2) i = 0 ->
  pixels (drawLine cov s x1 y1 x2 y2) !! i = Some dst.
Proof.
  intros Hc Hctx Hi Hk.
  rewrite (drawLine_pixels cov s c x1 y1 x2 y2 i dst Hc Hctx Hi), Hk.
  rewrite scale_pixel_0. f_equal.
  destruct dst as [r g b a].
  destruct (isErasing s);
    unfold composite, add_pixel, scale_pixel, transparent;
    cbn [red green blue alpha]; f_equal; ring.
Qed.

End Local.

(** * More concrete runs *)

Ltac concrete_loaded :=
  vm_compute;
  split; [eexists; split; [reflexivity|repeat split]
         |split; [repeat constructor|split; [discriminate|reflexivity]]].

Ltac concrete_clean := vm_compute; eexists; split; reflexivity.

(** An instance: the 2 by 2 image in the 400 by 400 container is shown
    at 100%. *)
Lemma resetView_full_size_witness :
  Qc_of_nat 2 <= rect_width container0 /\
  Qc_of_nat 2 <= rect_height container0 /\
  scale (transform (resetView editing)) = 1.
Proof.
  assert (Hc : containerRef editing = Some container0)
    by (vm_compute; reflexivity).
  assert (Hi : imageRef editing = Some (2, 2)%nat) by (vm_compute; reflexivity).
  assert (Hw : Qc_of_nat 2 <= rect_width container0)
    by (vm_compute; discriminate).
  assert (Hh : Qc_of_nat 2 <= rect_height container0)
    by (vm_compute; discriminate).
  split; [exact Hw|]. split; [exact Hh|].
  apply (resetView_full_size editing container0 2 2 Hc Hi
           ltac:(discriminate) ltac:(discriminate)).
  split; assumption.
Defined.


(** An instance: the 4000 by 1 image fitted at 10% cannot be zoomed. *)
Lemma zoom_stuck_below_minimum_witness :
  0 <= scale (transform wide_image) /\
  scale (transform wide_image) * zoomFactor < MIN_SCALE /\
  handleWheel wide_image wheel_in = Normal wide_image /\
  handleZoom zoom_in wide_image = Normal wide_image.
Proof.
  assert (H0 : 0 <= scale (transform wide_image))
    by (vm_compute; discriminate).
  assert (H1 : scale (transform wide_image) * zoomFactor < MIN_SCALE)
    by (vm_compute; reflexivity).
  split; [exact H0|]. split; [exact H1|].
  destruct (zoom_stuck_below_minimum wide_image H0 H1) as [Hw Hz].
  split; [apply Hw|apply Hz].
Defined.

(** An instance: zooming, panning and drawing on the 2 by 2 editor. *)
Lemma scale_stays_in_bounds_witness :
  scale_in_bounds editing /\
  scale_in_bounds
    (run endpoint_coverage editing
       [Wheel wheel_in; ClickZoom zoom_in; PointerDown (primary 199 199);
        PointerMove (primary 200 200); PointerUp; Wheel wheel_out]).
Proof.
  assert (Hb : scale_in_bounds editing)
    by (split; vm_compute; discriminate).
  split; [exact Hb|].
  apply (scale_stays_in_bounds endpoint_coverage editing _ Hb). reflexivity.
Defined.

(** An instance: a session with strokes, shortcuts, a load and a pan. *)
Lemma handlers_never_throw_witness :
  forallb (fun ev => negb (empty_load ev)) session0 = true /\
  run_checked endpoint_coverage (mounted container0) session0
  = Normal (run endpoint_coverage (mounted container0) session0).
Proof.
  split; [reflexivity|].
  apply (handlers_never_throw endpoint_coverage container0 session0).
  reflexivity.
Defined.

(** An instance: undo then redo after one committed dot. *)
Lemma undo_redo_inverse_witness :
  loaded 2 2 one_dot /\ clean one_dot /\ in_sync one_dot /\
  (0 < index (historyRef one_dot))%Z /\
  handleUndo one_dot >>= handleRedo = Normal one_dot.
Proof.
  assert (Hl : loaded 2 2 one_dot) by concrete_loaded.
  assert (Hc : clean one_dot) by concrete_clean.
  assert (Hs : in_sync one_dot) by (vm_compute; split; reflexivity).
  assert (Hi : (0 < index (historyRef one_dot))%Z) by (vm_compute; reflexivity).
  split; [exact Hl|]. split; [exact Hc|]. split; [exact Hs|].
  split; [exact Hi|].
  apply (undo_redo_inverse 2 2 one_dot ltac:(discriminate) Hl Hc Hs). exact Hi.
Defined.

(** An instance: on the 2 by 2 editor a dot is drawn and undone, and
    with the cursor back on the first of two entries a second dot is
    drawn, taken back and brought back. *)
Lemma gesture_undo_redo_witness :
  loaded 2 2 after_undo /\ clean after_undo /\
  isPanningRef after_undo = false /\
  index (historyRef after_undo) = 0%Z /\
  length (stack (historyRef after_undo)) = 2%nat /\
  exists s2 : State,
    handleUndo (run endpoint_coverage after_undo
                  (events (Draw (primary 200 199) [] EndUp))) = Normal s2 /\
    pixels s2 = pixels after_undo /\
    index (historyRef s2) = index (historyRef after_undo).
Proof.
  assert (Hl : loaded 2 2 after_undo) by concrete_loaded.
  assert (Hcl : clean after_undo) by concrete_clean.
  assert (Hp : isPanningRef after_undo = false) by (vm_compute; reflexivity).
  split; [exact Hl|]. split; [exact Hcl|]. split; [exact Hp|].
  split; [vm_compute; reflexivity|]. split; [vm_compute; reflexivity|].
  destruct (gesture_undo_redo endpoint_coverage 2 2 after_undo
              (Draw (primary 200 199) [] EndUp)
              ltac:(discriminate) ltac:(discriminate) Hl Hcl Hp
              eq_refl eq_refl)
    as (s2 & s3 & Hu & Hpx & Hix & _).
  exists s2. split; [exact Hu|]. split; [exact Hpx|exact Hix].
Defined.

(** An instance: Clear on the blank mask of a fresh load. *)
Lemma clear_always_commits_witness :
  loaded 2 2 editing /\
  pixels editing = replicate 4 transparent /\
  exists s' : State,
    handleClear editing = Normal s' /\
    index (historyRef s') = 1%Z /\
    canUndo (historyControls s') = true.
Proof.
  assert (Hl : loaded 2 2 editing) by concrete_loaded.
  assert (Hi : index (historyRef editing) = 0%Z) by (vm_compute; reflexivity).
  split; [exact Hl|]. split; [vm_compute; reflexivity|].
  destruct (clear_always_commits 2 2 editing
              ltac:(discriminate) ltac:(discriminate) Hl)
    as (s' & Hc & _ & Hix & _ & Hu & _).
  exists s'. split; [exact Hc|]. split; [|exact Hu].
  rewrite Hix, Hi. reflexivity.
Defined.

(** An instance: a stroke with two moves, then a pointer-leave. *)
Lemma stroke_commits_once_witness :
  loaded 2 2 editing /\ isPanningRef editing = false /\
  let s' := run endpoint_coverage editing
              (events (Draw (primary 199 199)
                         [PointerMove (primary 200 199);
                          PointerMove (primary 200 200)] EndUp)) in
  index (historyRef s') = 1%Z /\
  historyRef (step endpoint_coverage s' PointerLeave) = historyRef s'.
Proof.
  assert (Hl : loaded 2 2 editing) by concrete_loaded.
  assert (Hp : isPanningRef editing = false) by (vm_compute; reflexivity).
  assert (Hi : index (historyRef editing) = 0%Z) by (vm_compute; reflexivity).
  split; [exact Hl|]. split; [exact Hp|].
  destruct (stroke_commits_once endpoint_coverage 2 2 editing
              (primary 199 199)
              [PointerMove (primary 200 199); PointerMove (primary 200 200)]
              EndUp ltac:(discriminate) ltac:(discriminate) Hl Hp eq_refl)
    as (Hix & _ & Hafter).
  cbv zeta. split; [rewrite Hix, Hi; reflexivity|].
  apply (Hafter EndLeave).
Defined.

(** An instance: a 2 by 2 image loaded over a committed dot. *)
Lemma load_resets_history_witness :
  canvasRef one_dot = Some (default default_canvas (canvasRef one_dot)) /\
  index (historyRef one_dot) = 1%Z /\
  historyRef (step endpoint_coverage one_dot (ImageLoad 2 2))
    = mkHistory [blank 2 2] 0 /\
  historyControls (step endpoint_coverage one_dot (ImageLoad 2 2))
    = mkControls false false.
Proof.
  assert (Hc : canvasRef one_dot = Some (default default_canvas (canvasRef one_dot)))
    by (vm_compute; reflexivity).
  assert (Hx : context2d (default default_canvas (canvasRef one_dot)) = true)
    by (vm_compute; reflexivity).
  split; [exact Hc|]. split; [vm_compute; reflexivity|].
  destruct (load_resets_history endpoint_coverage 2 2 one_dot _
              ltac:(discriminate) ltac:(discriminate) Hc Hx)
    as (Hh & Hctl & _).
  split; [exact Hh|exact Hctl].
Defined.

(** An instance: the pan key released with the first stroke in
    progress. *)
Lemma key_release_drops_anchor_witness :
  key space = " "%string /\
  isDrawingRef (handleKeyUp first_stroke space) = true /\
  run endpoint_coverage (handleKeyUp first_stroke space)
    (map PointerMove [primary 200 200; primary 199 200])
  = handleKeyUp first_stroke space.
Proof.
  destruct (key_release_drops_anchor endpoint_coverage first_stroke space
              [primary 200 200; primary 199 200] eq_refl)
    as (_ & _ & Hd & Hrun).
  split; [reflexivity|]. split; [|exact Hrun].
  rewrite Hd. vm_compute. reflexivity.
Defined.

(** An instance: strokes, a clear and an undo keep the 2 by 2 size. *)
Lemma canvas_size_fixed_between_loads_witness :
  canvasRef editing = Some (mkCanvas 2 2 (replicate 4 transparent) true) /\
  exists c' : Canvas,
    canvasRef (run endpoint_coverage editing
                 (script gestures0 ++ [ClickUndo; KeyDown ctrl_y]))
      = Some c' /\
    canvas_width c' = 2%nat /\ canvas_height c' = 2%nat.
Proof.
  assert (Hc : canvasRef editing
               = Some (mkCanvas 2 2 (replicate 4 transparent) true))
    by (vm_compute; reflexivity).
  split; [exact Hc|].
  destruct (canvas_size_fixed_between_loads endpoint_coverage editing _
              (script gestures0 ++ [ClickUndo; KeyDown ctrl_y]) Hc eq_refl)
    as (c' & Hc' & Hw & Hh & _).
  exists c'. split; [exact Hc'|]. split; [exact Hw|exact Hh].
Defined.

(** An instance: a dot drawn over the blank pixel [0]. *)
Lemma stroke_keeps_opacity_in_range_witness :
  canvasRef editing = Some (mkCanvas 2 2 (replicate 4 transparent) true) /\
  exists out : Pixel,
    pixels (drawLine endpoint_coverage editing 0 0 0 0) !! 0%nat = Some out /\
    0 <= alpha out <= 1.
Proof.
  assert (Hc : canvasRef editing
               = Some (mkCanvas 2 2 (replicate 4 transparent) true))
    by (vm_compute; reflexivity).
  split; [exact Hc|].
  destruct (stroke_keeps_opacity_in_range endpoint_coverage editing _
              0 0 0 0 0 transparent Hc eq_refl eq_refl)
    as (out & Hout & Hr & _).
  - split; vm_compute; discriminate.
  - split; vm_compute; discriminate.
  - exists out. split; [exact Hout|exact Hr].
Defined.

(** An instance: two edits committed, one undone. *)
Lemma App_undo_redo_inverse_witness :
  let h := App.handleUndo
             (App.commitEdits ["b"%string]
                (App.commitEdits ["a"%string] App.empty)) in
  App.canUndo h = false /\ App.canRedo h = true /\
  App.handleUndo (App.handleRedo h) = h /\
  App.handleUndo h = h.
Proof.
  cbv zeta. split; [reflexivity|]. split; [reflexivity|].
  match goal with |- App.handleUndo (App.handleRedo ?h) = _ /\ _ =>
    destruct (App_undo_redo_inverse h) as (_ & Hr & Hu & _) end.
  split; [apply Hr; reflexivity|apply Hu; reflexivity].
Defined.

(** An instance: a dot at pixel [0] leaves pixel [3] alone. *)
Lemma stroke_is_local_witness :
  canvasRef editing = Some (mkCanvas 2 2 (replicate 4 transparent) true) /\
  pixels (drawLine endpoint_coverage editing 0 0 0 0) !! 3%nat
  = Some transparent.
Proof.
  assert (Hc : canvasRef editing
               = Some (mkCanvas 2 2 (replicate 4 transparent) true))
    by (vm_compute; reflexivity).
  split; [exact Hc|].
  apply (stroke_is_local endpoint_coverage editing _ 0 0 0 0 3 transparent
           Hc eq_refl eq_refl).
  apply Qc_is_canon. vm_compute. reflexivity.
Defined.

